(** * dialent.standard: the standard markup of one document

    A shallow embedding of [scripts/dialent/standard.py].  The class
    [Standard] loads five export files of one document ([NAME.tokens],
    [NAME.spans], [NAME.objects], [NAME.coref], [NAME.txt]) and derives typed
    token sets from the loaded mentions.

    Python objects that are shared and mutated (tokens, token sets) live in a
    store and are referred to by address; a method of [Standard] is a
    function from the object's state to the new state and either an
    exception or a value. *)

From Stdlib Require Import Ascii.
From stdpp Require Import base option list gmap strings pretty sorting.

Local Open Scope Z_scope.

(** ** Python strings *)

Module Py.

(** The newline and the double quote, which cannot be written in a literal. *)
Definition nl : string := String "010"%char EmptyString.
Definition dquote : string := String "034"%char EmptyString.

(** [s.startswith(p)] *)
Fixpoint startswith (p s : string) : bool :=
  match p, s with
  | EmptyString, _ => true
  | String a p', String b s' => if decide (a = b) then startswith p' s' else false
  | String _ _, EmptyString => false
  end.

(** [sep in s], for a non-empty [sep] *)
Fixpoint occurs (sep s : string) : bool :=
  match s with
  | EmptyString => false
  | String _ s' => startswith sep s || occurs sep s'
  end.

(** The scan of [s.split(sep)], left to right over non-overlapping
    occurrences: [skip] counts the characters of a matched separator that
    are still to be passed, [cur] is the part being read. *)
Fixpoint split_go (sep : string) (skip : nat) (cur s : string) : list string :=
  match s with
  | EmptyString => [cur]
  | String c s' =>
      match skip with
      | S k => split_go sep k cur s'
      | O =>
          if startswith sep s
          then cur :: split_go sep (String.length sep - 1)%nat EmptyString s'
          else split_go sep O (cur +:+ String c EmptyString) s'
      end
  end.

(** [s.split(sep)]; Python raises ValueError on an empty separator, which
    is [None] here. *)
Definition split (s sep : string) : option (list string) :=
  match sep with
  | EmptyString => None
  | _ => Some (split_go sep O EmptyString s)
  end.

(** [sep.join(l)] *)
Fixpoint join (sep : string) (l : list string) : string :=
  match l with
  | [] => EmptyString
  | [x] => x
  | x :: rest => x +:+ sep +:+ join sep rest
  end.

(** [s.replace(c, '')] for a one-character [c] *)
Fixpoint remove_char (c : ascii) (s : string) : string :=
  match s with
  | EmptyString => EmptyString
  | String a s' => if decide (a = c) then remove_char c s' else String a (remove_char c s')
  end.

Fixpoint lstrip (chars : list ascii) (s : string) : string :=
  match s with
  | EmptyString => EmptyString
  | String c s' => if decide (c ∈ chars) then lstrip chars s' else s
  end.

Definition rstrip (chars : list ascii) (s : string) : string :=
  String.rev (lstrip chars (String.rev s)).

(** [s.strip(chars)] *)
Definition strip (chars : list ascii) (s : string) : string :=
  rstrip chars (lstrip chars s).

(** The lines a text file yields when iterated: each keeps its newline,
    the last one may lack it, and no line is empty. *)
Fixpoint lines_go (cur s : string) : list string :=
  match s with
  | EmptyString => match cur with EmptyString => [] | _ => [cur] end
  | String c s' =>
      if decide (c = "010"%char)
      then (cur +:+ nl) :: lines_go EmptyString s'
      else lines_go (cur +:+ String c EmptyString) s'
  end.

Definition lines (content : string) : list string := lines_go EmptyString content.

(** [l[:n]] and [l[n:]] for a Python integer [n] (negative counts from the
    end). *)
Definition take {A} (n : Z) (l : list A) : list A :=
  if 0 <=? n then List.firstn (Z.to_nat n) l
  else List.firstn (length l - Z.to_nat (- n)) l.

Definition drop {A} (n : Z) (l : list A) : list A :=
  if 0 <=? n then List.skipn (Z.to_nat n) l
  else List.skipn (length l - Z.to_nat (- n)) l.

(** [os.path.join(path, name)] of posixpath, two components *)
Definition path_join (path name : string) : string :=
  if startswith "/" name then name
  else match path with
       | EmptyString => name
       | _ => if startswith "/" (String.rev path) then path +:+ name
              else path +:+ "/" +:+ name
       end.

(** [sorted(l, key=key)]: stable, as Python's sort is. *)
Fixpoint insert_by {A} (key : A → Z) (x : A) (l : list A) : list A :=
  match l with
  | [] => [x]
  | y :: ys => if key x <=? key y then x :: y :: ys else y :: insert_by key x ys
  end.

Definition sorted {A} (key : A → Z) (l : list A) : list A :=
  foldr (insert_by key) [] l.

End Py.

(** ** Exceptions *)

(** The classes of the exceptions the module raises, by itself or through
    the builtins and collaborators it calls. *)
Inductive exn_class :=
  | Exception | LookupError | KeyError | ValueError | TypeError
  | AssertionError | AttributeError | OSError | csv_Error.

(** The direct base class; [None] for [Exception], whose base is outside. *)
Definition exn_base (c : exn_class) : option exn_class :=
  match c with
  | Exception => None
  | KeyError => Some LookupError
  | LookupError | ValueError | TypeError | AssertionError | AttributeError
  | OSError | csv_Error => Some Exception
  end.

Global Instance exn_class_eq_dec : EqDecision exn_class.
Proof. solve_decision. Defined.

Fixpoint issubclass_go (fuel : nat) (c d : exn_class) : bool :=
  if decide (c = d) then true
  else match fuel, exn_base c with
       | S k, Some b => issubclass_go k b d
       | _, _ => false
       end.

Definition issubclass (c d : exn_class) : bool := issubclass_go 3 c d.

(** A raised exception: its class and the message [str(e)] gives. *)
Record exn := Raise { exn_cls : exn_class; exn_msg : string }.

(** The outcome of an expression: an exception ([inl]) or a value. *)
Definition result (A : Type) : Type := exn + A.

Global Instance result_ret : MRet result := λ A x, inr x.
Global Instance result_bind : MBind result := λ A B f m,
  match m with inl e => inl e | inr x => f x end.
Global Instance result_fmap : FMap result := λ A B f m,
  match m with inl e => inl e | inr x => inr (f x) end.

Definition raise {A} (c : exn_class) (msg : string) : result A := inl (Raise c msg).

(** A list comprehension whose element expression may raise: the first
    exception ends it. *)
Fixpoint comprehension {A B} (f : A → result B) (l : list A) : result (list B) :=
  match l with
  | [] => inr []
  | x :: rest => y ← f x; ys ← comprehension f rest; mret (y :: ys)
  end.

(** ** The records of dialent.objects *)

(** The address of an object in a store. *)
Abbreviation addr := nat.

Module Token.
(** A token; [prev] and [next] refer to other tokens of the store. *)
Record t := mk {
  id : Z; start : Z; length : Z; text : string;
  prev : option addr; next : option addr }.

Definition set_prev (p : addr) (x : t) : t :=
  mk (id x) (start x) (length x) (text x) (Some p) (next x).
Definition set_next (n : addr) (x : t) : t :=
  mk (id x) (start x) (length x) (text x) (prev x) (Some n).
End Token.

Module Span.
(** A span; [tokens] holds the addresses of its tokens. *)
Record t := mk {
  id : Z; tag : string; start : Z; nchars : Z; token_start : Z; ntokens : Z;
  tokens : list addr; text : string }.

Definition set_tokens (v : list addr) (x : t) : t :=
  mk (id x) (tag x) (start x) (nchars x) (token_start x) (ntokens x) v (text x).
Definition set_text (v : string) (x : t) : t :=
  mk (id x) (tag x) (start x) (nchars x) (token_start x) (ntokens x) (tokens x) v.
End Span.

Module Mention.
Record t := mk { id : Z; tag : string; spans : list Span.t }.
End Mention.

(** ** Configuration and collaborators

    [dialent.config] and [dialent.objects] are used by the module and not
    part of it: their constants, constructors and tables are taken as an
    interface, as are the builtins [csv.reader] and [int]. *)

Class Config := {
  DEFAULT_DELIMITER : string;
  QUOTECHAR : string;
  TOKEN_LINE_LENGTH : Z;
  SPAN_FILE_SEPARATOR : string;
  COMMENT_SEPARATOR : string }.

Class Objects := {
  (** an entity of dialent.objects and a mark of the table *)
  Entity : Type;
  Mark : Type;
  (** [csv.reader(f, delimiter, quotechar)] over the content of [f]: the
      rows it yields and the exception that ends the iteration, if any *)
  csv_reader : string → string → string → list (list string) * option exn;
  (** [int(s)]; [None] is ValueError *)
  int : string → option Z;
  (** the message of the ValueError of [int(s)], which quotes [s] as [repr]
      does *)
  int_error : string → string;
  (** [Token] applied to the fields of a line: the id, start, length and text of the new token *)
  Token_parse : list string → result (Z * Z * Z * string);
  (** [Span] applied to the left fields; [tokens] and [text] are assigned by the caller *)
  Span_init : list string → result Span.t;
  (** [Mention(id, tag, span_ids, span_dict)] *)
  Mention_init : Z → string → list Z → gmap Z Span.t → result Mention.t;
  (** [Entity.fromStandard(buffer, mention_dict, span_dict)] *)
  Entity_fromStandard : string → gmap Z Mention.t → gmap Z Span.t → result Entity;
  (** [Entity.fromTest(buffer)] *)
  Entity_fromTest : string → result Entity;
  (** [Tables.getMark(set_tag, span_tag)] *)
  getMark : string → string → result Mark }.


(** ** The class Standard *)

Section Standard.
Context `{Config, Objects}.

(** The files of the document: the text each file name opens to, newlines
    translated as the text mode does. *)
Variable fs : gmap string string.

(** The attributes of a [Standard] object; [None] is an attribute that has
    not been assigned.  [heap] is the store of the tokens the object has
    created: [tokens], [_token_dict] and the spans refer to them by
    address. *)
Record Standard := mkStandard {
  heap : list Token.t;
  tokens : option (list addr);
  _token_dict : option (gmap Z addr);
  spans : option (list Span.t);
  _span_dict : option (gmap Z Span.t);
  mentions : option (list Mention.t);
  _mention_dict : option (gmap Z Mention.t);
  entities : option (list Entity);
  text : option string;
  name : option string }.

(** The object as [__init__] receives it. *)
Definition new_object : Standard :=
  mkStandard [] None None None None None None None None None.

Definition set_heap v s := mkStandard v (tokens s) (_token_dict s) (spans s)
  (_span_dict s) (mentions s) (_mention_dict s) (entities s) (text s) (name s).
Definition set_tokens v s := mkStandard (heap s) (Some v) (_token_dict s) (spans s)
  (_span_dict s) (mentions s) (_mention_dict s) (entities s) (text s) (name s).
Definition set__token_dict v s := mkStandard (heap s) (tokens s) (Some v) (spans s)
  (_span_dict s) (mentions s) (_mention_dict s) (entities s) (text s) (name s).
Definition set_spans v s := mkStandard (heap s) (tokens s) (_token_dict s) (Some v)
  (_span_dict s) (mentions s) (_mention_dict s) (entities s) (text s) (name s).
Definition set__span_dict v s := mkStandard (heap s) (tokens s) (_token_dict s) (spans s)
  (Some v) (mentions s) (_mention_dict s) (entities s) (text s) (name s).
Definition set_mentions v s := mkStandard (heap s) (tokens s) (_token_dict s) (spans s)
  (_span_dict s) (Some v) (_mention_dict s) (entities s) (text s) (name s).
Definition set__mention_dict v s := mkStandard (heap s) (tokens s) (_token_dict s) (spans s)
  (_span_dict s) (mentions s) (Some v) (entities s) (text s) (name s).
Definition set_entities v s := mkStandard (heap s) (tokens s) (_token_dict s) (spans s)
  (_span_dict s) (mentions s) (_mention_dict s) (Some v) (text s) (name s).
Definition set_text v s := mkStandard (heap s) (tokens s) (_token_dict s) (spans s)
  (_span_dict s) (mentions s) (_mention_dict s) (entities s) (Some v) (name s).
Definition set_name v s := mkStandard (heap s) (tokens s) (_token_dict s) (spans s)
  (_span_dict s) (mentions s) (_mention_dict s) (entities s) (text s) (Some v).

(** A method: from the state of [self] to its new state and the outcome.
    The state is returned on an exception too, since the assignments made
    before it stay. *)
Definition M (A : Type) : Type := Standard → Standard * result A.

#[global] Instance M_ret : MRet M := λ A x s, (s, inr x).
#[global] Instance M_bind : MBind M := λ A B f m s,
  match m s with
  | (s', inl e) => (s', inl e)
  | (s', inr x) => f x s'
  end.

Definition lift {A} (r : result A) : M A := λ s, (s, r).
Definition assign (f : Standard → Standard) : M unit := λ s, (f s, inr tt).

(** [self.attr]; AttributeError when it has not been assigned. *)
Definition getattr {A} (attr : string) (f : Standard → option A) : M A := λ s,
  match f s with
  | Some v => (s, inr v)
  | None =>
      (s, raise AttributeError ("'Standard' object has no attribute '" +:+ attr +:+ "'"))
  end.

(** [open(filename, 'r', encoding='utf-8')] *)
Definition open (filename : string) : result string :=
  match fs !! filename with
  | Some content => inr content
  | None => raise OSError ("[Errno 2] No such file or directory: '" +:+ filename +:+ "'")
  end.

(** *** loadTokens *)

(** [Token] applied to the fields of a line: a token without neighbours. *)
Definition Token_init (line : list string) : result Token.t :=
  '(i, st, len, txt) ← Token_parse line;
  mret (Token.mk i st len txt None None).

(** [self.tokens.append(t)] for a new object [t]. *)
Definition tokens_append (t : Token.t) : M unit :=
  toks ← getattr "tokens" tokens;
  assign (λ s, set_tokens (toks ++ [length (heap s)]) (set_heap (heap s ++ [t]) s)).

(** [for index, x in enumerate(l)], from [index] on. *)
Fixpoint for_enumerate {A} (body : nat → A → M unit) (index : nat) (l : list A) : M unit :=
  match l with
  | [] => mret tt
  | x :: rest => body index x;; for_enumerate body (S index) rest
  end.

(** A list comprehension whose element expression reads [self]. *)
Fixpoint for_list {A B} (f : A → M B) (l : list A) : M (list B) :=
  match l with
  | [] => mret []
  | x :: rest => y ← f x; ys ← for_list f rest; mret (y :: ys)
  end.

(** The body of the loop over the rows of the reader. *)
Definition token_row (filename : string) (index : nat) (line : list string) : M unit :=
  if decide (length line = 0%nat) then mret tt
  else if decide (Z.of_nat (length line) ≠ TOKEN_LINE_LENGTH) then
    lift (raise Exception
            ("Wrong length in line " +:+ pretty index +:+ " of file " +:+ filename))
  else
    t ← lift (Token_init line);
    tokens_append t.

Definition tok_id (h : list Token.t) (a : addr) : Z := from_option Token.id 0 (h !! a).
Definition tok_start (h : list Token.t) (a : addr) : Z := from_option Token.start 0 (h !! a).

(** The body of the linking loop, on the token object at position [i]. *)
Definition linked (toks : list addr) (i : nat) (token : Token.t) : Token.t :=
  let token1 :=
    if decide (i ≠ 0%nat) then
      match toks !! (i - 1)%nat with
      | Some p => Token.set_prev p token
      | None => token
      end
    else token in
  if decide (i ≠ (length toks - 1)%nat) then
    match toks !! (i + 1)%nat with
    | Some n => Token.set_next n token1
    | None => token1
    end
  else token1.

(** [for i, token in enumerate(self.tokens)], from position [i] on. *)
Fixpoint link_from (toks : list addr) (i : nat) (rest : list addr) (h : list Token.t)
    : list Token.t :=
  match rest with
  | [] => h
  | token :: rest' => link_from toks (S i) rest' (alter (linked toks i) token h)
  end.

Definition link_tokens (toks : list addr) (h : list Token.t) : list Token.t :=
  link_from toks 0 toks h.

Definition loadTokens (filename : string) : M unit :=
  assign (set_tokens []);;
  content ← lift (open filename);
  let rdr := csv_reader DEFAULT_DELIMITER QUOTECHAR content in
  for_enumerate (token_row filename) 0 rdr.1;;
  match rdr.2 with Some e => lift (inl e) | None => mret tt end;;
  (* fill the token dictionary *)
  toks ← getattr "tokens" tokens;
  assign (λ s, set__token_dict (foldl (λ d a, <[tok_id (heap s) a := a]> d) ∅ toks) s);;
  (* set neighbour links in tokens *)
  assign (λ s, set_tokens (Py.sorted (tok_start (heap s)) toks) s);;
  toks ← getattr "tokens" tokens;
  assign (λ s, set_heap (link_tokens toks (heap s)) s).

(** *** loadSpans *)

Definition py_split (s sep : string) : result (list string) :=
  match Py.split s sep with
  | Some l => inr l
  | None => raise ValueError "empty separator"
  end.

Definition py_int (s : string) : result Z :=
  match int s with
  | Some z => inr z
  | None => raise ValueError (int_error s)
  end.

(** [[i for i in l if len(i) > 0]] *)
Definition nonempty_fields (l : list string) : list string :=
  filter (λ i, (0 < String.length i)%nat) l.

(** [self._token_dict[x]] *)
Definition lookup_token (x : Z) : M addr :=
  d ← getattr "_token_dict" _token_dict;
  match d !! x with
  | Some a => mret a
  | None => lift (raise KeyError (pretty x))
  end.

Definition spans_append (sp : Span.t) : M unit :=
  l ← getattr "spans" spans;
  assign (set_spans (l ++ [sp])).

Definition missing_separator (filename : string) (index : nat) : string :=
  "Expected symbol " +:+ Py.dquote +:+ SPAN_FILE_SEPARATOR +:+ Py.dquote +:+
  " missing in line " +:+ pretty index +:+ " of file " +:+ filename.
Definition missing_left (filename : string) (index : nat) : string :=
  "Missing left parts in line " +:+ pretty index +:+ " of file " +:+ filename.
Definition missing_right (filename : string) (index : nat) : string :=
  "Missing right parts in line " +:+ pretty index +:+ " of file " +:+ filename.

(** The body of the loop over the lines of the spans file. *)
Definition span_line (filename : string) (index : nat) (line : string) : M unit :=
  if decide (String.length line = 0%nat) then mret tt
  else
    parts ← lift (py_split line SPAN_FILE_SEPARATOR);
    match parts with
    | [left_part; right_part] =>
        filtered_left ← lift (nonempty_fields <$> py_split left_part DEFAULT_DELIMITER);
        if decide (length filtered_left < 6)%nat then
          lift (raise Exception (missing_left filename index))
        else
          new_span ← lift (Span_init filtered_left);
          filtered_right ← lift (nonempty_fields <$> py_split right_part DEFAULT_DELIMITER);
          if decide (Z.of_nat (length filtered_right) ≠ 2 * Span.ntokens new_span) then
            lift (raise Exception (missing_right filename index))
          else
            token_ids ← lift (comprehension py_int
                                (Py.take (Span.ntokens new_span) filtered_right));
            toks ← for_list lookup_token token_ids;
            let text := Py.join " " (Py.drop (Span.ntokens new_span) filtered_right) in
            let text := Py.remove_char "010"%char text in
            spans_append (Span.set_text text (Span.set_tokens toks new_span))
    | _ => lift (raise Exception (missing_separator filename index))
    end.

Definition loadSpans (filename : string) : M unit :=
  assign (set_spans []);;
  content ← lift (open filename);
  for_enumerate (span_line filename) 0 (Py.lines content);;
  (* fill the span dictionary *)
  l ← getattr "spans" spans;
  assign (set__span_dict (foldl (λ d x, <[Span.id x := x]> d) ∅ l)).

(** *** loadMentions *)

(** [l.index(x)] for an [x] that is in [l] *)
Fixpoint list_index (x : string) (l : list string) : nat :=
  match l with
  | [] => 0
  | y :: rest => if decide (y = x) then 0 else S (list_index x rest)
  end.

Definition mentions_append (m : Mention.t) : M unit :=
  l ← getattr "mentions" mentions;
  assign (set_mentions (l ++ [m])).

(** The body of the loop over the rows of the objects file. *)
Definition mention_row (filename : string) (index : nat) (line : list string) : M unit :=
  let line :=
    if decide (COMMENT_SEPARATOR ∈ line)
    then take (list_index COMMENT_SEPARATOR line) line
    else line in
  if decide (length line = 0%nat) then mret tt
  else if decide (length line ≤ 2)%nat then
    lift (raise Exception
            ("Missing spans in object description: line " +:+ pretty index +:+
             " of file " +:+ filename))
  else
    match (mention_id ← py_int (nth 0 line "");
           span_indices ← comprehension py_int (drop 2 line);
           mret (mention_id, span_indices)) with
    | inl e =>
        lift (raise Exception
                ("Invalid mention or span id: line " +:+ pretty index +:+
                 " of file " +:+ filename +:+ ":" +:+ Py.nl +:+ exn_msg e))
    | inr (mention_id, span_indices) =>
        d ← getattr "_span_dict" _span_dict;
        m ← lift (Mention_init mention_id (nth 1 line "") span_indices d);
        mentions_append m
    end.

Definition loadMentions (filename : string) : M unit :=
  assign (set_mentions []);;
  content ← lift (open filename);
  let r := csv_reader " " QUOTECHAR content in
  for_enumerate (mention_row filename) 0 r.1;;
  match r.2 with Some e => lift (inl e) | None => mret tt end;;
  (* fill the mention dictionary *)
  l ← getattr "mentions" mentions;
  assign (set__mention_dict (foldl (λ d x, <[Mention.id x := x]> d) ∅ l)).

(** *** loadCoreference *)

Definition entities_append (e : Entity) : M unit :=
  l ← getattr "entities" entities;
  assign (set_entities (l ++ [e])).

Definition whitespace : list ascii := [" "; "009"; "010"; "013"]%char.

(** The body of the loop over the lines of the coreference file; the value
    is the buffer after the line. *)
Definition coref_line (buffer raw_line : string) : M string :=
  let line := Py.strip whitespace raw_line in
  if decide (String.length line = 0%nat) then
    if decide (0 < String.length buffer)%nat then
      md ← getattr "_mention_dict" _mention_dict;
      sd ← getattr "_span_dict" _span_dict;
      e ← lift (Entity_fromStandard buffer md sd);
      entities_append e;;
      mret EmptyString
    else mret buffer
  else mret (buffer +:+ line +:+ Py.nl).

Fixpoint coref_loop (buffer : string) (raw_lines : list string) : M string :=
  match raw_lines with
  | [] => mret buffer
  | raw_line :: rest => b ← coref_line buffer raw_line; coref_loop b rest
  end.

Definition loadCoreference (filename : string) : M unit :=
  assign (set_entities []);;
  match open filename with
  | inl _ =>
      (* there are currently some documents with no .coref layer *)
      mret tt
  | inr _ =>
      content ← lift (open filename);
      buffer ← coref_loop EmptyString (Py.lines content);
      if decide (0 < String.length buffer)%nat then
        e ← lift (Entity_fromTest buffer);
        entities_append e
      else mret tt
  end.

(** *** loadText *)

Definition loadText (filename : string) : M unit :=
  content ← lift (open filename);
  assign (set_text (Py.join EmptyString (Py.lines content))).

(** *** __init__ *)

(** The five load stages, in the order of the constructor. *)
Definition stages (full_name : string) : list (M unit) :=
  [ loadTokens (full_name +:+ ".tokens");
    loadSpans (full_name +:+ ".spans");
    loadMentions (full_name +:+ ".objects");
    loadCoreference (full_name +:+ ".coref");
    loadText (full_name +:+ ".txt") ].

(** The statements of a block, one after the other. *)
Fixpoint block (l : list (M unit)) : M unit :=
  match l with
  | [] => mret tt
  | m :: rest => m;; block rest
  end.

(** The body of the [try]. *)
Definition load (name path : string) : M unit :=
  let full_name := Py.path_join path name in
  block (stages full_name);;
  assign (set_name name).

(** What a call leaves: the object, the lines printed, and the exception
    that reaches the caller, if any. *)
Record outcome := mkOutcome {
  self : Standard; printed : list string; propagated : option exn }.

(** [try: body except Exception as e: print(...); print(e)] *)
Definition try_except_Exception (body : M unit) (name : string) (s : Standard) : outcome :=
  match body s with
  | (s', inr _) => mkOutcome s' [] None
  | (s', inl e) =>
      if issubclass (exn_cls e) Exception
      then mkOutcome s' ["Failed to load the standard of " +:+ name +:+ ":"; exn_msg e] None
      else mkOutcome s' [] (Some e)
  end.

Definition __init__ (name path : string) : outcome :=
  try_except_Exception (load name path) name new_object.

End Standard.

(** ** Token sets *)

Module TokenSet.
(** Modelled from the spec: the class TokenSet of dialent.objects, which is
    not part of this module.  A token set groups the set of tokens covered
    by one mention, is tagged with the mention's normalised type, carries a
    mark per token and an optional parent, the token set of an enclosing
    organization. *)
Record t {Mark : Type} := mk {
  tokens : gset addr; tag : string; marks : gmap addr Mark; parent : option addr }.
Arguments t : clear implicits.

(** Modelled from the spec: the constructor of TokenSet, from the list of
    the tokens of a mention and the tag; no mark and no parent yet. *)
Definition init {Mark} (token_list : list addr) (tag : string) : t Mark :=
  mk Mark (list_to_set token_list) tag ∅ None.

(** Modelled from the spec: TokenSet.setMark attaches the mark to the token
    within the set; a later mark for the same token replaces the earlier. *)
Definition setMark {Mark} (token : addr) (mark : Mark) (ts : t Mark) : t Mark :=
  mk Mark (tokens ts) (tag ts) (<[token := mark]> (marks ts)) (parent ts).

Definition set_parent {Mark} (p : addr) (ts : t Mark) : t Mark :=
  mk Mark (tokens ts) (tag ts) (marks ts) (Some p).

(** Modelled from the spec: A is nested in B iff every token of A lies
    within the tokens of B. *)
Definition nested {Mark} (store : list (t Mark)) (a b : addr) : Prop :=
  match store !! a, store !! b with
  | Some x, Some y => tokens x ⊆ tokens y
  | _, _ => False
  end.

#[global] Instance nested_dec {Mark} (store : list (t Mark)) a b : Decision (nested store a b).
Proof. unfold nested. destruct (store !! a), (store !! b); apply _. Defined.

(** Modelled from the spec: TokenSet.findParents checks the token set at
    [self] against every other token set of the list and, where its tokens
    are enclosed by the other's, records the other as its parent.  The spec
    leaves open which one stays recorded when several enclose it; here each
    one found is assigned in turn. *)
Definition findParents {Mark} (self : addr) (all_token_sets : list addr)
    (store : list (t Mark)) : list (t Mark) :=
  foldl (λ st other,
           if decide (other ≠ self ∧ nested st self other)
           then alter (set_parent other) self st
           else st)
        store all_token_sets.
End TokenSet.

Section TokenSets.
Context `{Config, Objects}.

(** [set(['org', 'per', 'loc'])], with 'locorg' added when it is allowed *)
Definition allowed_tags (is_locorg_allowed : bool) : gset string :=
  {[ "org"; "per"; "loc" ]} ∪ (if is_locorg_allowed then {[ "locorg" ]} else ∅).

(** [for token in span.tokens]: look the mark up and set it. *)
Fixpoint mark_tokens (span_tag : string) (toks : list addr) (ts : TokenSet.t Mark)
    : result (TokenSet.t Mark) :=
  match toks with
  | [] => mret ts
  | token :: rest =>
      mark ← getMark (TokenSet.tag ts) span_tag;
      mark_tokens span_tag rest (TokenSet.setMark token mark ts)
  end.

(** [for span in mention.spans] *)
Fixpoint mark_spans (l : list Span.t) (ts : TokenSet.t Mark) : result (TokenSet.t Mark) :=
  match l with
  | [] => mret ts
  | span :: rest =>
      ts' ← mark_tokens (Span.tag span) (Span.tokens span) ts;
      mark_spans rest ts'
  end.

(** The dictionary [res], whose lists hold the addresses of token sets, and
    the store of the token sets created so far. *)
Definition token_sets : Type := gmap string (list addr) * list (TokenSet.t Mark).

(** The key under which a mention is filed. *)
Definition mention_key (is_locorg_allowed : bool) (mention : Mention.t) : string :=
  let key := Mention.tag mention in
  if decide (key = "locorg" ∧ is_locorg_allowed = false) then "loc" else key.

(** The body of the loop over the mentions. *)
Definition add_mention (is_locorg_allowed : bool) (st : token_sets) (mention : Mention.t)
    : result token_sets :=
  let key := mention_key is_locorg_allowed mention in
  if decide (key ∈ allowed_tags is_locorg_allowed) then
    ts ← mark_spans (Mention.spans mention)
           (TokenSet.init (mjoin (Span.tokens <$> Mention.spans mention)) key);
    match st.1 !! key with
    | Some l => mret (<[key := l ++ [length st.2]]> st.1, st.2 ++ [ts])
    | None => raise KeyError ("'" +:+ key +:+ "'")
    end
  else raise AssertionError EmptyString.

Fixpoint add_mentions (is_locorg_allowed : bool) (st : token_sets) (l : list Mention.t)
    : result token_sets :=
  match l with
  | [] => mret st
  | mention :: rest =>
      st' ← add_mention is_locorg_allowed st mention;
      add_mentions is_locorg_allowed st' rest
  end.

(** [res[key]] *)
Definition res_get (res : gmap string (list addr)) (key : string) : result (list addr) :=
  match res !! key with
  | Some l => inr l
  | None => raise KeyError ("'" +:+ key +:+ "'")
  end.

(** [all_orgs]: the organizations, and the 'locorg' sets when allowed. *)
Definition all_orgs (is_locorg_allowed : bool) (res : gmap string (list addr))
    : result (list addr) :=
  orgs ← res_get res "org";
  if is_locorg_allowed then (l ← res_get res "locorg"; mret (orgs ++ l)) else mret orgs.

(** [for org in all_orgs: org.findParents(all_orgs)] *)
Definition find_all_parents (orgs : list addr) (store : list (TokenSet.t Mark))
    : list (TokenSet.t Mark) :=
  foldl (λ st org, TokenSet.findParents org orgs st) store orgs.

Definition makeTokenSets (is_locorg_allowed : bool) (s : Standard) : result token_sets :=
  let res : gmap string (list addr) := gset_to_gmap [] (allowed_tags is_locorg_allowed) in
  l ← (getattr "mentions" mentions s).2;
  st ← add_mentions is_locorg_allowed (res, []) l;
  (* find and mark organizations embedded within other organizations *)
  orgs ← all_orgs is_locorg_allowed st.1;
  mret (st.1, find_all_parents orgs st.2).

End TokenSets.


(** ** Terms of the specification *)

Section Specification.
Context `{Config, Objects}.

(** A message cites the line and the file. *)
Definition names_line_and_file (msg : string) (index : nat) (filename : string) : Prop :=
  ∃ a b, msg = a +:+ pretty index +:+ b +:+ filename.

(** The non-empty fields of a section of a span record. *)
Definition fields (section : string) : list string :=
  nonempty_fields (Py.split_go DEFAULT_DELIMITER 0 EmptyString section).

(** The three defects of a span record: no separator; a left section of
    fewer than 6 fields; a right section whose number of fields differs from
    twice the token count the left section declares. *)
Inductive span_defect (line : string) : Prop :=
  | separator_missing :
      Py.occurs SPAN_FILE_SEPARATOR line = false → span_defect line
  | left_too_short l r :
      Py.split line SPAN_FILE_SEPARATOR = Some [l; r] →
      (length (fields l) < 6)%nat → span_defect line
  | right_mismatch l r sp :
      Py.split line SPAN_FILE_SEPARATOR = Some [l; r] →
      Span_init (fields l) = inr sp →
      Z.of_nat (length (fields r)) ≠ 2 * Span.ntokens sp → span_defect line.

(** The resolved tokens of a span are as many as it declares. *)
Definition span_complete (sp : Span.t) : Prop :=
  Z.of_nat (length (Span.tokens sp)) = Span.ntokens sp.

(** The neighbours of the token at an address. *)
Definition prev_of (h : list Token.t) (a : addr) : option addr := h !! a ≫= Token.prev.
Definition next_of (h : list Token.t) (a : addr) : option addr := h !! a ≫= Token.next.

(** The sequence of tokens is in the order of the start offsets. *)
Definition sorted_by_start (h : list Token.t) (toks : list addr) : Prop :=
  ∀ i j a b, (i ≤ j)%nat → toks !! i = Some a → toks !! j = Some b →
             tok_start h a ≤ tok_start h b.

(** The links follow the sequence: the token at a position has the one
    before it as [prev], none at the first position, and the one after it
    as [next], none at the last. *)
Definition chained (h : list Token.t) (toks : list addr) : Prop :=
  ∀ i a, toks !! i = Some a →
         prev_of h a = (if decide (i = 0%nat) then None else toks !! (i - 1)%nat) ∧
         next_of h a = toks !! (i + 1)%nat.

(** Exactly one token of the sequence has no [prev] and exactly one has no
    [next]. *)
Definition chain_ends (h : list Token.t) (toks : list addr) : Prop :=
  length (filter (λ a, prev_of h a = None) toks) = 1%nat ∧
  length (filter (λ a, next_of h a = None) toks) = 1%nat.

(** *** The blocks of a coreference file *)

(** A line with the whitespace at its ends trimmed. *)
Definition trimmed (raw_line : string) : string := Py.strip whitespace raw_line.

(** The lines cut at the blank ones: the blocks that a blank line ends, in
    order (empty where two blank lines follow each other), and the block
    that the end of the file ends.  [cur] holds the lines of the block being
    read. *)
Fixpoint blocks_from (cur : list string) (raw_lines : list string)
    : list (list string) * list string :=
  match raw_lines with
  | [] => ([], cur)
  | raw_line :: rest =>
      if decide (trimmed raw_line = EmptyString)
      then (cur :: (blocks_from [] rest).1, (blocks_from [] rest).2)
      else blocks_from (cur ++ [trimmed raw_line]) rest
  end.

(** The non-empty blocks ended by a blank line. *)
Definition terminated_blocks (raw_lines : list string) : list (list string) :=
  filter (λ b, b ≠ []) (blocks_from [] raw_lines).1.

(** The block left at the end of the file. *)
Definition trailing_block (raw_lines : list string) : list string :=
  (blocks_from [] raw_lines).2.

(** The buffer of a block: its lines, a newline after each. *)
Definition block_buffer (b : list string) : string :=
  foldr (λ l acc, l +:+ Py.nl +:+ acc) EmptyString b.

(** The entities of a file by its blocks: one in standard mode for each
    non-empty block that a blank line ends, then one in test mode for a
    non-empty block at the end of the file. *)
Definition coref_entities (md : gmap Z Mention.t) (sd : gmap Z Span.t)
    (raw_lines : list string) : result (list Entity) :=
  es ← comprehension (λ b, Entity_fromStandard (block_buffer b) md sd)
         (terminated_blocks raw_lines);
  match trailing_block raw_lines with
  | [] => mret es
  | b => e ← Entity_fromTest (block_buffer b); mret (es ++ [e])
  end.

(** *** Token sets of the mentions *)

(** The tokens a mention covers. *)
Definition mention_tokens (m : Mention.t) : gset addr :=
  list_to_set (mjoin (Span.tokens <$> Mention.spans m)).

(** The empty dictionary of makeTokenSets. *)
Definition empty_res (is_locorg_allowed : bool) : gmap string (list addr) :=
  gset_to_gmap [] (allowed_tags is_locorg_allowed).

(** The four tags of the vocabulary that makeTokenSets files. *)
Definition filed_tags : gset string := {[ "org"; "per"; "loc"; "locorg" ]}.

(** The tokens and the tag of each token set of a store. *)
Definition shape (store : list (TokenSet.t Mark)) : list (gset addr * string) :=
  (λ ts, (TokenSet.tokens ts, TokenSet.tag ts)) <$> store.

(** The parent recorded for the token set at an address. *)
Definition parent_of (store : list (TokenSet.t Mark)) (a : addr) : option addr :=
  store !! a ≫= TokenSet.parent.

(** The tokens of the token set at an address. *)
Definition tokens_of (store : list (TokenSet.t Mark)) (a : addr) : gset addr :=
  from_option TokenSet.tokens ∅ (store !! a).

(** *** The fields of the load stages *)

(** The fields that stage [k] of the constructor assigns are set. *)
Definition populated (k : nat) (s : Standard) : Prop :=
  match k with
  | 0 => is_Some (tokens s) ∧ is_Some (_token_dict s)
  | 1 => is_Some (spans s) ∧ is_Some (_span_dict s)
  | 2 => is_Some (mentions s) ∧ is_Some (_mention_dict s)
  | 3 => is_Some (entities s)
  | 4 => is_Some (text s)
  | _ => True
  end%nat.

(** The fields that stage [k] assigns, and for the first stage the tokens
    of the store they refer to, are in [s'] as they are in [s]. *)
Definition agree (k : nat) (s s' : Standard) : Prop :=
  match k with
  | 0 => heap s' = heap s ∧ tokens s' = tokens s ∧ _token_dict s' = _token_dict s
  | 1 => spans s' = spans s ∧ _span_dict s' = _span_dict s
  | 2 => mentions s' = mentions s ∧ _mention_dict s' = _mention_dict s
  | 3 => entities s' = entities s
  | 4 => text s' = text s
  | _ => True
  end%nat.

(** The message the constructor prints before the exception. *)
Definition failed_to_load (name : string) : string :=
  "Failed to load the standard of " +:+ name +:+ ":".

(** *** Invariants used in the proofs *)

(** The dictionary and the store after the loop has filed the mentions
    [ms]: the token set of the i-th mention is the i-th object of the store,
    and the list under a key holds the addresses of the mentions filed
    under it. *)
Definition filed (is_locorg_allowed : bool) (ms : list Mention.t) (st : token_sets)
    : Prop :=
  dom st.1 = allowed_tags is_locorg_allowed ∧
  length st.2 = length ms ∧
  (∀ i m, ms !! i = Some m →
     ∃ ts, st.2 !! i = Some ts ∧
           TokenSet.tag ts = mention_key is_locorg_allowed m ∧
           TokenSet.tokens ts = mention_tokens m ∧
           TokenSet.parent ts = None) ∧
  (∀ key l, st.1 !! key = Some l →
     NoDup l ∧
     ∀ i, i ∈ l ↔ ∃ m, ms !! i = Some m ∧ mention_key is_locorg_allowed m = key).


(** [P] holds after [m] when it held before, whatever the outcome. *)
Definition inv (P : Standard → Prop) {A} (m : M A) : Prop :=
  ∀ s, P s → P (m s).1.

(** Every span the object holds is complete. *)
Definition spans_complete (s : Standard) : Prop :=
  ∀ l, spans s = Some l → Forall span_complete l.

(** The tokens created since the store had [base] objects: the list holds
    their addresses in the order of creation, and none has a neighbour. *)
Definition fresh_tokens (base : nat) (s : Standard) : Prop :=
  ∃ n, tokens s = Some (seq base n) ∧
       length (heap s) = (base + n)%nat ∧
       ∀ a t, (base ≤ a)%nat → heap s !! a = Some t →
              Token.prev t = None ∧ Token.next t = None.

End Specification.

(** ** Terms of the further properties *)

Section Notions.
Context `{Config, Objects}.

(** The rows of a tokens file that hold a token: the ones that are not
    empty. *)
Definition token_rows (content : string) : list (list string) :=
  filter (λ row, row ≠ []) (csv_reader DEFAULT_DELIMITER QUOTECHAR content).1.

(** Since the store had [base] objects the loop has created [n] tokens, and
    the list holds their addresses in the order of creation. *)
Definition created (base n : nat) (s : Standard) : Prop :=
  tokens s = Some (seq base n) ∧ length (heap s) = (base + n)%nat.

(** The message of loadTokens for a row of the wrong length. *)
Definition wrong_length (filename : string) (index : nat) : string :=
  "Wrong length in line " +:+ pretty index +:+ " of file " +:+ filename.

(** A span as loadSpans leaves it, [d0] being [_token_dict]: its text holds
    no newline, and each of its tokens is one the dictionary holds. *)
Definition span_sound (d0 : option (gmap Z addr)) (sp : Span.t) : Prop :=
  Py.occurs Py.nl (Span.text sp) = false ∧
  ∀ a, a ∈ Span.tokens sp → ∃ d z, d0 = Some d ∧ d !! z = Some a.

(** The dictionary is [d0] and every span of the object is sound. *)
Definition spans_sound (d0 : option (gmap Z addr)) (s : Standard) : Prop :=
  _token_dict s = d0 ∧ ∀ l, spans s = Some l → Forall (span_sound d0) l.

(** A row of the objects file without its comment: the fields before the
    first comment separator. *)
Definition uncommented (row : list string) : list string :=
  if decide (COMMENT_SEPARATOR ∈ row)
  then take (list_index COMMENT_SEPARATOR row) row
  else row.

(** The rows of an objects file that describe a mention. *)
Definition mention_rows (content : string) : list (list string) :=
  filter (λ row, row ≠ []) (uncommented <$> (csv_reader " " QUOTECHAR content).1).

(** The messages of loadMentions. *)
Definition missing_spans (filename : string) (index : nat) : string :=
  "Missing spans in object description: line " +:+ pretty index +:+
  " of file " +:+ filename.

(** The mention that loadMentions makes of a row, [d] being [_span_dict]. *)
Definition mention_of_row (d : gmap Z Span.t) (row : list string) (m : Mention.t) : Prop :=
  ∃ i ids, int (nth 0 row EmptyString) = Some i ∧
           comprehension py_int (drop 2 row) = inr ids ∧
           Mention_init i (nth 1 row EmptyString) ids d = inr m.

(** Stage [k] apart, the fields of the object [s'] are those of [s]: the
    name, and the fields of every other stage. *)
Definition keeps (k : nat) (s s' : Standard) : Prop :=
  name s' = name s ∧ ∀ j, j ≠ k → agree j s s'.

(** The message of the AttributeError for an attribute never assigned. *)
Definition no_attribute (attr : string) : string :=
  "'Standard' object has no attribute '" +:+ attr +:+ "'".

(** The addresses of the token sets of the mentions filed under [key], the
    first mention having the address [base]: one per mention with that key,
    in the order of the mentions. *)
Fixpoint filed_under (is_locorg_allowed : bool) (key : string) (base : nat)
    (ms : list Mention.t) : list addr :=
  match ms with
  | [] => []
  | m :: rest =>
      (if decide (mention_key is_locorg_allowed m = key) then [base] else []) ++
      filed_under is_locorg_allowed key (S base) rest
  end.

End Notions.
(** ** A sample configuration and sample documents *)

Module Sample.

Definition config : Config := {|
  DEFAULT_DELIMITER := " ";
  QUOTECHAR := Py.dquote;
  TOKEN_LINE_LENGTH := 4;
  SPAN_FILE_SEPARATOR := "#";
  COMMENT_SEPARATOR := "#" |}.

(** Decimal literals with an optional minus sign. *)
Fixpoint digits (acc : Z) (s : string) : option Z :=
  match s with
  | EmptyString => Some acc
  | String c s' =>
      match Ascii.is_nat c with
      | Some d => digits (10 * acc + Z.of_nat d) s'
      | None => None
      end
  end.

Definition decimal (s : string) : option Z :=
  match s with
  | EmptyString => None
  | String "-" (String c s') => Z.opp <$> digits 0 (String c s')
  | _ => digits 0 s
  end.

(** The message of [int] for a text that is no literal, as Python gives it
    for a short text of letters, digits and spaces, which [repr] puts in
    single quotes as it is. *)
Definition invalid_literal (s : string) : string :=
  "invalid literal for int() with base 10: '" +:+ s +:+ "'".

(** A reader without quoting: a row per line, split at the delimiter. *)
Definition plain_reader (delimiter quotechar content : string)
    : list (list string) * option exn :=
  ((λ line,
      match Py.remove_char "010"%char line with
      | EmptyString => []
      | l => Py.split_go delimiter 0 EmptyString l
      end) <$> Py.lines content, None).

Definition parse_token (line : list string) : result (Z * Z * Z * string) :=
  match line with
  | [i; st; len; txt] =>
      match decimal i, decimal st, decimal len with
      | Some i, Some st, Some len => inr (i, st, len, txt)
      | _, _, _ => raise ValueError "invalid literal for int() with base 10"
      end
  | _ => raise TypeError "__init__() takes 5 positional arguments"
  end.

Definition make_span (fields : list string) : result Span.t :=
  match fields with
  | [i; tg; st; nc; ts; nt] =>
      match decimal i, decimal st, decimal nc, decimal ts, decimal nt with
      | Some i, Some st, Some nc, Some ts, Some nt =>
          inr (Span.mk i tg st nc ts nt [] EmptyString)
      | _, _, _, _, _ => raise ValueError "invalid literal for int() with base 10"
      end
  | _ => raise TypeError "__init__() takes 7 positional arguments"
  end.

Definition make_mention (i : Z) (tg : string) (span_ids : list Z) (d : gmap Z Span.t)
    : result Mention.t :=
  l ← comprehension
        (λ x, match d !! x with
              | Some sp => inr sp
              | None => raise KeyError (pretty x)
              end) span_ids;
  mret (Mention.mk i tg l).

(** Entities that record how they were built. *)
Definition objects : Objects := {|
  Entity := bool * string;
  Mark := string;
  csv_reader := plain_reader;
  int := decimal;
  int_error := invalid_literal;
  Token_parse := parse_token;
  Span_init := make_span;
  Mention_init := make_mention;
  Entity_fromStandard := λ buffer _ _, inr (true, buffer);
  Entity_fromTest := λ buffer, inr (false, buffer);
  getMark := λ set_tag span_tag, inr (set_tag +:+ "/" +:+ span_tag) |}.

Definition line (s : string) : string := s +:+ Py.nl.

(** The document "Bank of Rossiya", its tokens out of order in the file. *)
Definition bank : gmap string string :=
  {[ "bank.tokens" := line "2 5 2 of" +:+ line "1 0 4 Bank" +:+ line "3 8 7 Rossiya";
     "bank.spans" := line "10 org_name 0 15 1 3 # 1 2 3 Bank of Rossiya";
     "bank.objects" := line "1 org 10 # Bank of Rossiya";
     "bank.txt" := line "Bank of Rossiya" ]}.

(** The same document with a blank line between two span records. *)
Definition blank_line : gmap string string :=
  <[ "bank.spans" := line "10 org_name 0 15 1 3 # 1 2 3 Bank of Rossiya" +:+ Py.nl +:+
                     line "11 org_name 8 7 3 1 # 3 Rossiya" ]> bank.

(** The same document with a span record that declares 3 tokens and lists 2. *)
Definition short_span : gmap string string :=
  <[ "bank.spans" := line "10 org_name 0 15 1 3 # 1 2 Bank of Rossiya" ]> bank.

(** The same document without its spans file. *)
Definition no_spans : gmap string string := delete "bank.spans" bank.

(** A document whose tokens file is empty. *)
Definition no_tokens : gmap string string := {[ "empty.tokens" := EmptyString ]}.

(** A coreference file: a block that a blank line ends, then a block that
    the end of the file ends. *)
Definition chains : gmap string string :=
  {[ "bank.coref" := line "1 2" +:+ line "3" +:+ Py.nl +:+ line "4" ]}.

(** An object that has loaded its mentions, none of them. *)
Definition no_mentions : @Standard objects :=
  set__mention_dict ∅ (set__span_dict ∅ (set_mentions [] (set_spans [] new_object))).

(** Spans over "Bank of Rossiya", over "Rossiya" and over "Bank". *)
Definition three_spans : string :=
  line "10 org_name 0 15 1 3 # 1 2 3 Bank of Rossiya" +:+
  line "11 org_name 8 7 3 1 # 3 Rossiya" +:+
  line "12 name 0 4 1 1 # 1 Bank".

(** An organization within an organization, and a person. *)
Definition nested : gmap string string :=
  <[ "bank.spans" := three_spans ]>
  (<[ "bank.objects" := line "1 org 10" +:+ line "2 org 11" +:+ line "3 per 12" ]> bank).

(** Two organizations apart. *)
Definition apart : gmap string string :=
  <[ "bank.spans" := three_spans ]>
  (<[ "bank.objects" := line "1 org 11" +:+ line "2 org 12" ]> bank).

(** An organization and a location that acts as one. *)
Definition acting : gmap string string :=
  <[ "bank.spans" := three_spans ]>
  (<[ "bank.objects" := line "1 org 10" +:+ line "2 locorg 11" ]> bank).

(** An organization and a mention of another kind. *)
Definition other : gmap string string :=
  <[ "bank.spans" := three_spans ]>
  (<[ "bank.objects" := line "1 org 10" +:+ line "2 other 11" ]> bank).

(** Five organizations: "Bank of Rossiya", "Bank of", "Bank", "Rossiya" and
    one whose span, the last line of the file, has no token. *)
Definition five_spans : string :=
  line "10 org_name 0 15 1 3 # 1 2 3 Bank of Rossiya" +:+
  line "13 org_name 0 7 1 2 # 1 2 Bank of" +:+
  line "12 org_name 0 4 1 1 # 1 Bank" +:+
  line "11 org_name 8 7 3 1 # 3 Rossiya" +:+
  "14 org_name 15 0 4 0 #".

Definition enclosed : gmap string string :=
  <[ "bank.spans" := five_spans ]>
  (<[ "bank.objects" := line "1 org 10" +:+ line "2 org 13" +:+ line "3 org 12" +:+
                        line "4 org 11" +:+ line "5 org 14" ]> bank).

(** The object the constructor leaves for the document "bank" of [fs]. *)
Definition loaded (fs : gmap string string) : @Standard objects :=
  self (@__init__ config objects fs "bank" EmptyString).

(** The token sets of the document "bank" of [fs]; none when makeTokenSets
    raises. *)
Definition token_sets_of (is_locorg_allowed : bool) (fs : gmap string string)
    : @token_sets objects :=
  match makeTokenSets is_locorg_allowed (loaded fs) with
  | inr st => st
  | inl _ => (∅, [])
  end.

End Sample.


(** ** Further sample documents *)

Module Cases.

(** A tokens file with an empty row and then a row of three fields. *)
Definition short_row : gmap string string :=
  {[ "bank.tokens" := Sample.line "1 0 4 Bank" +:+ Py.nl +:+ Sample.line "2 5 of" ]}.

(** Two tokens with the same start offset, the one with the greater id
    first in the file. *)
Definition ties : gmap string string :=
  {[ "bank.tokens" := Sample.line "2 0 2 of" +:+ Sample.line "1 0 4 Bank" ]}.

(** The document "Bank of Rossiya" with a span record that lists the id of
    a token the document has not. *)
Definition unknown_token : gmap string string :=
  <[ "bank.spans" := Sample.line "10 org_name 0 15 1 3 # 1 9 3 Bank of Rossiya" ]>
  Sample.bank.

(** The same document with a second object that has no span. *)
Definition no_span_ids : gmap string string :=
  <[ "bank.objects" := Sample.line "1 org 10" +:+ Sample.line "2 org # Rossiya" ]>
  Sample.bank.


(** A mention with two spans over the token "Bank", tagged differently. *)
Definition two_spans : gmap string string :=
  <[ "bank.spans" := Sample.line "10 org_name 0 15 1 3 # 1 2 3 Bank of Rossiya" +:+
                     Sample.line "12 name 0 4 1 1 # 1 Bank" ]>
  (<[ "bank.objects" := Sample.line "1 org 10 12" ]> Sample.bank).

(** The object after the tokens of the document "bank" of [fs] have
    loaded, and after its spans have. *)
Definition with_tokens (fs : gmap string string) : @Standard Sample.objects :=
  (@loadTokens Sample.config Sample.objects fs "bank.tokens" new_object).1.
Definition with_spans (fs : gmap string string) : @Standard Sample.objects :=
  (@loadSpans Sample.config Sample.objects fs "bank.spans" (with_tokens fs)).1.

End Cases.
(** * Properties *)

Section Proofs.
Context `{Config, Objects}.
Variable fs : gmap string string.

(** ** Running methods *)

Lemma bind_run {A B} (m : M A) (k : A → M B) (s : Standard) :
  (m ≫= k) s = match m s with (s', inl e) => (s', inl e) | (s', inr x) => k x s' end.
Proof. reflexivity. Qed.

Lemma bind_ok {A B} (m : M A) (k : A → M B) s s' x :
  m s = (s', inr x) → (m ≫= k) s = k x s'.
Proof. intros E. rewrite bind_run, E. reflexivity. Qed.

Lemma bind_raise {A B} (m : M A) (k : A → M B) s s' e :
  m s = (s', inl e) → (m ≫= k) s = (s', inl e).
Proof. intros E. rewrite bind_run, E. reflexivity. Qed.

Lemma for_enumerate_app {A} (body : nat → A → M unit) l1 l2 i s s1 :
  for_enumerate body i l1 s = (s1, inr tt) →
  for_enumerate body i (l1 ++ l2) s = for_enumerate body (i + length l1) l2 s1.
Proof.
  revert i s. induction l1 as [|x l1 IH]; intros i s E; simpl in *.
  - inversion E. by rewrite Nat.add_0_r.
  - rewrite bind_run in *. destruct (body i x s) as [s2 [e|[]]]; [done|].
    rewrite (IH _ _ E). f_equal. lia.
Qed.

(** A loop raises what its body raises at the first line that fails. *)
Lemma for_enumerate_raise {A} (body : nat → A → M unit) pre x post s s1 s2 e :
  for_enumerate body 0 pre s = (s1, inr tt) →
  body (length pre) x s1 = (s2, inl e) →
  for_enumerate body 0 (pre ++ x :: post) s = (s2, inl e).
Proof.
  intros E1 E2. rewrite (for_enumerate_app _ _ _ _ _ _ E1). simpl.
  by rewrite bind_run, E2.
Qed.

(** ** Invariants of methods *)

Lemma inv_ret P {A} (x : A) : inv P (mret x).
Proof. by intros s. Qed.

Lemma inv_lift P {A} (r : result A) : inv P (lift r).
Proof. by intros s. Qed.

Lemma inv_getattr P {A} attr (f : Standard → option A) : inv P (getattr attr f).
Proof. intros s Hs. unfold getattr. by destruct (f s). Qed.

Lemma inv_assign (P : Standard → Prop) g : (∀ s, P s → P (g s)) → inv P (assign g).
Proof. intros Hg s Hs. by apply Hg. Qed.

Lemma inv_bind P {A B} (m : M A) (k : A → M B) :
  inv P m → (∀ x, inv P (k x)) → inv P (m ≫= k).
Proof.
  intros Hm Hk s Hs. rewrite bind_run. specialize (Hm s Hs).
  destruct (m s) as [s' [e|x]]; [done|]. by apply Hk.
Qed.

Lemma inv_for_enumerate P {A} (body : nat → A → M unit) i l :
  (∀ i x, inv P (body i x)) → inv P (for_enumerate body i l).
Proof.
  intros Hb. revert i. induction l as [|x l IH]; intros i; simpl.
  - apply inv_ret.
  - apply inv_bind; [apply Hb|]. intros _. apply IH.
Qed.

Lemma inv_for_list P {A B} (f : A → M B) l :
  (∀ x, inv P (f x)) → inv P (for_list f l).
Proof.
  intros Hf. induction l as [|x l IH]; simpl.
  - apply inv_ret.
  - apply inv_bind; [apply Hf|]. intros y.
    apply inv_bind; [apply IH|]. intros ys. apply inv_ret.
Qed.

Lemma inv_block P (l : list (M unit)) : Forall (inv P) l → inv P (block l).
Proof.
  induction 1 as [|m l Hm _ IH]; simpl.
  - apply inv_ret.
  - apply inv_bind; [done|]. by intros _.
Qed.


(** ** Strings *)

Lemma append_cons c (a b : string) : String c a +:+ b = String c (a +:+ b).
Proof. reflexivity. Qed.

Lemma append_nil_l (s : string) : EmptyString +:+ s = s.
Proof. reflexivity. Qed.

Lemma append_nil_r (s : string) : s +:+ EmptyString = s.
Proof. induction s as [|c s IH]; [done|]. by rewrite append_cons, IH. Qed.

Lemma append_assoc (a b c : string) : (a +:+ b) +:+ c = a +:+ b +:+ c.
Proof. induction a as [|x a IH]; [done|]. by rewrite !append_cons, IH. Qed.

Lemma append_nonempty_r (a b : string) : b ≠ EmptyString → a +:+ b ≠ EmptyString.
Proof. intros Hb. destruct a; [done|]. by rewrite append_cons. Qed.

Lemma length_zero (s : string) : String.length s = 0%nat ↔ s = EmptyString.
Proof. destruct s; simpl; split; intros; done. Qed.

(** Iterating a file never yields an empty line. *)
Lemma lines_go_nonempty s : ∀ cur line, line ∈ Py.lines_go cur s → line ≠ EmptyString.
Proof.
  induction s as [|c s IH]; intros cur line; simpl.
  - destruct cur; [by intros ?%elem_of_nil|].
    by intros ->%list_elem_of_singleton.
  - case_decide.
    + intros [->|Hin]%elem_of_cons; [by apply append_nonempty_r|by eapply IH].
    + apply IH.
Qed.

Lemma lines_nonempty content line :
  line ∈ Py.lines content → String.length line ≠ 0%nat.
Proof. intros Hin. rewrite length_zero. by eapply lines_go_nonempty. Qed.

(** Where the separator does not occur, [split] gives the string back. *)
Lemma split_go_absent sep s : ∀ cur,
  Py.occurs sep s = false → Py.split_go sep 0 cur s = [cur +:+ s].
Proof.
  induction s as [|c s IH]; intros cur; simpl.
  - by rewrite append_nil_r.
  - intros [Hs Ho]%orb_false_iff. simpl in Hs. rewrite Hs, IH by done.
    by rewrite append_assoc.
Qed.

Lemma split_absent s sep :
  sep ≠ EmptyString → Py.occurs sep s = false → Py.split s sep = Some [s].
Proof.
  intros Hsep Ho. unfold Py.split. destruct sep; [done|]. by rewrite split_go_absent.
Qed.

Lemma occurs_nl sep : sep ≠ EmptyString → sep ≠ Py.nl → Py.occurs sep Py.nl = false.
Proof.
  intros H1 H2. destruct sep as [|a sep]; [done|]. simpl.
  case_decide; [|done]. subst. destruct sep; [done|]. by destruct sep.
Qed.

(** ** loadCoreference without a file *)

(** C7: when the coreference file cannot be opened, loadCoreference leaves
    [entities] the empty list, changes nothing else and raises nothing. *)
Theorem loadCoreference_absent (filename : string) (s : Standard) :
  fs !! filename = None →
  loadCoreference fs filename s = (set_entities [] s, inr tt).
Proof.
  intros Hf. unfold loadCoreference, open. rewrite Hf. reflexivity.
Qed.

(** ** loadSpans *)

Lemma lookup_token_state x s : (lookup_token x s).1 = s.
Proof.
  unfold lookup_token. rewrite bind_run. unfold getattr.
  destruct (_token_dict s) as [d|]; [|done]. by destruct (d !! x).
Qed.

Lemma for_list_lookup_token_state ids s : (for_list lookup_token ids s).1 = s.
Proof.
  symmetry. apply (inv_for_list (eq s) lookup_token ids); [|done].
  intros x s' <-. by rewrite lookup_token_state.
Qed.

Lemma for_list_length {A B} (f : A → M B) l : ∀ s s' ys,
  for_list f l s = (s', inr ys) → length ys = length l.
Proof.
  induction l as [|x l IH]; intros s s' ys; simpl.
  - by intros [= _ <-].
  - rewrite bind_run. destruct (f x s) as [s1 [e|y]]; [done|].
    rewrite bind_run. destruct (for_list f l s1) as [s2 [e|ys']] eqn:E; [done|].
    intros [= _ <-]. simpl. f_equal. by eapply IH.
Qed.

Lemma comprehension_length {A B} (f : A → result B) l : ∀ ys,
  comprehension f l = inr ys → length ys = length l.
Proof.
  induction l as [|x l IH]; intros ys; simpl.
  - by intros [= <-].
  - destruct (f x) as [e|y]; [done|]. simpl.
    destruct (comprehension f l) as [e|ys']; [done|]. simpl.
    intros [= <-]. simpl. f_equal. by apply IH.
Qed.

Lemma span_line_no_separator filename index line s :
  SPAN_FILE_SEPARATOR ≠ EmptyString →
  line ≠ EmptyString →
  Py.occurs SPAN_FILE_SEPARATOR line = false →
  span_line filename index line s
  = (s, inl (Raise Exception (missing_separator filename index))).
Proof.
  intros Hsep Hline Ho. unfold span_line.
  case_decide as Hlen; [by apply length_zero in Hlen|].
  unfold py_split. rewrite split_absent by done. reflexivity.
Qed.

Lemma loadSpans_raises filename content pre line post s s1 s2 e :
  fs !! filename = Some content →
  Py.lines content = pre ++ line :: post →
  for_enumerate (span_line filename) 0 pre (set_spans [] s) = (s1, inr tt) →
  span_line filename (length pre) line s1 = (s2, inl e) →
  loadSpans fs filename s = (s2, inl e).
Proof.
  intros Hf Hl Hpre Hline. unfold loadSpans.
  rewrite bind_run. cbn [assign]. rewrite bind_run. unfold lift, open. rewrite Hf.
  rewrite bind_run, Hl.
  by rewrite (for_enumerate_raise _ _ _ _ _ _ _ _ Hpre Hline).
Qed.

(** C9: no line of a spans file is empty, so the body of the loop never
    takes the skip (it never returns with the object unchanged); on a blank
    line the body raises the missing-separator error, and so does loadSpans
    when the lines before it load. *)
Theorem loadSpans_blank_line :
  SPAN_FILE_SEPARATOR ≠ EmptyString →
  SPAN_FILE_SEPARATOR ≠ Py.nl →
  (∀ content line, line ∈ Py.lines content → String.length line ≠ 0%nat) ∧
  (∀ content line filename index s,
     line ∈ Py.lines content →
     span_line filename index line s ≠ (s, inr tt)) ∧
  (∀ filename index s,
     span_line filename index Py.nl s
     = (s, inl (Raise Exception (missing_separator filename index)))) ∧
  (∀ filename content pre post s s1,
     fs !! filename = Some content →
     Py.lines content = pre ++ Py.nl :: post →
     for_enumerate (span_line filename) 0 pre (set_spans [] s) = (s1, inr tt) →
     loadSpans fs filename s
     = (s1, inl (Raise Exception (missing_separator filename (length pre))))).
Proof.
  intros Hsep Hnl.
  assert (Hblank : ∀ filename index s, span_line filename index Py.nl s
     = (s, inl (Raise Exception (missing_separator filename index)))).
  { intros. apply span_line_no_separator; [done|done|by apply occurs_nl]. }
  split; [apply lines_nonempty|]. split; [|split; [done|]].
  - intros content line filename index s Hin%lines_nonempty.
    unfold span_line. case_decide; [done|].
    rewrite bind_run. unfold lift. destruct (py_split _ _) as [e|parts]; [done|].
    destruct parts as [|l [|r [|]]]; try done.
    rewrite bind_run.
    destruct (nonempty_fields <$> py_split l _) as [e|fl]; [done|]. simpl.
    case_decide; [done|]. rewrite bind_run.
    destruct (Span_init fl) as [e|sp]; [done|]. simpl. rewrite bind_run.
    destruct (nonempty_fields <$> py_split r _) as [e|fr]; [done|]. simpl.
    case_decide; [done|]. rewrite bind_run.
    destruct (comprehension _ _) as [e|ids]; [done|]. simpl. rewrite bind_run.
    destruct (for_list lookup_token ids s) as [s' [e|toks]] eqn:Hfl; [done|].
    pose proof (for_list_lookup_token_state ids s) as Hst.
    rewrite Hfl in Hst. simpl in Hst. subst s'.
    unfold spans_append. rewrite bind_run. unfold getattr.
    destruct (spans s) as [sl|] eqn:Hs'; [|done]. cbn [assign].
    intros [= Heq]. apply (f_equal spans) in Heq. simpl in Heq.
    rewrite Hs' in Heq. injection Heq as Heq.
    apply (f_equal length) in Heq. rewrite length_app in Heq. simpl in Heq. lia.
  - intros filename content pre post s s1 Hf Hl Hpre.
    eapply loadSpans_raises; eauto.
Qed.

Lemma py_split_fields section :
  DEFAULT_DELIMITER ≠ EmptyString →
  nonempty_fields <$> py_split section DEFAULT_DELIMITER = inr (fields section).
Proof.
  intros Hd. unfold py_split, Py.split, fields. by destruct DEFAULT_DELIMITER.
Qed.

Lemma py_split_some s sep l : Py.split s sep = Some l → py_split s sep = inr l.
Proof. intros E. unfold py_split. by rewrite E. Qed.

Lemma missing_separator_names filename index :
  names_line_and_file (missing_separator filename index) index filename.
Proof.
  exists ("Expected symbol " +:+ Py.dquote +:+ SPAN_FILE_SEPARATOR +:+ Py.dquote +:+
          " missing in line "), " of file ".
  unfold missing_separator. by rewrite !append_assoc.
Qed.

Lemma missing_left_names filename index :
  names_line_and_file (missing_left filename index) index filename.
Proof. by exists "Missing left parts in line ", " of file ". Qed.

Lemma missing_right_names filename index :
  names_line_and_file (missing_right filename index) index filename.
Proof. by exists "Missing right parts in line ", " of file ". Qed.

(** A defective record makes the body raise, the object unchanged. *)
Lemma span_line_defect filename index line s :
  SPAN_FILE_SEPARATOR ≠ EmptyString →
  DEFAULT_DELIMITER ≠ EmptyString →
  line ≠ EmptyString →
  span_defect line →
  ∃ msg, span_line filename index line s = (s, inl (Raise Exception msg)) ∧
         names_line_and_file msg index filename.
Proof.
  intros Hsep Hd Hline Hdef.
  destruct Hdef as [Ho|l r Hs Hlen|l r sp Hs Hsp Hlen].
  - eexists. split; [by apply span_line_no_separator|apply missing_separator_names].
  - exists (missing_left filename index). split; [|apply missing_left_names].
    unfold span_line. case_decide as Hz; [by apply length_zero in Hz|].
    rewrite (py_split_some _ _ _ Hs). rewrite bind_run. cbn [lift].
    rewrite (py_split_fields l) by done. rewrite bind_run. cbn [lift]. by case_decide.
  - unfold span_line. case_decide as Hz; [by apply length_zero in Hz|].
    rewrite (py_split_some _ _ _ Hs). rewrite bind_run. cbn [lift].
    rewrite (py_split_fields l), (py_split_fields r) by done.
    rewrite bind_run. cbn [lift].
    case_decide.
    { eexists. split; [done|apply missing_left_names]. }
    rewrite bind_run. cbn [lift]. rewrite Hsp. rewrite bind_run. cbn [lift].
    case_decide; [|done].
    eexists. split; [done|apply missing_right_names].
Qed.

Lemma py_take_length {A} (n : Z) (l : list A) :
  Z.of_nat (length l) = 2 * n → Z.of_nat (length (Py.take n l)) = n.
Proof.
  intros Hl. unfold Py.take.
  destruct (Z.leb_spec 0 n); [|lia].
  rewrite length_firstn. lia.
Qed.

Lemma span_line_complete filename index line :
  inv spans_complete (span_line filename index line).
Proof.
  intros s Hs. unfold span_line. case_decide; [done|].
  rewrite bind_run. unfold lift. destruct (py_split _ _) as [e|parts]; [done|].
  destruct parts as [|l [|r [|]]]; try done.
  rewrite bind_run.
  destruct (nonempty_fields <$> py_split l _) as [e|fl]; [done|].
  case_decide; [done|]. rewrite bind_run.
  destruct (Span_init fl) as [e|sp]; [done|]. rewrite bind_run.
  destruct (nonempty_fields <$> py_split r _) as [e|fr]; [done|].
  case_decide as Hlen; [done|]. rewrite bind_run.
  destruct (comprehension _ _) as [e|ids] eqn:Hids; [done|]. rewrite bind_run.
  destruct (for_list lookup_token ids s) as [s' [e|toks]] eqn:Hfl.
  { pose proof (for_list_lookup_token_state ids s) as Hst.
    rewrite Hfl in Hst. simpl in Hst. by subst s'. }
  pose proof (for_list_lookup_token_state ids s) as Hst.
  rewrite Hfl in Hst. simpl in Hst. subst s'.
  unfold spans_append. rewrite bind_run. unfold getattr.
  destruct (spans s) as [sl|] eqn:Hsl; [|done]. cbn [assign fst].
  intros l' [= <-]. apply Forall_app. split; [by apply Hs|].
  apply Forall_singleton. unfold span_complete. simpl.
  apply for_list_length in Hfl. apply comprehension_length in Hids.
  rewrite Hfl, Hids. by apply py_take_length.
Qed.

Lemma loadSpans_complete filename s : spans_complete (loadSpans fs filename s).1.
Proof.
  unfold loadSpans. rewrite bind_run. cbn [assign].
  match goal with
  | |- spans_complete (?m ?s0).1 =>
      cut (inv spans_complete m);
      [intros Hi; apply Hi; intros l [= <-]; constructor|]
  end.
  apply inv_bind; [apply inv_lift|]. intros content.
  apply inv_bind.
  { apply inv_for_enumerate. intros. apply span_line_complete. }
  intros _. apply inv_bind; [apply inv_getattr|]. intros l.
  apply inv_assign. done.
Qed.

(** C3: a span record without the separator, with fewer than 6 left fields,
    or with a right section that has not twice the declared number of
    fields, makes loadSpans raise an Exception whose message cites the line
    and the file; and every span loadSpans leaves in [spans] has as many
    resolved tokens as it declares. *)
Theorem loadSpans_validation :
  SPAN_FILE_SEPARATOR ≠ EmptyString →
  DEFAULT_DELIMITER ≠ EmptyString →
  (∀ filename content pre line post s s1,
     fs !! filename = Some content →
     Py.lines content = pre ++ line :: post →
     for_enumerate (span_line filename) 0 pre (set_spans [] s) = (s1, inr tt) →
     span_defect line →
     ∃ msg, loadSpans fs filename s = (s1, inl (Raise Exception msg)) ∧
            names_line_and_file msg (length pre) filename) ∧
  (∀ filename s l,
     spans (loadSpans fs filename s).1 = Some l → Forall span_complete l).
Proof.
  intros Hsep Hd. split.
  - intros filename content pre line post s s1 Hf Hl Hpre Hdef.
    assert (line ≠ EmptyString) as Hline.
    { eapply lines_go_nonempty. unfold Py.lines in Hl. rewrite Hl. set_solver. }
    destruct (span_line_defect filename (length pre) line s1 Hsep Hd Hline Hdef)
      as (msg & Hrun & Hmsg).
    exists msg. split; [|done]. by eapply loadSpans_raises.
  - intros filename s l. apply loadSpans_complete.
Qed.

(** ** loadTokens *)

(** *** The sort *)

Lemma insert_by_perm {A} (key : A → Z) x l : Py.insert_by key x l ≡ₚ x :: l.
Proof.
  induction l as [|y l IH]; simpl; [done|].
  destruct (key x <=? key y); [done|]. rewrite IH. apply Permutation_swap.
Qed.

Lemma sorted_perm {A} (key : A → Z) l : Py.sorted key l ≡ₚ l.
Proof.
  induction l as [|x l IH]; simpl; [done|].
  unfold Py.sorted in *. by rewrite insert_by_perm, IH.
Qed.

Lemma insert_by_sorted {A} (key : A → Z) x l :
  StronglySorted (λ a b, key a ≤ key b) l →
  StronglySorted (λ a b, key a ≤ key b) (Py.insert_by key x l).
Proof.
  induction 1 as [|y l Hl IH Hy]; simpl.
  - by repeat constructor.
  - destruct (Z.leb_spec (key x) (key y)).
    + constructor; [by constructor|]. constructor; [done|].
      eapply Forall_impl; [exact Hy|]. simpl. intros; lia.
    + constructor; [done|]. rewrite insert_by_perm. constructor; [lia|done].
Qed.

Lemma sorted_sorted {A} (key : A → Z) l :
  StronglySorted (λ a b, key a ≤ key b) (Py.sorted key l).
Proof.
  induction l as [|x l IH]; simpl; [constructor|]. by apply insert_by_sorted.
Qed.

Lemma StronglySorted_lookup_le {A} (key : A → Z) l :
  StronglySorted (λ a b, key a ≤ key b) l →
  ∀ i j a b, (i ≤ j)%nat → l !! i = Some a → l !! j = Some b → key a ≤ key b.
Proof.
  induction 1 as [|x l Hl IH Hx]; intros i j a b Hij Ha Hb; [done|].
  destruct i as [|i], j as [|j]; simpl in *; try lia.
  - simplify_eq. lia.
  - simplify_eq. rewrite Forall_forall in Hx. apply Hx.
    by eapply list_elem_of_lookup_2.
  - eapply IH; [|done..]. lia.
Qed.

(** *** The links *)

Lemma link_from_other toks a : ∀ rest i h,
  a ∉ rest → link_from toks i rest h !! a = h !! a.
Proof.
  induction rest as [|token rest IH]; intros i h Ha; simpl; [done|].
  apply not_elem_of_cons in Ha as [Hne Ha].
  rewrite IH by done. by apply list_lookup_alter_ne.
Qed.

Lemma link_from_lookup toks : ∀ rest i k a h,
  NoDup rest → rest !! k = Some a →
  link_from toks i rest h !! a = linked toks (i + k) <$> h !! a.
Proof.
  induction rest as [|token rest IH]; intros i k a h Hnd Hk; [done|].
  apply NoDup_cons in Hnd as [Hnotin Hnd]. destruct k as [|k]; simpl in *.
  - simplify_eq. rewrite link_from_other by done.
    rewrite Nat.add_0_r. apply list_lookup_alter_eq.
  - rewrite (IH (S i) k a) by done.
    rewrite list_lookup_alter_ne.
    + f_equal. f_equal. lia.
    + intros ->. apply Hnotin. by eapply list_elem_of_lookup_2.
Qed.

Lemma link_tokens_lookup toks k a h :
  NoDup toks → toks !! k = Some a →
  link_tokens toks h !! a = linked toks k <$> h !! a.
Proof. intros. unfold link_tokens. by rewrite (link_from_lookup toks toks 0 k). Qed.

Lemma linked_start toks i t : Token.start (linked toks i t) = Token.start t.
Proof. unfold linked. repeat case_decide; repeat case_match; done. Qed.

Lemma link_tokens_start toks h a :
  NoDup toks → tok_start (link_tokens toks h) a = tok_start h a.
Proof.
  intros Hnd. unfold tok_start. destruct (decide (a ∈ toks)) as [Hin|Hin].
  - apply list_elem_of_lookup in Hin as [k Hk].
    rewrite (link_tokens_lookup toks k) by done.
    destruct (h !! a); simpl; [apply linked_start|done].
  - unfold link_tokens. by rewrite link_from_other.
Qed.

(** The links of a token that had none, after the body of the loop. *)
Lemma linked_links toks i a t :
  toks !! i = Some a → Token.prev t = None → Token.next t = None →
  Token.prev (linked toks i t) = (if decide (i = 0%nat) then None else toks !! (i - 1)%nat) ∧
  Token.next (linked toks i t) = toks !! (i + 1)%nat.
Proof.
  intros Hi Hp Hn. pose proof (lookup_lt_Some _ _ _ Hi) as Hlt. unfold linked.
  assert (i ≠ 0%nat → is_Some (toks !! (i - 1)%nat)) as Hprev
    by (intros; apply lookup_lt_is_Some; lia).
  assert (i ≠ (length toks - 1)%nat → is_Some (toks !! (i + 1)%nat)) as Hnext
    by (intros; apply lookup_lt_is_Some; lia).
  assert (i = (length toks - 1)%nat → toks !! (i + 1)%nat = None) as Hlast
    by (intros; apply lookup_ge_None; lia).
  destruct (decide (i ≠ 0%nat)) as [Hi0|Hi0];
    destruct (decide (i ≠ (length toks - 1)%nat)) as [Hil|Hil].
  - destruct (Hprev Hi0) as [p ->], (Hnext Hil) as [n ->].
    by rewrite decide_False by done.
  - destruct (Hprev Hi0) as [p ->]. rewrite Hlast by lia.
    by rewrite decide_False by done.
  - destruct (Hnext Hil) as [n ->]. by rewrite decide_True by lia.
  - rewrite Hlast by lia. by rewrite decide_True by lia.
Qed.

(** *** The loop over the rows *)

Lemma Token_init_unlinked line t :
  Token_init line = inr t → Token.prev t = None ∧ Token.next t = None.
Proof.
  unfold Token_init. destruct (Token_parse line) as [e|[[[i st] len] txt]]; [done|].
  by intros [= <-].
Qed.

Lemma token_row_fresh base filename index line :
  inv (fresh_tokens base) (token_row filename index line).
Proof.
  intros s (n & Ht & Hl & Hu). unfold token_row.
  case_decide; [by exists n|]. case_decide; [by exists n|].
  rewrite bind_run. unfold lift.
  destruct (Token_init line) as [e|t] eqn:Hinit; [by exists n|].
  apply Token_init_unlinked in Hinit.
  unfold tokens_append. rewrite bind_run. unfold getattr. rewrite Ht.
  cbn [assign fst]. exists (S n). cbn [tokens heap set_tokens set_heap]. split_and!.
  - by rewrite Hl, seq_S.
  - rewrite length_app. simpl. lia.
  - intros a t' Ha. destruct (decide (a < length (heap s))%nat) as [Hlt|Hge].
    + rewrite lookup_app_l by done. by apply Hu.
    + rewrite lookup_app_r by lia.
      destruct (a - length (heap s))%nat; [|done]. by intros [= <-].
Qed.

(** What a call of loadTokens that returns has done: sorted the addresses
    of the new tokens and linked them in the store. *)
Lemma loadTokens_ok filename s s' :
  loadTokens fs filename s = (s', inr tt) →
  ∃ h n,
    length h = (length (heap s) + n)%nat ∧
    (∀ a t, (length (heap s) ≤ a)%nat → h !! a = Some t →
            Token.prev t = None ∧ Token.next t = None) ∧
    tokens s' = Some (Py.sorted (tok_start h) (seq (length (heap s)) n)) ∧
    heap s' = link_tokens (Py.sorted (tok_start h) (seq (length (heap s)) n)) h ∧
    is_Some (_token_dict s').
Proof.
  unfold loadTokens. rewrite bind_run. cbn [assign]. rewrite bind_run.
  unfold lift at 1. destruct (open fs filename) as [e|content]; [done|].
  cbv zeta. rewrite bind_run.
  destruct (for_enumerate _ _ _ _) as [s1 [e|[]]] eqn:Hloop; [done|].
  assert (fresh_tokens (length (heap s)) s1) as (n & Ht & Hl & Hu).
  { pose proof (inv_for_enumerate (fresh_tokens (length (heap s)))
                  (token_row filename) 0
                  (csv_reader DEFAULT_DELIMITER QUOTECHAR content).1
                  (λ i x, token_row_fresh _ filename i x) (set_tokens [] s)) as Hi.
    rewrite Hloop in Hi. apply Hi. exists 0%nat. simpl. split_and!; [done|lia|].
    intros a t Ha Hlook. apply lookup_lt_Some in Hlook. lia. }
  rewrite bind_run.
  destruct (csv_reader DEFAULT_DELIMITER QUOTECHAR content).2 as [e|]; [done|].
  cbn [mret M_ret]. rewrite bind_run. unfold getattr at 1. rewrite Ht.
  rewrite bind_run. cbn [assign]. rewrite bind_run. cbn [assign].
  rewrite bind_run. unfold getattr. cbn [tokens set_tokens set__token_dict heap].
  cbn [assign]. intros [= <-]. exists (heap s1), n. by split_and!.
Qed.

(** *** The chain *)

Lemma filter_none {A} (P : A → Prop) `{∀ x, Decision (P x)} (l : list A) :
  Forall (λ x, ¬ P x) l → filter P l = [].
Proof.
  induction 1 as [|x l Hx _ IH]; [done|]. by rewrite filter_cons_False.
Qed.

Lemma filter_only_first {A} (P : A → Prop) `{∀ x, Decision (P x)} (l : list A) :
  l ≠ [] →
  (∀ i a, l !! i = Some a → (P a ↔ i = 0%nat)) →
  length (filter P l) = 1%nat.
Proof.
  intros Hne HP. destruct l as [|x l]; [done|].
  rewrite filter_cons_True by (by apply (HP 0%nat)).
  rewrite filter_none; [done|]. apply Forall_lookup_2. intros k a Hk Ha.
  by apply (HP (S k)) in Ha.
Qed.

Lemma filter_only_last {A} (P : A → Prop) `{∀ x, Decision (P x)} (l : list A) :
  l ≠ [] →
  (∀ i a, l !! i = Some a → (P a ↔ i = (length l - 1)%nat)) →
  length (filter P l) = 1%nat.
Proof.
  intros Hne HP. destruct l as [|x l _] using rev_ind; [done|].
  rewrite length_app in HP. simpl in HP.
  rewrite filter_app, filter_none.
  - rewrite filter_cons_True; [done|]. apply (HP (length l)); [|lia].
    by rewrite lookup_app_r, Nat.sub_diag by lia.
  - apply Forall_lookup_2. intros k a Hk Ha.
    pose proof (lookup_lt_Some _ _ _ Hk).
    apply (HP k) in Ha; [lia|]. by rewrite lookup_app_l.
Qed.

Lemma chained_ends h toks : toks ≠ [] → chained h toks → chain_ends h toks.
Proof.
  intros Hne Hch. split.
  - apply filter_only_first; [done|]. intros i a Hi.
    destruct (Hch i a Hi) as [-> _]. case_decide; [done|].
    destruct (toks !! (i - 1)%nat) eqn:E; [done|].
    apply lookup_ge_None in E. apply lookup_lt_Some in Hi. lia.
  - apply filter_only_last; [done|]. intros i a Hi.
    destruct (Hch i a Hi) as [_ ->]. apply lookup_lt_Some in Hi.
    rewrite lookup_ge_None. lia.
Qed.

(** After loadTokens the tokens are distinct objects in the order of their
    start offsets, linked along that order. *)
Lemma loadTokens_links filename s s' toks :
  loadTokens fs filename s = (s', inr tt) →
  tokens s' = Some toks →
  NoDup toks ∧ sorted_by_start (heap s') toks ∧ chained (heap s') toks.
Proof.
  intros (h & n & Hlen & Hu & Ht & Hh & _)%loadTokens_ok Htoks.
  rewrite Ht in Htoks. injection Htoks as <-.
  set (toks := Py.sorted (tok_start h) (seq (length (heap s)) n)) in *.
  assert (toks ≡ₚ seq (length (heap s)) n) as Hperm by apply sorted_perm.
  assert (NoDup toks) as Hnd by (rewrite Hperm; apply NoDup_seq).
  rewrite Hh. split_and!; [done|..].
  - intros i j a b Hij Ha Hb. rewrite !link_tokens_start by done.
    by eapply (StronglySorted_lookup_le _ _ (sorted_sorted (tok_start h) _)).
  - intros i a Hi.
    assert (a ∈ seq (length (heap s)) n) as Hin.
    { rewrite <- Hperm. by eapply list_elem_of_lookup_2. }
    apply elem_of_seq in Hin.
    destruct (lookup_lt_is_Some_2 h a) as [t Hta]; [lia|].
    destruct (Hu a t) as [Hp Hn]; [lia|done|].
    unfold prev_of, next_of. rewrite (link_tokens_lookup toks i) by done.
    rewrite Hta. simpl. by apply (linked_links toks i a).
Qed.

(** C2, amended: when loadTokens returns and the file held at least one
    token, the tokens are in the order of their start offsets, each one's
    [prev] is the token before it and its [next] the token after it, and
    exactly one token (the first) has no [prev] and exactly one (the last)
    has no [next]. *)
Theorem loadTokens_chain filename s s' toks :
  loadTokens fs filename s = (s', inr tt) →
  tokens s' = Some toks →
  toks ≠ [] →
  NoDup toks ∧ sorted_by_start (heap s') toks ∧
  chained (heap s') toks ∧ chain_ends (heap s') toks.
Proof.
  intros Hrun Htoks Hne.
  destruct (loadTokens_links _ _ _ _ Hrun Htoks) as (Hnd & Hs & Hc).
  split_and!; [done..|]. by apply chained_ends.
Qed.

(** ** loadCoreference *)

Lemma block_buffer_snoc cur line :
  block_buffer (cur ++ [line]) = block_buffer cur +:+ line +:+ Py.nl.
Proof.
  induction cur as [|x cur IH]; simpl.
  - by rewrite append_nil_r.
  - by rewrite IH, !append_assoc.
Qed.

Lemma block_buffer_empty b : String.length (block_buffer b) = 0%nat ↔ b = [].
Proof.
  rewrite length_zero. destruct b as [|x b]; simpl; [done|]. split; [|done].
  intros Hx. by apply append_nonempty_r in Hx.
Qed.

Lemma block_buffer_nonempty b : b ≠ [] → (0 < String.length (block_buffer b))%nat.
Proof.
  intros Hb. destruct (String.length (block_buffer b)) eqn:E; [|lia].
  by apply block_buffer_empty in E.
Qed.

Lemma set_entities_same acc s : entities s = Some acc → set_entities acc s = s.
Proof. destruct s. simpl. by intros ->. Qed.

Lemma set_entities_twice a b s : set_entities a (set_entities b s) = set_entities a s.
Proof. reflexivity. Qed.

(** The body of the loop on a blank line after a non-empty block, on a
    blank line after none, and on a line with text. *)
Lemma coref_line_flush md sd cur raw s acc :
  trimmed raw = EmptyString → cur ≠ [] →
  entities s = Some acc → _mention_dict s = Some md → _span_dict s = Some sd →
  coref_line (block_buffer cur) raw s
  = match Entity_fromStandard (block_buffer cur) md sd with
    | inl e => (s, inl e)
    | inr e0 => (set_entities (acc ++ [e0]) s, inr EmptyString)
    end.
Proof.
  intros Hb Hcur He Hmd Hsd. unfold coref_line. fold (trimmed raw).
  rewrite decide_True by (by apply length_zero).
  rewrite decide_True by (by apply block_buffer_nonempty).
  unfold entities_append, mbind, M_bind, getattr, lift, assign.
  rewrite Hmd, Hsd. destruct (Entity_fromStandard _ _ _); [done|].
  by rewrite He.
Qed.

Lemma coref_line_skip raw s :
  trimmed raw = EmptyString → coref_line EmptyString raw s = (s, inr EmptyString).
Proof.
  intros Hb. unfold coref_line. fold (trimmed raw).
  rewrite decide_True by (by apply length_zero).
  by rewrite decide_False by (simpl; lia).
Qed.

Lemma coref_line_text buffer raw s :
  trimmed raw ≠ EmptyString →
  coref_line buffer raw s = (s, inr (buffer +:+ trimmed raw +:+ Py.nl)).
Proof.
  intros Hb. unfold coref_line. fold (trimmed raw).
  by rewrite decide_False by (by rewrite length_zero).
Qed.

(** The loop follows the blocks: each non-empty block that a blank line ends
    goes through [Entity_fromStandard], and the buffer left at the end is
    the one of the last block. *)
Lemma coref_loop_blocks md sd raw_lines : ∀ cur s acc,
  entities s = Some acc → _mention_dict s = Some md → _span_dict s = Some sd →
  match comprehension (λ b, Entity_fromStandard (block_buffer b) md sd)
          (filter (λ b, b ≠ []) (blocks_from cur raw_lines).1) with
  | inr es =>
      coref_loop (block_buffer cur) raw_lines s
      = (set_entities (acc ++ es) s, inr (block_buffer (blocks_from cur raw_lines).2))
  | inl e => (coref_loop (block_buffer cur) raw_lines s).2 = inl e
  end.
Proof.
  induction raw_lines as [|raw rest IH]; intros cur s acc He Hmd Hsd.
  - simpl. by rewrite app_nil_r, set_entities_same.
  - cbn [blocks_from coref_loop]. rewrite bind_run.
    destruct (decide (trimmed raw = EmptyString)) as [Hb|Hb].
    + cbn [fst snd]. destruct (decide (cur = [])) as [->|Hcur].
      * rewrite filter_cons_False by (by intros ?).
        cbn [block_buffer foldr]. rewrite coref_line_skip by done.
        apply (IH [] s acc He Hmd Hsd).
      * rewrite filter_cons_True by done. cbn [comprehension].
        rewrite (coref_line_flush md sd cur raw s acc) by done.
        destruct (Entity_fromStandard (block_buffer cur) md sd) as [e|e0]; [done|].
        specialize (IH [] (set_entities (acc ++ [e0]) s) (acc ++ [e0])
                      eq_refl Hmd Hsd).
        cbn [block_buffer foldr] in IH. cbn [mbind result_bind].
        destruct (comprehension _ _) as [e|es]; [done|].
        cbn [mret result_ret]. rewrite IH, set_entities_twice.
        by rewrite <- app_assoc.
    + rewrite coref_line_text by done.
      rewrite <- block_buffer_snoc. by apply IH.
Qed.

Lemma comprehension_Forall2 {A B} (f : A → result B) l : ∀ ys,
  comprehension f l = inr ys → Forall2 (λ x y, f x = inr y) l ys.
Proof.
  induction l as [|x l IH]; intros ys; simpl.
  - intros [= <-]. constructor.
  - destruct (f x) as [e|y] eqn:Hx; [done|]. simpl.
    destruct (comprehension f l) as [e|ys']; [done|]. simpl.
    intros [= <-]. constructor; [done|]. by apply IH.
Qed.

(** C6: on a file that is present, loadCoreference makes one entity in
    standard mode of each non-empty block that a blank line ends, in order,
    and one entity in test mode of a non-empty block left at the end of the
    file; it raises what the first failing constructor raises. *)
Theorem loadCoreference_blocks filename content md sd s :
  fs !! filename = Some content →
  _mention_dict s = Some md →
  _span_dict s = Some sd →
  (∀ l, coref_entities md sd (Py.lines content) = inr l →
        loadCoreference fs filename s = (set_entities l s, inr tt) ∧
        ∃ es, Forall2 (λ b e, Entity_fromStandard (block_buffer b) md sd = inr e)
                (terminated_blocks (Py.lines content)) es ∧
              (trailing_block (Py.lines content) = [] ∧ l = es ∨
               trailing_block (Py.lines content) ≠ [] ∧
               ∃ e, Entity_fromTest (block_buffer (trailing_block (Py.lines content)))
                    = inr e ∧ l = es ++ [e])) ∧
  (∀ e, coref_entities md sd (Py.lines content) = inl e →
        (loadCoreference fs filename s).2 = inl e).
Proof.
  intros Hf Hmd Hsd.
  pose proof (coref_loop_blocks md sd (Py.lines content) [] (set_entities [] s) []
                eq_refl Hmd Hsd) as Hloop.
  unfold coref_entities, terminated_blocks, trailing_block.
  unfold loadCoreference. rewrite bind_run. cbn [assign].
  unfold open. rewrite Hf. rewrite bind_run. cbn [lift]. rewrite bind_run.
  destruct (comprehension _ _) as [e|es] eqn:Hes.
  - split; [done|]. intros e' [= <-].
    destruct (coref_loop _ _ _) as [s1 [e1|b1]]; simpl in *; congruence.
  - cbn [block_buffer foldr] in Hloop. rewrite Hloop. cbn [mbind result_bind].
    rewrite set_entities_twice. cbn [app].
    destruct (blocks_from [] (Py.lines content)).2 as [|x tr] eqn:Htr.
    + rewrite decide_False by (simpl; lia). split; [|done].
      intros l [= <-]. split; [done|]. exists es. split; [|by left].
      by apply comprehension_Forall2.
    + rewrite decide_True.
      2:{ by apply block_buffer_nonempty. }
      rewrite bind_run. unfold lift.
      destruct (Entity_fromTest _) as [e|e] eqn:Htest.
      * split; [done|]. by intros e' [= <-].
      * split; [|done]. intros l [= <-]. split; [done|].
        exists es. split; [by apply comprehension_Forall2|]. right. split; [done|]. by exists e.
Qed.

(** ** makeTokenSets *)

(** *** The loop over the mentions *)

Lemma mark_tokens_shape span_tag toks : ∀ ts ts',
  mark_tokens span_tag toks ts = inr ts' →
  TokenSet.tokens ts' = TokenSet.tokens ts ∧ TokenSet.tag ts' = TokenSet.tag ts ∧
  TokenSet.parent ts' = TokenSet.parent ts.
Proof.
  induction toks as [|token toks IH]; intros ts ts'; simpl.
  - by intros [= <-].
  - destruct (getMark _ _) as [e|mark]; [done|]. simpl.
    intros Hrun. by destruct (IH _ _ Hrun) as (-> & -> & ->).
Qed.

Lemma mark_spans_shape l : ∀ ts ts',
  mark_spans l ts = inr ts' →
  TokenSet.tokens ts' = TokenSet.tokens ts ∧ TokenSet.tag ts' = TokenSet.tag ts ∧
  TokenSet.parent ts' = TokenSet.parent ts.
Proof.
  induction l as [|span l IH]; intros ts ts'; simpl.
  - by intros [= <-].
  - destruct (mark_tokens _ _ _) as [e|ts1] eqn:H1; [done|]. simpl.
    intros Hrun. destruct (IH _ _ Hrun) as (-> & -> & ->).
    by apply mark_tokens_shape in H1.
Qed.

Lemma filed_empty flag : filed flag [] (empty_res flag, []).
Proof.
  split_and!; simpl.
  - unfold empty_res. by rewrite dom_gset_to_gmap.
  - done.
  - by intros i m.
  - intros key l. unfold empty_res. rewrite lookup_gset_to_gmap_Some.
    intros [_ <-]. split; [constructor|]. intros i. split.
    + by intros ?%elem_of_nil.
    + by intros (m & ? & _).
Qed.

Lemma add_mention_filed flag ms st m st' :
  filed flag ms st →
  add_mention flag st m = inr st' →
  filed flag (ms ++ [m]) st'.
Proof.
  intros (Hdom & Hlen & Hsets & Hres). unfold add_mention.
  case_decide as Hkey; [|done].
  destruct (mark_spans _ _) as [e|ts] eqn:Hmark; [done|]. simpl.
  apply mark_spans_shape in Hmark as (Htoks & Htag & Hpar). simpl in *.
  destruct (st.1 !! mention_key flag m) as [l|] eqn:Hl; [|done].
  intros [= <-]. split_and!; simpl.
  - rewrite dom_insert_L, Hdom. by apply subseteq_union_1_L, singleton_subseteq_l.
  - rewrite !length_app. simpl. lia.
  - intros i m' Hi. destruct (decide (i < length ms)%nat) as [Hlt|Hge].
    + rewrite lookup_app_l in Hi by done.
      rewrite lookup_app_l by lia. by apply Hsets.
    + rewrite lookup_app_r in Hi by lia.
      destruct (i - length ms)%nat eqn:Hd; [|by destruct n]. simplify_eq/=.
      assert (i = length st.2) as -> by lia.
      exists ts. by rewrite lookup_app_r, Nat.sub_diag by lia.
  - intros key l'. destruct (decide (mention_key flag m = key)) as [<-|Hne].
    + rewrite lookup_insert_eq. intros [= <-].
      destruct (Hres _ _ Hl) as [Hnd Hmem]. split.
      * apply NoDup_app. split_and!; [done| |apply NoDup_singleton].
        intros i Hi ->%list_elem_of_singleton.
        apply Hmem in Hi as (m' & Hm' & _). apply lookup_lt_Some in Hm'. lia.
      * intros i. rewrite elem_of_app, list_elem_of_singleton, Hmem. split.
        -- intros [(m' & Hm' & Hk)| ->].
           ++ exists m'. split; [|done]. by apply lookup_app_l_Some.
           ++ exists m. split; [|done].
              by rewrite Hlen, lookup_app_r, Nat.sub_diag by lia.
        -- intros (m' & Hm' & Hk).
           apply lookup_app_Some in Hm' as [Hm'|[Hge Hm']]; [left; eauto|right].
           destruct (i - length ms)%nat eqn:Hd; [|by destruct n]. lia.
    + rewrite lookup_insert_ne by done. intros Hl'.
      destruct (Hres _ _ Hl') as [Hnd Hmem]. split; [done|].
      intros i. rewrite Hmem. split.
      * intros (m' & Hm' & Hk). exists m'. split; [|done]. by apply lookup_app_l_Some.
      * intros (m' & Hm' & Hk).
        apply lookup_app_Some in Hm' as [Hm'|[Hge Hm']]; [eauto|].
        destruct (i - length ms)%nat eqn:Hd; [|by destruct n]. by simplify_eq/=.
Qed.

Lemma add_mentions_filed flag l : ∀ ms st st',
  filed flag ms st →
  add_mentions flag st l = inr st' →
  filed flag (ms ++ l) st'.
Proof.
  induction l as [|m l IH]; intros ms st st' Hst; simpl.
  - intros [= <-]. by rewrite app_nil_r.
  - destruct (add_mention flag st m) as [e|st1] eqn:H1; [done|]. simpl.
    intros Hrun. rewrite cons_middle, app_assoc.
    eapply IH; [|done]. by eapply add_mention_filed.
Qed.

Lemma add_mentions_app flag l1 l2 st :
  add_mentions flag st (l1 ++ l2)
  = add_mentions flag st l1 ≫= λ st', add_mentions flag st' l2.
Proof.
  revert st. induction l1 as [|m l1 IH]; intros st; simpl; [done|].
  destruct (add_mention flag st m) as [e|st1]; [done|]. simpl. apply IH.
Qed.

(** *** The nesting pass *)

Lemma shape_alter_parent p a (st : list (TokenSet.t Mark)) :
  shape (alter (TokenSet.set_parent p) a st) = shape st.
Proof.
  unfold shape. apply list_eq. intros i.
  rewrite !list_lookup_fmap, list_lookup_alter.
  case_decide; [|done]. subst. by destruct (st !! i).
Qed.

Lemma nested_shape (st : list (TokenSet.t Mark)) a b :
  TokenSet.nested st a b ↔
  ∃ x y, shape st !! a = Some x ∧ shape st !! b = Some y ∧ x.1 ⊆ y.1.
Proof.
  unfold TokenSet.nested, shape. rewrite !list_lookup_fmap.
  destruct (st !! a) as [x|], (st !! b) as [y|]; simpl; split;
    try done; try (by intros (? & ? & ? & ? & ?)).
  - intros Hsub. by eexists _, _.
  - by intros (x' & y' & [= <-] & [= <-] & Hsub).
Qed.

Lemma nested_ext (st st' : list (TokenSet.t Mark)) a b :
  shape st = shape st' → TokenSet.nested st a b ↔ TokenSet.nested st' a b.
Proof. intros Hs. by rewrite !nested_shape, Hs. Qed.

Lemma nested_tokens_of (st : list (TokenSet.t Mark)) a b :
  (a < length st)%nat → (b < length st)%nat →
  TokenSet.nested st a b ↔ tokens_of st a ⊆ tokens_of st b.
Proof.
  intros [x Hx]%lookup_lt_is_Some [y Hy]%lookup_lt_is_Some.
  unfold TokenSet.nested, tokens_of. by rewrite Hx, Hy.
Qed.

Lemma tokens_of_shape (st st' : list (TokenSet.t Mark)) a :
  shape st = shape st' → tokens_of st a = tokens_of st' a.
Proof.
  intros Hs. apply (f_equal (λ l, l !! a)) in Hs. unfold shape, tokens_of in *.
  rewrite !list_lookup_fmap in Hs.
  destruct (st !! a), (st' !! a); simpl in *; by simplify_eq.
Qed.

Lemma findParents_shape self all : ∀ st : list (TokenSet.t Mark),
  shape (TokenSet.findParents self all st) = shape st.
Proof.
  unfold TokenSet.findParents.
  induction all as [|o all IH]; intros st; simpl; [done|].
  rewrite IH. case_decide; [apply shape_alter_parent|done].
Qed.

Lemma findParents_other self all a : ∀ st : list (TokenSet.t Mark),
  a ≠ self → TokenSet.findParents self all st !! a = st !! a.
Proof.
  unfold TokenSet.findParents.
  induction all as [|o all IH]; intros st Ha; simpl; [done|].
  rewrite IH by done. case_decide; [|done]. by rewrite list_lookup_alter_ne.
Qed.

(** After [findParents] the token set either keeps its parent, and no other
    token set of the list encloses it, or has one that encloses it as its
    parent. *)
Lemma findParents_self self all : ∀ (st : list (TokenSet.t Mark)) ts,
  st !! self = Some ts →
  ∃ ts', TokenSet.findParents self all st !! self = Some ts' ∧
         ((TokenSet.parent ts' = TokenSet.parent ts ∧
           ∀ o, o ∈ all → o ≠ self → ¬ TokenSet.nested st self o) ∨
          (∃ p, TokenSet.parent ts' = Some p ∧ p ∈ all ∧ p ≠ self ∧
                TokenSet.nested st self p)).
Proof.
  unfold TokenSet.findParents.
  induction all as [|o all IH]; intros st ts Hts; simpl.
  - exists ts. split; [done|]. left. split; [done|]. by intros o ?%elem_of_nil.
  - destruct (decide (o ≠ self ∧ TokenSet.nested st self o)) as [[Hne Hnest]|Hno].
    + destruct (IH (alter (TokenSet.set_parent o) self st) (TokenSet.set_parent o ts))
        as (ts' & Hts' & Hcase).
      { by rewrite list_lookup_alter_eq, Hts. }
      exists ts'. split; [done|]. right.
      destruct Hcase as [[Hpar _]|(p & Hp & Hin & Hpne & Hpn)].
      * exists o. rewrite Hpar. split_and!; [done|by left|done..].
      * exists p. split_and!; [done|by right|done|].
        by rewrite <- (nested_ext _ _ _ _ (shape_alter_parent o self st)).
    + destruct (IH st ts Hts) as (ts' & Hts' & Hcase).
      exists ts'. split; [done|].
      destruct Hcase as [[Hpar Hnone]|(p & Hp & Hin & Hpne & Hpn)].
      * left. split; [done|]. intros o' [->|Hin]%elem_of_cons Hne'; [|by apply Hnone].
        intros Hn. by apply Hno.
      * right. exists p. split_and!; [done|by right|done..].
Qed.

Lemma pass_shape all orgs : ∀ st : list (TokenSet.t Mark),
  shape (foldl (λ st org, TokenSet.findParents org all st) st orgs) = shape st.
Proof.
  induction orgs as [|o orgs IH]; intros st; simpl; [done|].
  by rewrite IH, findParents_shape.
Qed.

Lemma pass_other all orgs a : ∀ st : list (TokenSet.t Mark),
  a ∉ orgs →
  foldl (λ st org, TokenSet.findParents org all st) st orgs !! a = st !! a.
Proof.
  induction orgs as [|o orgs IH]; intros st Ha; simpl; [done|].
  apply not_elem_of_cons in Ha as [Hne Ha].
  rewrite IH by done. by apply findParents_other.
Qed.

(** The token set of the pass at [a] is the one its own call leaves. *)
Lemma pass_self all orgs a : ∀ st : list (TokenSet.t Mark),
  NoDup orgs → a ∈ orgs →
  ∃ st_a, shape st_a = shape st ∧ st_a !! a = st !! a ∧
          foldl (λ st org, TokenSet.findParents org all st) st orgs !! a
          = TokenSet.findParents a all st_a !! a.
Proof.
  induction orgs as [|o orgs IH]; intros st Hnd Ha; [by apply elem_of_nil in Ha|].
  apply NoDup_cons in Hnd as [Hnotin Hnd]. simpl.
  destruct (decide (a = o)) as [->|Hne].
  - exists st. split_and!; [done..|]. by apply pass_other.
  - apply elem_of_cons in Ha as [?|Ha]; [done|].
    destruct (IH (TokenSet.findParents o all st) Hnd Ha) as (st_a & Hs & Hl & Hr).
    exists st_a. split_and!; [|by rewrite Hl, findParents_other|done].
    by rewrite Hs, findParents_shape.
Qed.

(** The parent the pass records for a token set of the pass. *)
Lemma pass_parent orgs (st : list (TokenSet.t Mark)) a ts :
  NoDup orgs → a ∈ orgs → st !! a = Some ts → TokenSet.parent ts = None →
  (parent_of (find_all_parents orgs st) a = None ∧
   ∀ o, o ∈ orgs → o ≠ a → ¬ TokenSet.nested st a o) ∨
  (∃ p, parent_of (find_all_parents orgs st) a = Some p ∧ p ∈ orgs ∧ p ≠ a ∧
        TokenSet.nested st a p).
Proof.
  intros Hnd Ha Hts Hpar. unfold find_all_parents, parent_of.
  destruct (pass_self orgs orgs a st Hnd Ha) as (st_a & Hs & Hl & ->).
  rewrite Hts in Hl.
  destruct (findParents_self a orgs st_a ts Hl) as (ts' & -> & Hcase). simpl.
  destruct Hcase as [[Hp Hnone]|(p & Hp & Hin & Hne & Hn)].
  - left. split; [congruence|]. intros o Ho Hoa.
    rewrite <- (nested_ext _ _ _ _ Hs). by apply Hnone.
  - right. exists p. split_and!; [done..|]. by rewrite <- (nested_ext _ _ _ _ Hs).
Qed.

(** *** What a call that returns has done *)

Lemma makeTokenSets_ok flag s res store :
  makeTokenSets flag s = inr (res, store) →
  ∃ ms store0 orgs,
    mentions s = Some ms ∧
    add_mentions flag (empty_res flag, []) ms = inr (res, store0) ∧
    all_orgs flag res = inr orgs ∧
    store = find_all_parents orgs store0.
Proof.
  unfold makeTokenSets, getattr. destruct (mentions s) as [ms|]; [|done]. simpl.
  fold (empty_res flag).
  destruct (add_mentions flag _ ms) as [e|[res0 store0]] eqn:Hadd; [done|]. simpl.
  destruct (all_orgs flag res0) as [e|orgs] eqn:Ho; [done|]. simpl.
  intros [= <- <-]. by exists ms, store0, orgs.
Qed.

Lemma mention_key_folded m : mention_key false m ≠ "locorg".
Proof.
  unfold mention_key. case_decide as Hk; [done|]. intros Ht. apply Hk. by split.
Qed.

Lemma mention_key_locorg m : Mention.tag m = "locorg" → mention_key false m = "loc".
Proof. intros Ht. unfold mention_key. by rewrite decide_True. Qed.

Lemma allowed_tags_filed flag key : key ∈ allowed_tags flag → key ∈ filed_tags.
Proof.
  unfold allowed_tags, filed_tags. rewrite !elem_of_union, !elem_of_singleton.
  destruct flag; [rewrite elem_of_singleton|rewrite elem_of_empty]; tauto.
Qed.

Lemma all_orgs_spec flag ms res store0 orgs :
  filed flag ms (res, store0) →
  all_orgs flag res = inr orgs →
  NoDup orgs ∧
  (∃ lo ll, res !! "org" = Some lo ∧ orgs = lo ++ ll ∧
            (if flag then res !! "locorg" = Some ll else ll = [])) ∧
  ∀ a, a ∈ orgs ↔
       ∃ m, ms !! a = Some m ∧
            (mention_key flag m = "org" ∨ mention_key flag m = "locorg").
Proof.
  intros (_ & _ & _ & Hres). simpl in Hres. unfold all_orgs, res_get.
  destruct (res !! "org") as [lo|] eqn:Hlo; [|done]. simpl.
  destruct (Hres _ _ Hlo) as [Hndo Hmo]. destruct flag.
  - destruct (res !! "locorg") as [ll|] eqn:Hll; [|done]. simpl. intros [= <-].
    destruct (Hres _ _ Hll) as [Hndl Hml]. split_and!.
    + apply NoDup_app. split_and!; [done| |done].
      intros a (m & Hm & Hk)%Hmo (m' & Hm' & Hk')%Hml.
      rewrite Hm in Hm'. injection Hm' as <-. rewrite Hk in Hk'. discriminate.
    + by exists lo, ll.
    + intros a. rewrite elem_of_app, Hmo, Hml. split.
      * intros [(m & Hm & Hk)|(m & Hm & Hk)]; exists m; auto.
      * intros (m & Hm & [Hk|Hk]); [left|right]; by exists m.
  - intros [= <-]. split_and!; [done|exists lo, []; by rewrite app_nil_r|].
    intros a. rewrite Hmo. split; [intros (m & Hm & Hk); exists m; auto|].
    intros (m & Hm & [Hk|Hk]); [eauto|]. by apply mention_key_folded in Hk.
Qed.

Lemma shape_lookup (st st' : list (TokenSet.t Mark)) a ts' :
  shape st = shape st' → st' !! a = Some ts' →
  ∃ ts, st !! a = Some ts ∧ TokenSet.tokens ts = TokenSet.tokens ts' ∧
        TokenSet.tag ts = TokenSet.tag ts'.
Proof.
  intros Hs Ha. apply (f_equal (λ l, l !! a)) in Hs. unfold shape in Hs.
  rewrite !list_lookup_fmap, Ha in Hs. destruct (st !! a) as [ts|]; [|done].
  simpl in Hs. exists ts. by simplify_eq.
Qed.

(** A call of makeTokenSets that returns: the token set of the i-th mention
    is the i-th object of the store, with the key of the mention as its tag;
    the pass went over the addresses filed under 'org' and 'locorg'; a token
    set outside the pass has no parent, and one of the pass has either none,
    when no other of the pass encloses it, or one that encloses it. *)
Lemma makeTokenSets_pass flag s res store :
  makeTokenSets flag s = inr (res, store) →
  ∃ ms orgs,
    mentions s = Some ms ∧ all_orgs flag res = inr orgs ∧
    dom res = allowed_tags flag ∧
    (∀ key l, res !! key = Some l →
       ∀ i, i ∈ l ↔ ∃ m, ms !! i = Some m ∧ mention_key flag m = key) ∧
    (∃ lo ll, res !! "org" = Some lo ∧ orgs = lo ++ ll ∧
              (if flag then res !! "locorg" = Some ll else ll = [])) ∧
    length store = length ms ∧
    (∀ a, a ∈ orgs ↔
          ∃ m, ms !! a = Some m ∧
               (mention_key flag m = "org" ∨ mention_key flag m = "locorg")) ∧
    (∀ a m, ms !! a = Some m →
       ∃ ts, store !! a = Some ts ∧ TokenSet.tag ts = mention_key flag m ∧
             TokenSet.tokens ts = mention_tokens m) ∧
    (∀ a, a ∉ orgs → parent_of store a = None) ∧
    (∀ a, a ∈ orgs →
       (parent_of store a = None ∧
        ∀ o, o ∈ orgs → o ≠ a → ¬ tokens_of store a ⊆ tokens_of store o) ∨
       (∃ p, parent_of store a = Some p ∧ p ∈ orgs ∧ p ≠ a ∧
             tokens_of store a ⊆ tokens_of store p)).
Proof.
  intros (ms & store0 & orgs & Hms & Hadd & Horgs & ->)%makeTokenSets_ok.
  pose proof (add_mentions_filed flag ms [] _ _ (filed_empty flag) Hadd) as Hfiled.
  simpl in Hfiled.
  destruct (all_orgs_spec _ _ _ _ _ Hfiled Horgs) as (Hnd & Hparts & Hmem).
  destruct Hfiled as (Hdom & Hlen & Hsets & Hres). simpl in *.
  assert (shape (find_all_parents orgs store0) = shape store0) as Hshape
    by apply pass_shape.
  assert (∀ a, a ∈ orgs → (a < length store0)%nat) as Hvalid.
  { intros a (m & Hm & _)%Hmem. apply lookup_lt_Some in Hm. lia. }
  exists ms, orgs. split_and!; [done..| | | |done| | |].
  - intros key l Hl. by apply Hres.
  - done.
  - apply (f_equal length) in Hshape. unfold shape in Hshape.
    rewrite !length_fmap in Hshape. lia.
  - intros a m Hm. destruct (Hsets a m Hm) as (ts0 & Hts0 & Htag & Htoks & _).
    destruct (shape_lookup _ _ _ _ Hshape Hts0) as (ts & Hts & Ht1 & Ht2).
    exists ts. split_and!; [done|congruence..].
  - intros a Ha. unfold parent_of, find_all_parents. rewrite pass_other by done.
    destruct (store0 !! a) as [ts0|] eqn:Hts0; [|done]. simpl.
    destruct (lookup_lt_is_Some_2 ms a) as [m Hm].
    { apply lookup_lt_Some in Hts0. lia. }
    destruct (Hsets a m Hm) as (ts & Hts & _ & _ & Hpar). by simplify_eq.
  - intros a Ha. pose proof Ha as (m & Hm & _)%Hmem.
    destruct (Hsets a m Hm) as (ts & Hts & _ & _ & Hpar).
    destruct (pass_parent orgs store0 a ts Hnd Ha Hts Hpar)
      as [[Hnone Hno]|(p & Hp & Hin & Hne & Hn)].
    + left. split; [done|]. intros o Ho Hoa.
      rewrite !(tokens_of_shape _ _ _ Hshape).
      rewrite <- nested_tokens_of by auto. by apply Hno.
    + right. exists p. split_and!; [done..|].
      rewrite !(tokens_of_shape _ _ _ Hshape). by rewrite <- nested_tokens_of by auto.
Qed.

(** C4: when makeTokenSets(False) returns, the token set of every mention
    tagged 'locorg' is in the list under 'loc' and is tagged 'loc'; the
    mapping has the keys 'org', 'per' and 'loc' and no key 'locorg', and no
    token set is tagged 'locorg'. *)
Theorem makeTokenSets_folds_locorg s res store :
  makeTokenSets false s = inr (res, store) →
  (∀ ms i m, mentions s = Some ms → ms !! i = Some m → Mention.tag m = "locorg" →
     ∃ l ts, res !! "loc" = Some l ∧ i ∈ l ∧ store !! i = Some ts ∧
             TokenSet.tag ts = "loc" ∧ TokenSet.tokens ts = mention_tokens m) ∧
  res !! "locorg" = None ∧
  dom res = {[ "org"; "per"; "loc" ]} ∧
  (∀ a ts, store !! a = Some ts → TokenSet.tag ts ≠ "locorg").
Proof.
  intros (ms & orgs & Hms & _ & Hdom & Hres & _ & Hlen & _ & Hsets & _)%makeTokenSets_pass.
  assert (dom res = {[ "org"; "per"; "loc" ]}) as Hdom'.
  { rewrite Hdom. unfold allowed_tags. by rewrite union_empty_r_L. }
  split_and!.
  - intros ms' i m Hms' Hm Htag. rewrite Hms in Hms'. injection Hms' as <-.
    assert (is_Some (res !! "loc")) as [l Hl].
    { apply elem_of_dom. rewrite Hdom'. rewrite !elem_of_union, !elem_of_singleton. auto. }
    destruct (Hsets i m Hm) as (ts & Hts & Ht & Htoks).
    rewrite (mention_key_locorg m Htag) in Ht.
    exists l, ts. split_and!; [done| |done..].
    apply (Hres _ _ Hl). exists m. split; [done|]. by apply mention_key_locorg.
  - apply not_elem_of_dom. rewrite Hdom'.
    rewrite !elem_of_union, !elem_of_singleton. intros [[?|?]|?]; discriminate.
  - done.
  - intros a ts Hts.
    destruct (lookup_lt_is_Some_2 ms a) as [m Hm].
    { apply lookup_lt_Some in Hts. lia. }
    destruct (Hsets a m Hm) as (ts' & Hts' & Ht & _). simplify_eq.
    rewrite Ht. apply mention_key_folded.
Qed.

(** *** When the table has every mark *)

Lemma mark_tokens_total span_tag toks :
  (∀ a b, ∃ mark, getMark a b = inr mark) →
  ∀ ts, ∃ ts', mark_tokens span_tag toks ts = inr ts'.
Proof.
  intros Htotal. induction toks as [|token toks IH]; intros ts; simpl.
  - by exists ts.
  - destruct (Htotal (TokenSet.tag ts) span_tag) as [mark ->]. simpl. apply IH.
Qed.

Lemma mark_spans_total l :
  (∀ a b, ∃ mark, getMark a b = inr mark) →
  ∀ ts, ∃ ts', mark_spans l ts = inr ts'.
Proof.
  intros Htotal. induction l as [|span l IH]; intros ts; simpl.
  - by exists ts.
  - destruct (mark_tokens_total (Span.tag span) (Span.tokens span) Htotal ts)
      as [ts1 ->]. simpl. apply IH.
Qed.

(** The body of the loop files the mention or fails on the assertion. *)
Lemma add_mention_outcome flag ms st m :
  (∀ a b, ∃ mark, getMark a b = inr mark) →
  filed flag ms st →
  (∃ st', mention_key flag m ∈ allowed_tags flag ∧ add_mention flag st m = inr st') ∨
  ((mention_key flag m ∉ allowed_tags flag) ∧
   add_mention flag st m = inl (Raise AssertionError EmptyString)).
Proof.
  intros Htotal (Hdom & _). unfold add_mention. case_decide as Hkey; [left|by right].
  destruct (mark_spans_total (Mention.spans m) Htotal
              (TokenSet.init (mjoin (Span.tokens <$> Mention.spans m))
                 (mention_key flag m))) as [ts ->]. simpl.
  pose proof Hkey as Hin. rewrite <- Hdom in Hin.
  apply elem_of_dom in Hin as [l ->]. by eexists.
Qed.

Lemma add_mentions_outcome flag l : ∀ ms st,
  (∀ a b, ∃ mark, getMark a b = inr mark) →
  filed flag ms st →
  (Forall (λ m, mention_key flag m ∈ allowed_tags flag) l ∧
   (∃ st', add_mentions flag st l = inr st')) ∨
  (Exists (λ m, mention_key flag m ∉ allowed_tags flag) l ∧
   add_mentions flag st l = inl (Raise AssertionError EmptyString)).
Proof.
  induction l as [|m l IH]; intros ms st Htotal Hst; simpl.
  - left. split; [constructor|by exists st].
  - destruct (add_mention_outcome flag ms st m Htotal Hst)
      as [[st1 [Hkey Hm]]|[Hkey ->]]; [|right; split; [by left|done]].
    rewrite Hm. simpl.
    destruct (IH (ms ++ [m]) st1 Htotal) as [[Hall Hok]|[Hex Hfail]];
      [by eapply add_mention_filed| |right; split; [by right|done]].
    left. split; [by constructor|done].
Qed.

(** makeTokenSets returns when every mention is filed under an allowed key
    and the table has every mark. *)
Lemma makeTokenSets_returns flag s ms :
  mentions s = Some ms →
  Forall (λ m, mention_key flag m ∈ allowed_tags flag) ms →
  (∀ a b, ∃ mark, getMark a b = inr mark) →
  ∃ res store, makeTokenSets flag s = inr (res, store).
Proof.
  intros Hms Hall Htotal. unfold makeTokenSets, getattr. rewrite Hms. simpl.
  fold (empty_res flag).
  destruct (add_mentions_outcome flag ms [] (empty_res flag, []) Htotal
              (filed_empty flag)) as [[_ [[res store0] Hadd]]|Hfail].
  - rewrite Hadd. simpl.
    pose proof (add_mentions_filed flag ms [] _ _ (filed_empty flag) Hadd)
      as (Hdom & _). simpl in Hdom.
    assert (∀ key, key ∈ allowed_tags flag → ∃ l, res !! key = Some l) as Hkeys.
    { intros key Hkey. rewrite <- Hdom in Hkey. by apply elem_of_dom in Hkey. }
    unfold all_orgs, res_get.
    destruct (Hkeys "org") as [lo ->].
    { unfold allowed_tags. rewrite !elem_of_union, !elem_of_singleton. tauto. }
    simpl. destruct flag; simpl; [|by eexists _, _].
    destruct (Hkeys "locorg") as [ll ->]; [|by eexists _, _].
    unfold allowed_tags. rewrite !elem_of_union, !elem_of_singleton. tauto.
  - destruct Hfail as [Hex _]. apply Exists_exists in Hex as (m & Hin & Hkey).
    rewrite Forall_forall in Hall. by destruct (Hkey (Hall m Hin)).
Qed.

(** C8: a mention whose key, its tag after the folding of 'locorg', is none
    of 'org', 'per', 'loc' and 'locorg' makes makeTokenSets fail; the
    exception is the AssertionError when the mentions before it have been
    filed, and whenever the table has every mark. *)
Theorem makeTokenSets_asserts flag s pre m post :
  mentions s = Some (pre ++ m :: post) →
  mention_key flag m ∉ filed_tags →
  (∃ e, makeTokenSets flag s = inl e) ∧
  (∀ st, add_mentions flag (empty_res flag, []) pre = inr st →
         makeTokenSets flag s = inl (Raise AssertionError EmptyString)) ∧
  ((∀ a b, ∃ mark, getMark a b = inr mark) →
   makeTokenSets flag s = inl (Raise AssertionError EmptyString)).
Proof.
  intros Hms Hkey.
  assert (∀ st, add_mention flag st m = inl (Raise AssertionError EmptyString)) as Hm.
  { intros st. unfold add_mention. case_decide as Hin; [|done].
    by apply allowed_tags_filed in Hin. }
  unfold makeTokenSets, getattr. rewrite Hms. simpl. fold (empty_res flag).
  rewrite add_mentions_app. simpl.
  destruct (add_mentions flag _ pre) as [e|st] eqn:Hpre; simpl.
  - split_and!; [by exists e|done|]. intros Htotal.
    destruct (add_mentions_outcome flag pre [] (empty_res flag, []) Htotal
                (filed_empty flag)) as [[_ [st' Hok]]|[_ Hfail]].
    + discriminate (eq_trans (eq_sym Hpre) Hok).
    + by injection (eq_trans (eq_sym Hpre) Hfail) as ->.
  - rewrite Hm. simpl. split_and!; [by eexists|done..].
Qed.

Lemma disjoint_subseteq_empty (X Y : gset addr) : X ## Y → X ⊆ Y → X = ∅.
Proof.
  rewrite elem_of_disjoint. intros Hd Hs. apply elem_of_equiv_empty_L.
  intros x Hx. apply (Hd x); [done|]. by apply Hs.
Qed.

(** C5: when makeTokenSets returns, the nesting pass has gone over the token
    sets filed under 'org', and under 'locorg' when it is allowed, which are
    the ones tagged 'org' or 'locorg': a token set outside the pass (a
    person, a location) has no parent, and a recorded parent is another
    token set of the pass that encloses the set.  Within the pass a token
    set [a] whose tokens are a strict subset of those of [b] has a parent
    that encloses it, which is [b] when no other set of the pass encloses
    [a]; of two disjoint, non-empty token sets neither is the parent of the
    other, and each one that no third set encloses has no parent. *)
Theorem makeTokenSets_nesting flag s res store :
  makeTokenSets flag s = inr (res, store) →
  ∃ orgs lo ll,
    res !! "org" = Some lo ∧
    (if flag then res !! "locorg" = Some ll else ll = []) ∧
    orgs = lo ++ ll ∧
    (∀ a ts, store !! a = Some ts →
       (a ∈ orgs ↔ TokenSet.tag ts = "org" ∨ TokenSet.tag ts = "locorg")) ∧
    (∀ a, a ∉ orgs → parent_of store a = None) ∧
    (∀ a p, parent_of store a = Some p →
       a ∈ orgs ∧ p ∈ orgs ∧ p ≠ a ∧ tokens_of store a ⊆ tokens_of store p) ∧
    (∀ a b, a ∈ orgs → b ∈ orgs →
       tokens_of store a ⊂ tokens_of store b →
       ∃ p, parent_of store a = Some p ∧
            ((∀ c, c ∈ orgs → c ≠ a → tokens_of store a ⊆ tokens_of store c → c = b) →
             p = b)) ∧
    (∀ a b, a ∈ orgs → b ∈ orgs →
       tokens_of store a ## tokens_of store b →
       tokens_of store a ≠ ∅ → tokens_of store b ≠ ∅ →
       parent_of store a ≠ Some b ∧ parent_of store b ≠ Some a ∧
       ((∀ c, c ∈ orgs → c ≠ a → c ≠ b → ¬ tokens_of store a ⊆ tokens_of store c) →
        parent_of store a = None) ∧
       ((∀ c, c ∈ orgs → c ≠ b → c ≠ a → ¬ tokens_of store b ⊆ tokens_of store c) →
        parent_of store b = None)).
Proof.
  intros (ms & orgs & Hms & Horgs & Hdom & Hres & (lo & ll & Hlo & -> & Hll) &
          Hlen & Hmem & Hsets & Hout & Hin)%makeTokenSets_pass.
  assert (∀ a p, parent_of store a = Some p →
            a ∈ lo ++ ll ∧ p ∈ lo ++ ll ∧ p ≠ a ∧
            tokens_of store a ⊆ tokens_of store p) as Hpar.
  { intros a p Hp. destruct (decide (a ∈ lo ++ ll)) as [Ha|Ha].
    - destruct (Hin a Ha) as [[Hnone _]|(p' & Hp' & ? & ? & ?)]; [congruence|].
      rewrite Hp in Hp'. by injection Hp' as <-.
    - rewrite (Hout a Ha) in Hp. discriminate. }
  exists (lo ++ ll), lo, ll. split_and!; [done..| | | | |].
  - intros a ts Hts.
    destruct (lookup_lt_is_Some_2 ms a) as [m Hm].
    { apply lookup_lt_Some in Hts. lia. }
    destruct (Hsets a m Hm) as (ts' & Hts' & Ht & _).
    rewrite Hts in Hts'. injection Hts' as <-. rewrite Hmem, Ht. split.
    + intros (m' & Hm' & Hk). rewrite Hm in Hm'. by injection Hm' as <-.
    + intros Hk. by exists m.
  - done.
  - done.
  - intros a b Ha Hb Hsub.
    assert (a ≠ b) as Hab by (intros ->; by apply (irreflexivity (⊂) _ Hsub)).
    destruct (Hin a Ha) as [[_ Hno]|(p & Hp & Hpin & Hpa & Hpsub)].
    + exfalso. apply (Hno b Hb); [done|]. by apply strict_include.
    + exists p. split; [done|]. intros Huniq. by apply Huniq.
  - intros a b Ha Hb Hdisj Hane Hbne.
    assert (¬ tokens_of store a ⊆ tokens_of store b) as Hab.
    { intros Hsub. by apply Hane, (disjoint_subseteq_empty _ (tokens_of store b)). }
    assert (¬ tokens_of store b ⊆ tokens_of store a) as Hba.
    { intros Hsub.
      by apply Hbne, (disjoint_subseteq_empty _ (tokens_of store a)). }
    split_and!.
    + intros Hp. by destruct (Hpar a b Hp) as (_ & _ & _ & ?).
    + intros Hp. by destruct (Hpar b a Hp) as (_ & _ & _ & ?).
    + intros Hca.
      destruct (Hin a Ha) as [[Hnone _]|(p & Hp & Hpin & Hpa & Hpsub)]; [done|].
      destruct (decide (p = b)) as [->|Hpb]; [done|]. by destruct (Hca p).
    + intros Hcb.
      destruct (Hin b Hb) as [[Hnone _]|(p & Hp & Hpin & Hpb & Hpsub)]; [done|].
      destruct (decide (p = a)) as [->|Hpa]; [done|]. by destruct (Hcb p).
Qed.

(** ** The constructor *)

(** *** What each stage leaves alone *)

(** Solves [inv P m] for a method built from the combinators, leaving the
    assignments. *)
Ltac inv_steps :=
  repeat match goal with
  | |- inv _ (mret _) => apply inv_ret
  | |- inv _ (lift _) => apply inv_lift
  | |- inv _ (getattr _ _) => apply inv_getattr
  | |- inv _ (for_enumerate _ _ _) => apply inv_for_enumerate; intros ? ?
  | |- inv _ (for_list _ _) => apply inv_for_list; intros ?
  | |- inv _ (_ ≫= _) => apply inv_bind; [|intros ?]
  | |- inv _ (assign _) => apply inv_assign
  | |- inv _ (if _ then _ else _) => case_decide
  | |- inv _ (match _ with _ => _ end) => case_match
  | |- _ => progress cbv beta zeta
  end.

Section frames.
Variable P : Standard → Prop.

Lemma loadTokens_inv filename :
  (∀ v s, P s → P (set_heap v s)) →
  (∀ v s, P s → P (set_tokens v s)) →
  (∀ v s, P s → P (set__token_dict v s)) →
  inv P (loadTokens fs filename).
Proof.
  intros Hh Ht Hd. unfold loadTokens, token_row, tokens_append.
  inv_steps; auto.
Qed.

Lemma loadSpans_inv filename :
  (∀ v s, P s → P (set_spans v s)) →
  (∀ v s, P s → P (set__span_dict v s)) →
  inv P (loadSpans fs filename).
Proof.
  intros Hs Hd. unfold loadSpans, span_line, spans_append, lookup_token.
  inv_steps; auto.
Qed.

Lemma loadMentions_inv filename :
  (∀ v s, P s → P (set_mentions v s)) →
  (∀ v s, P s → P (set__mention_dict v s)) →
  inv P (loadMentions fs filename).
Proof.
  intros Hs Hd. unfold loadMentions, mention_row, mentions_append.
  inv_steps; auto.
Qed.

Lemma coref_loop_inv raw_lines :
  (∀ v s, P s → P (set_entities v s)) →
  ∀ buffer, inv P (coref_loop buffer raw_lines).
Proof.
  intros He. induction raw_lines as [|raw rest IH]; intros buffer; simpl.
  - apply inv_ret.
  - apply inv_bind; [|intros b; apply IH].
    unfold coref_line, entities_append. inv_steps; auto.
Qed.

Lemma loadCoreference_inv filename :
  (∀ v s, P s → P (set_entities v s)) →
  inv P (loadCoreference fs filename).
Proof.
  intros He. unfold loadCoreference, entities_append.
  apply inv_bind; [apply inv_assign; auto|]. intros _.
  destruct (open fs filename); [apply inv_ret|].
  apply inv_bind; [apply inv_lift|]. intros content.
  apply inv_bind; [by apply coref_loop_inv|]. intros buffer.
  inv_steps; auto.
Qed.

Lemma loadText_inv filename :
  (∀ v s, P s → P (set_text v s)) →
  inv P (loadText fs filename).
Proof. intros Ht. unfold loadText. inv_steps; auto. Qed.

End frames.

(** *** What each stage sets *)

Lemma loadTokens_populates filename s s' :
  loadTokens fs filename s = (s', inr tt) → populated 0 s'.
Proof.
  intros (h & n & _ & _ & Ht & _ & Hd)%loadTokens_ok. split; [by rewrite Ht|done].
Qed.

Lemma loadSpans_populates filename s s' :
  loadSpans fs filename s = (s', inr tt) → populated 1 s'.
Proof.
  unfold loadSpans. rewrite bind_run. cbn [assign]. rewrite bind_run.
  unfold lift at 1. destruct (open fs filename) as [e|content]; [done|].
  rewrite bind_run. destruct (for_enumerate _ _ _ _) as [s1 [e|[]]]; [done|].
  rewrite bind_run. unfold getattr. destruct (spans s1) as [l|] eqn:Hl; [|done].
  cbn [assign]. intros [= <-]. simpl. by rewrite Hl.
Qed.

Lemma loadMentions_populates filename s s' :
  loadMentions fs filename s = (s', inr tt) → populated 2 s'.
Proof.
  unfold loadMentions. rewrite bind_run. cbn [assign]. rewrite bind_run.
  unfold lift at 1. destruct (open fs filename) as [e|content]; [done|].
  cbv zeta. rewrite bind_run.
  destruct (for_enumerate _ _ _ _) as [s1 [e|[]]]; [done|].
  rewrite bind_run. destruct (csv_reader _ _ _).2 as [e|]; [done|].
  cbn [mret M_ret]. rewrite bind_run. unfold getattr.
  destruct (mentions s1) as [l|] eqn:Hl; [|done].
  cbn [assign]. intros [= <-]. simpl. by rewrite Hl.
Qed.

Lemma loadCoreference_populates filename s : populated 3 (loadCoreference fs filename s).1.
Proof.
  pose proof (loadCoreference_inv (λ s, is_Some (entities s)) filename) as Hinv.
  unfold loadCoreference in *. rewrite bind_run. cbn [assign].
  match goal with
  | |- populated 3 (?m ?s0).1 =>
      cut (inv (λ s, is_Some (entities s)) m); [intros Hi; by apply Hi|]
  end.
  destruct (open fs filename); [apply inv_ret|].
  apply inv_bind; [apply inv_lift|]. intros content.
  apply inv_bind; [by apply coref_loop_inv|]. intros buffer.
  unfold entities_append. inv_steps; auto.
Qed.

Lemma loadText_populates filename s s' :
  loadText fs filename s = (s', inr tt) → populated 4 s'.
Proof.
  unfold loadText. rewrite bind_run. unfold lift.
  destruct (open fs filename) as [e|content]; [done|].
  cbn [assign]. intros [= <-]. simpl. by eexists.
Qed.

Lemma stages_populate full_name j stage s s' :
  stages fs full_name !! j = Some stage →
  stage s = (s', inr tt) → populated j s'.
Proof.
  destruct j as [|[|[|[|[|j]]]]]; simpl; try done; intros [= <-] Hrun.
  - by eapply loadTokens_populates.
  - by eapply loadSpans_populates.
  - by eapply loadMentions_populates.
  - pose proof (loadCoreference_populates (full_name +:+ ".coref") s) as Hp.
    by rewrite Hrun in Hp.
  - by eapply loadText_populates.
Qed.

Lemma stages_frame full_name i j stage s0 :
  stages fs full_name !! i = Some stage → i ≠ j → inv (agree j s0) stage.
Proof.
  destruct i as [|[|[|[|[|i]]]]]; simpl; try done; intros [= <-] Hij.
  - apply loadTokens_inv; by destruct j as [|[|[|[|[|j]]]]].
  - apply loadSpans_inv; by destruct j as [|[|[|[|[|j]]]]].
  - apply loadMentions_inv; by destruct j as [|[|[|[|[|j]]]]].
  - apply loadCoreference_inv; by destruct j as [|[|[|[|[|j]]]]].
  - apply loadText_inv; by destruct j as [|[|[|[|[|j]]]]].
Qed.

Lemma stages_no_name full_name :
  Forall (inv (λ s, name s = None)) (stages fs full_name).
Proof.
  repeat constructor.
  - by apply loadTokens_inv.
  - by apply loadSpans_inv.
  - by apply loadMentions_inv.
  - by apply loadCoreference_inv.
  - by apply loadText_inv.
Qed.

Lemma agree_refl j s : agree j s s.
Proof. by destruct j as [|[|[|[|[|j]]]]]. Qed.

Lemma agree_populated j s s' : agree j s s' → populated j s → populated j s'.
Proof.
  destruct j as [|[|[|[|[|j]]]]]; simpl; try done.
  - by intros (_ & -> & ->).
  - by intros (-> & ->).
  - by intros (-> & ->).
  - by intros ->.
  - by intros ->.
Qed.

(** *** Blocks of statements *)

Lemma block_app (l1 l2 : list (M unit)) s :
  block (l1 ++ l2) s
  = match block l1 s with
    | (s1, inr _) => block l2 s1
    | (s1, inl e) => (s1, inl e)
    end.
Proof.
  revert s. induction l1 as [|m l1 IH]; intros s; simpl; [done|].
  rewrite !bind_run. destruct (m s) as [s1 [e|[]]]; [done|]. apply IH.
Qed.

Lemma block_singleton (m : M unit) s s' :
  block [m] s = (s', inr tt) → m s = (s', inr tt).
Proof.
  simpl. rewrite bind_run. destruct (m s) as [s1 [e|[]]]; [done|]. by intros [= <-].
Qed.

(** The fields of a stage that has completed are set and stay as that
    stage left them until the end of the block, whatever its outcome. *)
Lemma completed_stage_kept full_name j s_j s r :
  block (take (S j) (stages fs full_name)) new_object = (s_j, inr tt) →
  block (stages fs full_name) new_object = (s, r) →
  populated j s ∧ agree j s_j s.
Proof.
  intros Hj Hall.
  assert (agree j s_j s) as Hagree.
  { rewrite <- (take_drop (S j) (stages fs full_name)) in Hall.
    rewrite block_app, Hj in Hall.
    assert (inv (agree j s_j) (block (drop (S j) (stages fs full_name)))) as Hinv.
    { apply inv_block, Forall_lookup_2. intros i stage Hi.
      rewrite lookup_drop in Hi. eapply stages_frame; [done|lia]. }
    specialize (Hinv s_j (agree_refl j s_j)). by rewrite Hall in Hinv. }
  split; [|done]. apply (agree_populated j s_j); [done|].
  destruct (stages fs full_name !! j) as [stage|] eqn:Hstage.
  - rewrite (take_S_r _ _ _ Hstage), block_app in Hj.
    destruct (block (take j (stages fs full_name)) new_object) as [s0 [e|[]]];
      [done|].
    apply block_singleton in Hj. by eapply stages_populate.
  - apply lookup_ge_None in Hstage. simpl in Hstage.
    by do 5 (destruct j as [|j]; [lia|]).
Qed.

Lemma issubclass_Exception e : issubclass (exn_cls e) Exception = true.
Proof. by destruct e as [[] msg]. Qed.

(** C1: no exception of a load stage reaches the caller of the constructor.
    When a stage raises, the stages before it having completed, the
    constructor returns the object as that stage left it, having printed
    the failure and the exception; the fields of every stage that completed
    are set and are as that stage left them. *)
Theorem init_catches (nm path : string) :
  propagated (__init__ fs nm path) = None ∧
  ∀ k stage s_k s' e,
    stages fs (Py.path_join path nm) !! k = Some stage →
    block (take k (stages fs (Py.path_join path nm))) new_object = (s_k, inr tt) →
    stage s_k = (s', inl e) →
    self (__init__ fs nm path) = s' ∧
    printed (__init__ fs nm path) = [failed_to_load nm; exn_msg e] ∧
    ∀ j, (j < k)%nat →
      ∃ s_j, block (take (S j) (stages fs (Py.path_join path nm))) new_object
             = (s_j, inr tt) ∧
             populated j s' ∧ agree j s_j s'.
Proof.
  split.
  { unfold __init__, try_except_Exception.
    destruct (load fs nm path new_object) as [s [e|[]]]; [|done].
    by rewrite issubclass_Exception. }
  intros k stage s_k s' e Hstage Hpre Hraise.
  set (l := stages fs (Py.path_join path nm)) in *.
  assert (block l new_object = (s', inl e)) as Hall.
  { rewrite <- (take_drop_middle l k stage Hstage), block_app, Hpre. simpl.
    by rewrite bind_run, Hraise. }
  split_and!.
  - unfold __init__, try_except_Exception, load. fold l.
    rewrite bind_run, Hall. by rewrite issubclass_Exception.
  - unfold __init__, try_except_Exception, load. fold l.
    rewrite bind_run, Hall. by rewrite issubclass_Exception.
  - intros j Hj.
    assert (take k l = take (S j) l ++ drop (S j) (take k l)) as Hsplit.
    { rewrite <- (take_drop (S j) (take k l)) at 1. f_equal.
      rewrite take_take. f_equal. lia. }
    rewrite Hsplit, block_app in Hpre.
    destruct (block (take (S j) l) new_object) as [s_j [e'|[]]] eqn:Hj'; [done|].
    exists s_j. split; [done|]. by eapply completed_stage_kept.
Qed.

(** C10: [name] is assigned when the five stages have completed, and only
    then: when a stage raises, the object the constructor leaves has no
    [name], while the fields of the stages that completed are set and are as
    those stages left them. *)
Theorem init_name (nm path : string) :
  (∀ s, block (stages fs (Py.path_join path nm)) new_object = (s, inr tt) →
        self (__init__ fs nm path) = set_name nm s ∧
        name (self (__init__ fs nm path)) = Some nm) ∧
  (∀ s e, block (stages fs (Py.path_join path nm)) new_object = (s, inl e) →
        self (__init__ fs nm path) = s ∧
        name (self (__init__ fs nm path)) = None ∧
        ∀ j s_j,
          block (take (S j) (stages fs (Py.path_join path nm))) new_object
          = (s_j, inr tt) →
          populated j s ∧ agree j s_j s).
Proof.
  split.
  - intros s Hall. unfold __init__, try_except_Exception, load.
    rewrite bind_run, Hall. by cbn [assign self].
  - intros s e Hall.
    assert (self (__init__ fs nm path) = s) as Hself.
    { unfold __init__, try_except_Exception, load.
      rewrite bind_run, Hall. by rewrite issubclass_Exception. }
    split_and!; [done| |].
    + rewrite Hself.
      pose proof (inv_block _ _ (stages_no_name (Py.path_join path nm))
                    new_object eq_refl) as Hn.
      by rewrite Hall in Hn.
    + intros j s_j Hj. by eapply completed_stage_kept.
Qed.

(** * Further properties of the loaders *)

(** ** loadText *)

Lemma join_empty_cons x l : Py.join EmptyString (x :: l) = x +:+ Py.join EmptyString l.
Proof. destruct l; simpl; [by rewrite append_nil_r|done]. Qed.

(** The lines of a text, put together again, are the text. *)
Lemma join_lines_go s : ∀ cur, Py.join EmptyString (Py.lines_go cur s) = cur +:+ s.
Proof.
  induction s as [|c s IH]; intros cur; cbn [Py.lines_go].
  - destruct cur; [done|]. by rewrite append_nil_r.
  - case_decide as Hc.
    + subst c. rewrite join_empty_cons, IH. by rewrite append_assoc.
    + rewrite IH. by rewrite append_assoc.
Qed.

(** X1: loadText assigns to [text] the content of the file as it is, every
    character of it, and nothing else; without the file it raises and leaves
    the object as it was. *)
Theorem loadText_content filename s :
  (∀ content, fs !! filename = Some content →
     loadText fs filename s = (set_text content s, inr tt)) ∧
  (fs !! filename = None →
     ∃ e, loadText fs filename s = (s, inl e) ∧ exn_cls e = OSError).
Proof.
  split.
  - intros content Hf. unfold loadText, open. rewrite Hf, bind_run. cbn [lift assign].
    unfold Py.lines. by rewrite join_lines_go.
  - intros Hf. unfold loadText, open. rewrite Hf, bind_run. cbn [lift raise].
    by eexists.
Qed.

(** ** Dictionaries built from a list *)

Section dict.
Context {A : Type} (key : A → Z).

Lemma dict_foldl_other (l : list A) (k : Z) : ∀ d : gmap Z A,
  Forall (λ x, key x ≠ k) l →
  foldl (λ d x, <[key x := x]> d) d l !! k = d !! k.
Proof.
  induction l as [|x l IH]; intros d Hl; simpl; [done|].
  apply Forall_cons in Hl as [Hx Hl]. rewrite IH by done. by rewrite lookup_insert_ne.
Qed.

(** A later element replaces an earlier one with the same key. *)
Lemma dict_foldl_last (l1 l2 : list A) (x : A) (d : gmap Z A) :
  Forall (λ y, key y ≠ key x) l2 →
  foldl (λ d x, <[key x := x]> d) d (l1 ++ x :: l2) !! key x = Some x.
Proof.
  intros Hl2. rewrite foldl_app. simpl.
  rewrite dict_foldl_other by done. apply lookup_insert_eq.
Qed.

Lemma dict_foldl_elem (l : list A) (k : Z) (x : A) : ∀ d : gmap Z A,
  foldl (λ d x, <[key x := x]> d) d l !! k = Some x →
  (x ∈ l ∧ key x = k) ∨ d !! k = Some x.
Proof.
  induction l as [|y l IH]; intros d; simpl; [by right|].
  intros [[Hin Hk]|Hd]%IH.
  - left. split; [by right|done].
  - destruct (decide (key y = k)) as [<-|Hne].
    + rewrite lookup_insert_eq in Hd. injection Hd as <-. left. split; [by left|done].
    + rewrite lookup_insert_ne in Hd by done. by right.
Qed.

Lemma dict_foldl_is_Some (l : list A) (k : Z) : ∀ d : gmap Z A,
  is_Some (d !! k) ∨ (∃ x, x ∈ l ∧ key x = k) →
  is_Some (foldl (λ d x, <[key x := x]> d) d l !! k).
Proof.
  induction l as [|y l IH]; intros d; simpl.
  - intros [Hd|(x & Hx & _)]; [done|by apply elem_of_nil in Hx].
  - intros Hcase. apply IH. destruct (decide (key y = k)) as [<-|Hne].
    + left. rewrite lookup_insert_eq. by eexists.
    + rewrite lookup_insert_ne by done.
      destruct Hcase as [Hd|(x & [->|Hx]%elem_of_cons & Hk)]; [by left|done|].
      right. by exists x.
Qed.

End dict.

(** ** loadTokens, further *)

(** A call of loadTokens that returns, step by step. *)
Lemma loadTokens_success filename s s' :
  loadTokens fs filename s = (s', inr tt) →
  ∃ content s1 toks1,
    fs !! filename = Some content ∧
    (csv_reader DEFAULT_DELIMITER QUOTECHAR content).2 = None ∧
    for_enumerate (token_row filename) 0
      (csv_reader DEFAULT_DELIMITER QUOTECHAR content).1 (set_tokens [] s)
    = (s1, inr tt) ∧
    tokens s1 = Some toks1 ∧
    s' = set_heap (link_tokens (Py.sorted (tok_start (heap s1)) toks1) (heap s1))
           (set_tokens (Py.sorted (tok_start (heap s1)) toks1)
              (set__token_dict (foldl (λ d a, <[tok_id (heap s1) a := a]> d) ∅ toks1) s1)).
Proof.
  unfold loadTokens. rewrite bind_run. cbn [assign]. rewrite bind_run.
  unfold lift at 1, open. destruct (fs !! filename) as [content|] eqn:Hf; [|done].
  cbv zeta. rewrite bind_run.
  destruct (for_enumerate _ _ _ _) as [s1 [e|[]]] eqn:Hloop; [done|].
  rewrite bind_run.
  destruct (csv_reader DEFAULT_DELIMITER QUOTECHAR content).2 as [e|] eqn:Hend; [done|].
  cbn [mret M_ret]. rewrite bind_run. unfold getattr at 1.
  destruct (tokens s1) as [toks1|] eqn:Ht; [|done].
  rewrite bind_run. cbn [assign]. rewrite bind_run. cbn [assign].
  rewrite bind_run. unfold getattr. cbn [tokens set_tokens set__token_dict heap].
  cbn [assign]. intros [= <-]. by exists content, s1, toks1.
Qed.

Lemma created_start s : created (length (heap s)) 0 (set_tokens [] s).
Proof. split; simpl; [done|lia]. Qed.

Lemma token_row_created filename index line base n s s' :
  created base n s →
  token_row filename index line s = (s', inr tt) →
  created base (n + length (filter (λ row, row ≠ []) [line])) s' ∧
  (line = [] ∨ Z.of_nat (length line) = TOKEN_LINE_LENGTH).
Proof.
  intros [Ht Hl]. unfold token_row. case_decide as Hz.
  - apply nil_length_inv in Hz. subst line. intros [= <-].
    rewrite filter_cons_False by (by intros ?). simpl.
    rewrite Nat.add_0_r. split; [done|by left].
  - case_decide as Hlen; [done|]. rewrite bind_run. unfold lift.
    destruct (Token_init line) as [e|t]; [done|].
    unfold tokens_append. rewrite bind_run. unfold getattr. rewrite Ht.
    cbn [assign]. intros [= <-].
    rewrite filter_cons_True by (by intros ->). simpl. split; [|right; lia].
    split; cbn [tokens heap set_tokens set_heap].
    + rewrite Hl, Nat.add_1_r. by rewrite seq_S.
    + rewrite length_app. simpl. lia.
Qed.

Lemma token_rows_created filename rows : ∀ index base n s s',
  created base n s →
  for_enumerate (token_row filename) index rows s = (s', inr tt) →
  created base (n + length (filter (λ row, row ≠ []) rows)) s' ∧
  Forall (λ row, row = [] ∨ Z.of_nat (length row) = TOKEN_LINE_LENGTH) rows.
Proof.
  induction rows as [|row rows IH]; intros index base n s s' Hs; simpl.
  - intros [= <-]. cbn. by rewrite Nat.add_0_r.
  - rewrite bind_run.
    destruct (token_row filename index row s) as [s1 [e|[]]] eqn:Hrow; [done|].
    intros Hrest.
    destruct (token_row_created _ _ _ _ _ _ _ Hs Hrow) as [Hs1 Hlen].
    destruct (IH _ _ _ _ _ Hs1 Hrest) as [Hs' Hall].
    split; [|by constructor].
    replace (n + length (filter (λ r, r ≠ []) (row :: rows)))%nat
      with (n + length (filter (λ r, r ≠ []) [row])
              + length (filter (λ r, r ≠ []) rows))%nat; [done|].
    rewrite (filter_app _ [row] rows), length_app. lia.
Qed.

(** X2: loadTokens makes one token of every row that is not empty: when it
    returns, every such row had the configured number of fields and the
    tokens are as many as these rows. *)
Theorem loadTokens_one_per_row filename content s s' toks :
  loadTokens fs filename s = (s', inr tt) →
  fs !! filename = Some content →
  tokens s' = Some toks →
  length toks = length (token_rows content) ∧
  Forall (λ row, row = [] ∨ Z.of_nat (length row) = TOKEN_LINE_LENGTH)
    (csv_reader DEFAULT_DELIMITER QUOTECHAR content).1.
Proof.
  intros (content' & s1 & toks1 & Hf & _ & Hloop & Ht1 & ->)%loadTokens_success Hf' Ht.
  rewrite Hf in Hf'. injection Hf' as ->. cbn [tokens set_heap set_tokens] in Ht.
  injection Ht as <-.
  destruct (token_rows_created _ _ 0%nat (length (heap s)) 0%nat _ _
              (created_start s) Hloop) as [[Ht Hl] Hall].
  split; [|done]. rewrite Ht1 in Ht. injection Ht as ->.
  rewrite (Permutation_length (sorted_perm _ _)). by rewrite length_seq.
Qed.

(** X3: a row that is not empty and has not the configured number of
    fields makes loadTokens raise an Exception that cites the index of the
    row, the empty rows before it counted, and the file; the tokens of the
    rows before stay in [tokens], and [_token_dict] is not assigned. *)
Theorem loadTokens_wrong_length filename content pre line post s s1 :
  fs !! filename = Some content →
  (csv_reader DEFAULT_DELIMITER QUOTECHAR content).1 = pre ++ line :: post →
  for_enumerate (token_row filename) 0 pre (set_tokens [] s) = (s1, inr tt) →
  line ≠ [] →
  Z.of_nat (length line) ≠ TOKEN_LINE_LENGTH →
  loadTokens fs filename s
  = (s1, inl (Raise Exception (wrong_length filename (length pre)))) ∧
  _token_dict s1 = _token_dict s ∧
  tokens s1 = Some (seq (length (heap s)) (length (filter (λ row, row ≠ []) pre))).
Proof.
  intros Hf Hrows Hpre Hne Hlen. split_and!.
  - unfold loadTokens. rewrite bind_run. cbn [assign]. rewrite bind_run.
    unfold lift at 1, open. rewrite Hf. cbv zeta. rewrite bind_run, Hrows.
    rewrite (for_enumerate_raise _ pre line post _ s1 s1
               (Raise Exception (wrong_length filename (length pre)))); [done..|].
    unfold token_row. rewrite decide_False.
    2:{ intros Hz. by apply nil_length_inv in Hz. }
    by rewrite decide_True.
  - pose proof (inv_for_enumerate (λ s', _token_dict s' = _token_dict s)
                  (token_row filename) 0 pre) as Hinv.
    specialize (Hinv ltac:(intros; unfold token_row, tokens_append; inv_steps; auto)
                  (set_tokens [] s) eq_refl).
    by rewrite Hpre in Hinv.
  - destruct (token_rows_created _ _ 0%nat (length (heap s)) 0%nat _ _
                (created_start s) Hpre) as [[Ht _] _].
    done.
Qed.

(** *** The token dictionary *)

Lemma linked_id toks i t : Token.id (linked toks i t) = Token.id t.
Proof. unfold linked. repeat case_decide; repeat case_match; done. Qed.

Lemma link_tokens_id toks h a :
  NoDup toks → tok_id (link_tokens toks h) a = tok_id h a.
Proof.
  intros Hnd. unfold tok_id. destruct (decide (a ∈ toks)) as [Hin|Hin].
  - apply list_elem_of_lookup in Hin as [k Hk].
    rewrite (link_tokens_lookup toks k) by done.
    destruct (h !! a); simpl; [apply linked_id|done].
  - unfold link_tokens. by rewrite link_from_other.
Qed.

(** What follows an address in a run of addresses is greater. *)
Lemma seq_split_lt base n l1 a l2 :
  seq base n = l1 ++ a :: l2 → Forall (λ b, a < b)%nat l2.
Proof.
  intros Heq. apply Forall_lookup_2. intros j b Hb.
  assert (seq base n !! length l1 = Some a) as Ha.
  { rewrite Heq. by rewrite lookup_app_r, Nat.sub_diag by lia. }
  assert (seq base n !! (length l1 + S j)%nat = Some b) as Hb'.
  { rewrite Heq, lookup_app_r by lia.
    by replace (length l1 + S j - length l1)%nat with (S j) by lia. }
  apply lookup_seq in Ha, Hb'. lia.
Qed.

Lemma token_dict_contents filename s s' toks d :
  loadTokens fs filename s = (s', inr tt) →
  tokens s' = Some toks →
  _token_dict s' = Some d →
  (∀ i a, d !! i = Some a → a ∈ toks ∧ tok_id (heap s') a = i) ∧
  (∀ a, a ∈ toks → is_Some (d !! tok_id (heap s') a)) ∧
  (∀ a, a ∈ toks →
     (∀ b, b ∈ toks → tok_id (heap s') b = tok_id (heap s') a → (b ≤ a)%nat) →
     d !! tok_id (heap s') a = Some a).
Proof.
  intros Hrun Ht Hd.
  pose proof Hrun as (content & s1 & toks1 & Hf & _ & Hloop & Ht1 & ->)%loadTokens_success.
  cbn [tokens _token_dict heap set_heap set_tokens set__token_dict] in *.
  injection Ht as <-. injection Hd as <-.
  destruct (token_rows_created _ _ 0%nat (length (heap s)) 0%nat _ _
              (created_start s) Hloop) as [[Hseq _] _].
  rewrite Ht1 in Hseq. injection Hseq as ->. simpl.
  set (n := length (filter _ _)). set (base := length (heap s)).
  set (h := heap s1).
  assert (Py.sorted (tok_start h) (seq base n) ≡ₚ seq base n) as Hperm
    by apply sorted_perm.
  assert (NoDup (Py.sorted (tok_start h) (seq base n))) as Hnd
    by (rewrite Hperm; apply NoDup_seq).
  assert (∀ a, tok_id (link_tokens (Py.sorted (tok_start h) (seq base n)) h) a
               = tok_id h a) as Hid by (intros; by apply link_tokens_id).
  assert (∀ a, a ∈ Py.sorted (tok_start h) (seq base n) ↔ a ∈ seq base n) as Hmem
    by (intros; by rewrite Hperm).
  split_and!.
  - intros i a [[Hin Hk]|Hempty]%dict_foldl_elem; [|done].
    split; [by apply Hmem|by rewrite Hid].
  - intros a Ha%Hmem. rewrite Hid.
    apply dict_foldl_is_Some. right. by exists a.
  - intros a Ha%Hmem Hlast. rewrite Hid.
    apply list_elem_of_split in Ha as (l1 & l2 & Heq). rewrite Heq.
    apply (dict_foldl_last (tok_id h)).
    pose proof (seq_split_lt _ _ _ _ _ Heq) as Hlt.
    rewrite Forall_forall in Hlt. apply Forall_forall. intros b Hb Hsame.
    specialize (Hlt b Hb).
    assert (b ≤ a)%nat; [|lia]. apply Hlast.
    + apply Hmem. rewrite Heq. apply elem_of_app. right. by right.
    + by rewrite !Hid.
Qed.

(** X4: after loadTokens, [_token_dict] holds under every key a token of
    [tokens] with that id, and has a key for the id of every token; under
    the id of a token it holds that token when no token later in the file
    has the same id (the addresses are in the order of the file). *)
Theorem loadTokens_dict filename s s' toks d :
  loadTokens fs filename s = (s', inr tt) →
  tokens s' = Some toks →
  _token_dict s' = Some d →
  (∀ i a, d !! i = Some a → a ∈ toks ∧ tok_id (heap s') a = i) ∧
  (∀ a, a ∈ toks → is_Some (d !! tok_id (heap s') a)) ∧
  (∀ a, a ∈ toks →
     (∀ b, b ∈ toks → tok_id (heap s') b = tok_id (heap s') a → (b ≤ a)%nat) →
     d !! tok_id (heap s') a = Some a).
Proof. apply token_dict_contents. Qed.

(** *** The order of equal start offsets *)

Lemma insert_by_stable (key : nat → Z) x l :
  Forall (λ y, x < y)%nat l →
  StronglySorted (λ a b, key a < key b ∨ (key a = key b ∧ (a < b)%nat)) l →
  StronglySorted (λ a b, key a < key b ∨ (key a = key b ∧ (a < b)%nat))
    (Py.insert_by key x l).
Proof.
  intros Hx Hl. induction Hl as [|y l Hl IH Hy]; simpl.
  - by repeat constructor.
  - apply Forall_cons in Hx as [Hxy Hx].
    destruct (Z.leb_spec (key x) (key y)).
    + constructor; [by constructor|]. constructor; [lia|].
      rewrite Forall_forall in Hx, Hy. apply Forall_forall. intros z Hz.
      specialize (Hx z Hz). specialize (Hy z Hz). lia.
    + constructor; [by apply IH|]. rewrite insert_by_perm. constructor; [lia|done].
Qed.

Lemma sorted_stable (key : nat → Z) l :
  StronglySorted (λ a b, a < b)%nat l →
  StronglySorted (λ a b, key a < key b ∨ (key a = key b ∧ (a < b)%nat))
    (Py.sorted key l).
Proof.
  induction 1 as [|x l Hl IH Hx]; simpl; [constructor|].
  apply insert_by_stable; [|done]. fold (Py.sorted key l). by rewrite sorted_perm.
Qed.

Lemma seq_ascending base n : StronglySorted (λ a b, a < b)%nat (seq base n).
Proof.
  revert base. induction n as [|n IH]; intros base; simpl; constructor; [apply IH|].
  apply Forall_forall. intros b Hb%elem_of_seq. lia.
Qed.

Lemma StronglySorted_lookup_lt {A} (R : relation A) l :
  StronglySorted R l →
  ∀ i j a b, (i < j)%nat → l !! i = Some a → l !! j = Some b → R a b.
Proof.
  induction 1 as [|x l Hl IH Hx]; intros i j a b Hij Ha Hb; [done|].
  destruct i as [|i], j as [|j]; simpl in *; try lia.
  - simplify_eq. rewrite Forall_forall in Hx. apply Hx.
    by eapply list_elem_of_lookup_2.
  - eapply IH; [|done..]. lia.
Qed.

(** X5: the sort of loadTokens is stable: of two tokens with the same start
    offset the one that comes first in the file comes first in [tokens]. *)
Theorem loadTokens_stable filename s s' toks :
  loadTokens fs filename s = (s', inr tt) →
  tokens s' = Some toks →
  ∀ i j a b, (i < j)%nat → toks !! i = Some a → toks !! j = Some b →
             tok_start (heap s') a = tok_start (heap s') b → (a < b)%nat.
Proof.
  intros (h & n & _ & _ & Ht & Hh & _)%loadTokens_ok Htoks i j a b Hij Ha Hb Hstart.
  rewrite Ht in Htoks. injection Htoks as <-.
  assert (NoDup (Py.sorted (tok_start h) (seq (length (heap s)) n))) as Hnd
    by (rewrite sorted_perm; apply NoDup_seq).
  rewrite Hh, !link_tokens_start in Hstart by done.
  pose proof (StronglySorted_lookup_lt _ _
                (sorted_stable (tok_start h) _ (seq_ascending (length (heap s)) n))
                i j a b Hij Ha Hb) as [Hlt|[_ Hlt]]; [lia|done].
Qed.

(** X6: the links of loadTokens go both ways: a token's [next] is [b]
    exactly when [b]'s [prev] is that token, and a token does not start
    after its [next]. *)
Theorem loadTokens_links_inverse filename s s' toks :
  loadTokens fs filename s = (s', inr tt) →
  tokens s' = Some toks →
  ∀ a b, a ∈ toks → b ∈ toks →
    (next_of (heap s') a = Some b ↔ prev_of (heap s') b = Some a) ∧
    (next_of (heap s') a = Some b → tok_start (heap s') a ≤ tok_start (heap s') b).
Proof.
  intros Hrun Htoks a b Ha Hb.
  destruct (loadTokens_links _ _ _ _ Hrun Htoks) as (Hnd & Hsorted & Hch).
  apply list_elem_of_lookup in Ha as [i Hi]. apply list_elem_of_lookup in Hb as [j Hj].
  destruct (Hch i a Hi) as [_ Hnext]. destruct (Hch j b Hj) as [Hprev _].
  split; [split|].
  - rewrite Hnext. intros Hi1. destruct (Hch (i + 1)%nat b Hi1) as [-> _].
    rewrite decide_False by lia. by replace (i + 1 - 1)%nat with i by lia.
  - rewrite Hprev. case_decide; [done|]. intros Hj1.
    destruct (Hch (j - 1)%nat a Hj1) as [_ ->].
    by replace (j - 1 + 1)%nat with j by lia.
  - rewrite Hnext. intros Hi1. apply (Hsorted i (i + 1)%nat); [lia|done..].
Qed.

(** ** loadSpans, further *)

Lemma remove_char_occurs s : Py.occurs Py.nl (Py.remove_char "010"%char s) = false.
Proof.
  induction s as [|a s IH]; simpl; [done|].
  case_decide as Ha; [done|]. simpl. rewrite IH.
  by destruct (decide ("010"%char = a)) as [<-|].
Qed.

Lemma lookup_token_ok x s a :
  lookup_token x s = (s, inr a) → ∃ d, _token_dict s = Some d ∧ d !! x = Some a.
Proof.
  unfold lookup_token. rewrite bind_run. unfold getattr.
  destruct (_token_dict s) as [d|]; [|done].
  destruct (d !! x) as [a'|] eqn:Hx; [|done]. intros [= <-]. by exists d.
Qed.

Lemma for_list_lookup_token_ok ids : ∀ s toks,
  for_list lookup_token ids s = (s, inr toks) →
  Forall2 (λ x a, ∃ d, _token_dict s = Some d ∧ d !! x = Some a) ids toks.
Proof.
  induction ids as [|x ids IH]; intros s toks; simpl.
  - intros [= <-]. constructor.
  - rewrite bind_run. destruct (lookup_token x s) as [s1 [e|a]] eqn:Hx; [done|].
    pose proof (lookup_token_state x s) as Hs1. rewrite Hx in Hs1. simpl in Hs1.
    subst s1. rewrite bind_run.
    destruct (for_list lookup_token ids s) as [s2 [e|toks']] eqn:Hrest; [done|].
    pose proof (for_list_lookup_token_state ids s) as Hs2. rewrite Hrest in Hs2.
    simpl in Hs2. subst s2. intros [= <-].
    constructor; [by apply lookup_token_ok|by apply IH].
Qed.

(** A line that loads: what the body of the loop has read and appended. *)
Lemma span_line_ok filename index line s s' :
  span_line filename index line s = (s', inr tt) →
  line ≠ EmptyString →
  ∃ l r fl hdr fr ids toks spans0,
    py_split line SPAN_FILE_SEPARATOR = inr [l; r] ∧
    nonempty_fields <$> py_split l DEFAULT_DELIMITER = inr fl ∧
    Span_init fl = inr hdr ∧
    nonempty_fields <$> py_split r DEFAULT_DELIMITER = inr fr ∧
    comprehension py_int (Py.take (Span.ntokens hdr) fr) = inr ids ∧
    for_list lookup_token ids s = (s, inr toks) ∧
    spans s = Some spans0 ∧
    s' = set_spans
           (spans0 ++
            [Span.set_text
               (Py.remove_char "010"%char (Py.join " " (Py.drop (Span.ntokens hdr) fr)))
               (Span.set_tokens toks hdr)]) s.
Proof.
  intros Hrun Hline. unfold span_line in Hrun.
  rewrite decide_False in Hrun by (by rewrite length_zero).
  rewrite bind_run in Hrun. unfold lift in Hrun.
  destruct (py_split line _) as [e|parts] eqn:Hparts; [done|].
  destruct parts as [|l [|r [|]]]; try done.
  rewrite bind_run in Hrun.
  destruct (nonempty_fields <$> py_split l _) as [e|fl] eqn:Hfl; [done|].
  case_decide; [done|]. rewrite bind_run in Hrun.
  destruct (Span_init fl) as [e|hdr] eqn:Hhdr; [done|]. rewrite bind_run in Hrun.
  destruct (nonempty_fields <$> py_split r _) as [e|fr] eqn:Hfr; [done|].
  case_decide; [done|]. rewrite bind_run in Hrun.
  destruct (comprehension _ _) as [e|ids] eqn:Hids; [done|]. rewrite bind_run in Hrun.
  destruct (for_list lookup_token ids s) as [s1 [e|toks]] eqn:Hfl'; [done|].
  pose proof (for_list_lookup_token_state ids s) as Hst.
  rewrite Hfl' in Hst. simpl in Hst. subst s1.
  unfold spans_append in Hrun. rewrite bind_run in Hrun. unfold getattr in Hrun.
  destruct (spans s) as [spans0|] eqn:Hsp; [|done]. cbn [assign] in Hrun.
  injection Hrun as <-. by exists l, r, fl, hdr, fr, ids, toks, spans0.
Qed.

Lemma span_line_sound d0 filename index line :
  inv (spans_sound d0) (span_line filename index line).
Proof.
  intros s [Hd Hs].
  destruct (span_line filename index line s) as [s' [e|[]]] eqn:Hrun.
  - assert (s' = s) as ->; [|done].
    revert Hrun. unfold span_line. case_decide; [by intros [= <-]|].
    rewrite bind_run. unfold lift. destruct (py_split _ _) as [e'|parts]; [by intros [= <-]|].
    destruct parts as [|l [|r [|]]]; try by intros [= <-].
    rewrite bind_run.
    destruct (nonempty_fields <$> py_split l _) as [e'|fl]; [by intros [= <-]|].
    case_decide; [by intros [= <-]|]. rewrite bind_run.
    destruct (Span_init fl) as [e'|hdr]; [by intros [= <-]|]. rewrite bind_run.
    destruct (nonempty_fields <$> py_split r _) as [e'|fr]; [by intros [= <-]|].
    case_decide; [by intros [= <-]|]. rewrite bind_run.
    destruct (comprehension _ _) as [e'|ids]; [by intros [= <-]|]. rewrite bind_run.
    destruct (for_list lookup_token ids s) as [s1 [e'|toks]] eqn:Hfl'.
    { pose proof (for_list_lookup_token_state ids s) as Hst.
      rewrite Hfl' in Hst. simpl in Hst. subst s1. by intros [= <-]. }
    pose proof (for_list_lookup_token_state ids s) as Hst.
    rewrite Hfl' in Hst. simpl in Hst. subst s1.
    unfold spans_append. rewrite bind_run. unfold getattr.
    destruct (spans s); [done|]. by intros [= <-].
  - destruct (decide (line = EmptyString)) as [->|Hline].
    { unfold span_line in Hrun. simpl in Hrun. by injection Hrun as <-. }
    destruct (span_line_ok _ _ _ _ _ Hrun Hline)
      as (l & r & fl & hdr & fr & ids & toks & spans0 & _ & _ & _ & _ & _ &
          Htoks & Hsp & ->).
    split; [done|]. simpl. intros l' [= <-]. apply Forall_app. split; [by apply Hs|].
    apply Forall_singleton. split; simpl; [apply remove_char_occurs|].
    intros a Ha. apply for_list_lookup_token_ok in Htoks.
    apply list_elem_of_lookup in Ha as [k Hk].
    destruct (Forall2_lookup_r _ _ _ _ _ Htoks Hk) as (z & _ & d & Hd' & Hz).
    exists d, z. split; [congruence|done].
Qed.

Lemma loadSpans_sound filename s :
  spans_sound (_token_dict s) (loadSpans fs filename s).1.
Proof.
  unfold loadSpans. rewrite bind_run. cbn [assign].
  match goal with
  | |- spans_sound ?d0 (?m ?s0).1 =>
      cut (inv (spans_sound d0) m);
      [intros Hi; apply Hi; split; [done|intros l [= <-]; constructor]|]
  end.
  apply inv_bind; [apply inv_lift|]. intros content.
  apply inv_bind.
  { apply inv_for_enumerate. intros. apply span_line_sound. }
  intros _. apply inv_bind; [apply inv_getattr|]. intros l.
  apply inv_assign. done.
Qed.

(** X7: the text of every span that loadSpans leaves in [spans] holds no
    newline, whether the call returns or raises. *)
Theorem loadSpans_text_one_line filename s l :
  spans (loadSpans fs filename s).1 = Some l →
  Forall (λ sp, Py.occurs Py.nl (Span.text sp) = false) l.
Proof.
  intros Hl. destruct (loadSpans_sound filename s) as [_ Hs].
  eapply Forall_impl; [by apply Hs|]. by intros sp [? _].
Qed.

(** X8: every token of every span that loadSpans leaves in [spans] is a
    token that [_token_dict] holds: no span refers to a token that
    loadTokens has not registered. *)
Theorem loadSpans_tokens_registered filename s l :
  spans (loadSpans fs filename s).1 = Some l →
  ∀ sp a, sp ∈ l → a ∈ Span.tokens sp →
          ∃ d z, _token_dict s = Some d ∧ d !! z = Some a.
Proof.
  intros Hl sp a Hsp Ha. destruct (loadSpans_sound filename s) as [_ Hs].
  specialize (Hs l Hl). rewrite Forall_forall in Hs.
  destruct (Hs sp Hsp) as [_ Htoks]. by apply Htoks.
Qed.

(** The loop over lines that load appends one span for each. *)
Lemma span_lines_appended filename lines : ∀ index s s' l0,
  Forall (λ line, line ≠ EmptyString) lines →
  spans s = Some l0 →
  for_enumerate (span_line filename) index lines s = (s', inr tt) →
  ∃ new, spans s' = Some (l0 ++ new) ∧ length new = length lines.
Proof.
  induction lines as [|line lines IH]; intros index s s' l0 Hne Hl0; simpl.
  - intros [= <-]. exists []. by rewrite app_nil_r.
  - apply Forall_cons in Hne as [Hline Hne]. rewrite bind_run.
    destruct (span_line filename index line s) as [s1 [e|[]]] eqn:Hrun; [done|].
    intros Hrest.
    destruct (span_line_ok _ _ _ _ _ Hrun Hline)
      as (l & r & fl & hdr & fr & ids & toks & spans0 & _ & _ & _ & _ & _ & _ &
          Hsp & ->).
    rewrite Hl0 in Hsp. injection Hsp as <-.
    edestruct IH as (new & Hnew & Hlen); [exact Hne| |exact Hrest|]; [reflexivity|].
    eexists (_ :: new). rewrite Hnew, <- app_assoc. split; [done|]. simpl. by rewrite Hlen.
Qed.

(** A call of loadSpans that returns, step by step. *)
Lemma loadSpans_success filename s s' :
  loadSpans fs filename s = (s', inr tt) →
  ∃ content s1 l,
    fs !! filename = Some content ∧
    for_enumerate (span_line filename) 0 (Py.lines content) (set_spans [] s)
    = (s1, inr tt) ∧
    spans s1 = Some l ∧
    s' = set__span_dict (foldl (λ d x, <[Span.id x := x]> d) ∅ l) s1.
Proof.
  unfold loadSpans. rewrite bind_run. cbn [assign]. rewrite bind_run.
  unfold lift at 1, open. destruct (fs !! filename) as [content|] eqn:Hf; [|done].
  rewrite bind_run. destruct (for_enumerate _ _ _ _) as [s1 [e|[]]] eqn:Hloop; [done|].
  rewrite bind_run. unfold getattr. destruct (spans s1) as [l|] eqn:Hl; [|done].
  cbn [assign]. intros [= <-]. by exists content, s1, l.
Qed.

(** X9: loadSpans makes one span of every line of the file, none skipped:
    when it returns, [spans] has as many spans as the file has lines. *)
Theorem loadSpans_one_per_line filename content s s' l :
  loadSpans fs filename s = (s', inr tt) →
  fs !! filename = Some content →
  spans s' = Some l →
  length l = length (Py.lines content).
Proof.
  intros (content' & s1 & l' & Hf & Hloop & Hl' & ->)%loadSpans_success Hf' Hl.
  rewrite Hf in Hf'. injection Hf' as ->. simpl in Hl. rewrite Hl' in Hl.
  injection Hl as ->.
  destruct (span_lines_appended filename (Py.lines content) 0 (set_spans [] s) s1 [])
    as (new & Hnew & Hlen); [|done|done|].
  - apply Forall_forall. intros line Hin. by eapply lines_go_nonempty.
  - rewrite Hl' in Hnew. by injection Hnew as ->.
Qed.

(** X10: after loadSpans, [_span_dict] holds under every key a span of
    [spans] with that id, and has a key for the id of every span; under the
    id of a span it holds that span when no span after it has the same
    id. *)
Theorem loadSpans_dict filename s s' l d :
  loadSpans fs filename s = (s', inr tt) →
  spans s' = Some l →
  _span_dict s' = Some d →
  (∀ k sp, d !! k = Some sp → sp ∈ l ∧ Span.id sp = k) ∧
  (∀ sp, sp ∈ l → is_Some (d !! Span.id sp)) ∧
  (∀ l1 sp l2, l = l1 ++ sp :: l2 →
     Forall (λ y, Span.id y ≠ Span.id sp) l2 → d !! Span.id sp = Some sp).
Proof.
  intros (content & s1 & l' & _ & _ & Hl' & ->)%loadSpans_success Hl Hd.
  simpl in Hl, Hd. rewrite Hl' in Hl. injection Hl as ->. injection Hd as <-.
  split_and!.
  - intros k sp [Hin|Hempty]%dict_foldl_elem; done.
  - intros sp Hsp. apply dict_foldl_is_Some. right. by exists sp.
  - intros l1 sp l2 -> Hl2. by apply (dict_foldl_last Span.id).
Qed.

Lemma for_list_lookup_token_missing d ok z rest s :
  _token_dict s = Some d →
  Forall (λ y, is_Some (d !! y)) ok →
  d !! z = None →
  for_list lookup_token (ok ++ z :: rest) s = (s, inl (Raise KeyError (pretty z))).
Proof.
  intros Hd Hok Hz. induction Hok as [|y ok [a Hy] _ IH]; simpl.
  - rewrite bind_run. unfold lookup_token at 1. rewrite bind_run. unfold getattr.
    by rewrite Hd, Hz.
  - rewrite bind_run. unfold lookup_token at 1. rewrite bind_run. unfold getattr.
    rewrite Hd, Hy. cbn [mret M_ret]. by rewrite bind_run, IH.
Qed.

(** X11: a span record that is well formed and lists the id of a token that
    [_token_dict] does not hold makes loadSpans raise the KeyError of the
    first such id; the spans of the lines before stay in [spans]. *)
Theorem loadSpans_unknown_token filename content pre line post s s1
    l r fl hdr fr d ok z rest :
  fs !! filename = Some content →
  Py.lines content = pre ++ line :: post →
  for_enumerate (span_line filename) 0 pre (set_spans [] s) = (s1, inr tt) →
  py_split line SPAN_FILE_SEPARATOR = inr [l; r] →
  nonempty_fields <$> py_split l DEFAULT_DELIMITER = inr fl →
  (6 ≤ length fl)%nat →
  Span_init fl = inr hdr →
  nonempty_fields <$> py_split r DEFAULT_DELIMITER = inr fr →
  Z.of_nat (length fr) = 2 * Span.ntokens hdr →
  comprehension py_int (Py.take (Span.ntokens hdr) fr) = inr (ok ++ z :: rest) →
  _token_dict s1 = Some d →
  Forall (λ y, is_Some (d !! y)) ok →
  d !! z = None →
  loadSpans fs filename s = (s1, inl (Raise KeyError (pretty z))).
Proof.
  intros Hf Hl Hpre Hsplit Hfl Hlen Hhdr Hfr Hcount Hids Hd Hok Hz.
  eapply loadSpans_raises; [done..|].
  assert (line ≠ EmptyString) as Hline.
  { eapply lines_go_nonempty. unfold Py.lines in Hl. rewrite Hl.
    apply elem_of_app. right. by left. }
  unfold span_line. rewrite decide_False by (by rewrite length_zero).
  rewrite bind_run. cbn [lift]. rewrite Hsplit. rewrite bind_run. cbn [lift].
  rewrite Hfl. rewrite decide_False by lia. rewrite bind_run. cbn [lift].
  rewrite Hhdr. rewrite bind_run. cbn [lift]. rewrite Hfr.
  rewrite decide_False by (by intros ?). rewrite bind_run. cbn [lift].
  rewrite Hids. rewrite bind_run.
  by rewrite (for_list_lookup_token_missing d ok z rest s1).
Qed.

(** ** loadMentions *)

Lemma list_index_app x l rest : x ∉ l → list_index x (l ++ x :: rest) = length l.
Proof.
  induction l as [|y l IH]; cbn [list_index app length]; intros Hx.
  - by rewrite decide_True.
  - apply not_elem_of_cons in Hx as [Hne Hx].
    rewrite decide_False by done. by rewrite IH.
Qed.

Lemma uncommented_clean row : COMMENT_SEPARATOR ∉ uncommented row.
Proof.
  unfold uncommented. destruct (decide (COMMENT_SEPARATOR ∈ row)) as [Hin|Hin]; [|done].
  clear Hin. induction row as [|y row IH]; cbn [list_index take].
  - by intros ?%elem_of_nil.
  - case_decide as Hy; cbn [take].
    + by intros ?%elem_of_nil.
    + intros [Heq|Hin]%elem_of_cons; [done|]. by apply IH.
Qed.

Lemma uncommented_idem row : uncommented (uncommented row) = uncommented row.
Proof.
  unfold uncommented at 1. rewrite decide_False; [done|]. apply uncommented_clean.
Qed.

Lemma mention_row_uncommented filename index row s :
  mention_row filename index row s = mention_row filename index (uncommented row) s.
Proof.
  unfold mention_row. cbv zeta. fold (uncommented row).
  fold (uncommented (uncommented row)). by rewrite uncommented_idem.
Qed.

(** X12: loadMentions reads nothing of a row from the first comment
    separator on: the fields after it change neither what it makes of the
    row nor whether it raises. *)
Theorem mention_row_comment filename index row rest s :
  COMMENT_SEPARATOR ∉ row →
  mention_row filename index (row ++ COMMENT_SEPARATOR :: rest) s
  = mention_row filename index row s.
Proof.
  intros Hrow. rewrite (mention_row_uncommented _ _ (row ++ _)).
  rewrite (mention_row_uncommented _ _ row). f_equal.
  unfold uncommented. rewrite decide_True by (apply elem_of_app; right; by left).
  rewrite decide_False by done. rewrite list_index_app by done.
  by rewrite take_app_length.
Qed.

Lemma loadMentions_raises filename content pre row post s s1 s2 e :
  fs !! filename = Some content →
  (csv_reader " " QUOTECHAR content).1 = pre ++ row :: post →
  for_enumerate (mention_row filename) 0 pre (set_mentions [] s) = (s1, inr tt) →
  mention_row filename (length pre) row s1 = (s2, inl e) →
  loadMentions fs filename s = (s2, inl e).
Proof.
  intros Hf Hrows Hpre Hrow. unfold loadMentions.
  rewrite bind_run. cbn [assign]. rewrite bind_run. unfold lift at 1, open. rewrite Hf.
  cbv zeta. rewrite bind_run, Hrows.
  by rewrite (for_enumerate_raise _ _ _ _ _ _ _ _ Hpre Hrow).
Qed.

(** X13: a row that has, before its comment, one or two fields makes
    loadMentions raise an Exception that cites the index of the row and the
    file; the mentions of the rows before stay in [mentions]. *)
Theorem loadMentions_missing_spans filename content pre row post s s1 :
  fs !! filename = Some content →
  (csv_reader " " QUOTECHAR content).1 = pre ++ row :: post →
  for_enumerate (mention_row filename) 0 pre (set_mentions [] s) = (s1, inr tt) →
  uncommented row ≠ [] →
  (length (uncommented row) ≤ 2)%nat →
  loadMentions fs filename s
  = (s1, inl (Raise Exception (missing_spans filename (length pre)))) ∧
  names_line_and_file (missing_spans filename (length pre)) (length pre) filename.
Proof.
  intros Hf Hrows Hpre Hne Hlen. split.
  - eapply loadMentions_raises; [done..|].
    unfold mention_row. fold (uncommented row).
    rewrite decide_False.
    2:{ intros Hz. by apply nil_length_inv in Hz. }
    by rewrite decide_True.
  - by exists "Missing spans in object description: line ", " of file ".
Qed.





Lemma py_int_some x i : py_int x = inr i → int x = Some i.
Proof. unfold py_int. destruct (int x); [by intros [= <-]|done]. Qed.

(** A row that loads: skipped, or a mention of it appended. *)
Lemma mention_row_ok filename index row s s' :
  mention_row filename index row s = (s', inr tt) →
  (uncommented row = [] ∧ s' = s) ∨
  (uncommented row ≠ [] ∧
   ∃ m l0 d, mentions s = Some l0 ∧ _span_dict s = Some d ∧
             mention_of_row d (uncommented row) m ∧
             s' = set_mentions (l0 ++ [m]) s).
Proof.
  unfold mention_row. cbv zeta. fold (uncommented row).
  case_decide as Hz.
  { apply nil_length_inv in Hz. intros [= <-]. by left. }
  case_decide; [done|].
  destruct (py_int (nth 0 (uncommented row) EmptyString)) as [e|i] eqn:Hi; [done|].
  cbn [mbind result_bind].
  destruct (comprehension py_int (drop 2 (uncommented row))) as [e|ids] eqn:Hids;
    [done|].
  cbn [mbind result_bind mret result_ret]. rewrite bind_run. unfold getattr at 1.
  destruct (_span_dict s) as [d|] eqn:Hd; [|done]. rewrite bind_run. unfold lift.
  destruct (Mention_init i _ ids d) as [e|m] eqn:Hm; [done|].
  unfold mentions_append. rewrite bind_run. unfold getattr.
  destruct (mentions s) as [l0|] eqn:Hl0; [|done]. cbn [assign]. intros [= <-].
  right. split; [by intros Hnil; rewrite Hnil in Hz|].
  exists m, l0, d. split_and!; [done..| |done].
  exists i, ids. split_and!; [by apply py_int_some|done..].
Qed.

Lemma mention_rows_appended filename rows : ∀ index s s' l0,
  mentions s = Some l0 →
  for_enumerate (mention_row filename) index rows s = (s', inr tt) →
  ∃ new, mentions s' = Some (l0 ++ new) ∧ _span_dict s' = _span_dict s ∧
         Forall2 (λ row m, ∃ d, _span_dict s = Some d ∧ mention_of_row d row m)
           (filter (λ row, row ≠ []) (uncommented <$> rows)) new.
Proof.
  induction rows as [|row rows IH]; intros index s s' l0 Hl0; simpl.
  - intros [= <-]. exists []. rewrite app_nil_r. split_and!; [done..|constructor].
  - rewrite bind_run.
    destruct (mention_row filename index row s) as [s1 [e|[]]] eqn:Hrow; [done|].
    intros Hrest.
    destruct (mention_row_ok _ _ _ _ _ Hrow)
      as [[Hnil ->]|(Hne & m & l0' & d & Hl0' & Hd & Hm & ->)].
    + rewrite filter_cons_False by (by rewrite Hnil; intros ?).
      by apply (IH (S index)).
    + rewrite Hl0 in Hl0'. injection Hl0' as <-.
      edestruct (IH (S index)) as (new & Hnew & Hdict & Hall); [|exact Hrest|];
        [reflexivity|].
      exists (m :: new). rewrite Hnew, <- app_assoc. split_and!; [done..|].
      rewrite filter_cons_True by done. constructor; [by exists d|done].
Qed.

(** A call of loadMentions that returns, step by step. *)
Lemma loadMentions_success filename s s' :
  loadMentions fs filename s = (s', inr tt) →
  ∃ content s1 l,
    fs !! filename = Some content ∧
    for_enumerate (mention_row filename) 0 (csv_reader " " QUOTECHAR content).1
      (set_mentions [] s) = (s1, inr tt) ∧
    mentions s1 = Some l ∧
    s' = set__mention_dict (foldl (λ d x, <[Mention.id x := x]> d) ∅ l) s1.
Proof.
  unfold loadMentions. rewrite bind_run. cbn [assign]. rewrite bind_run.
  unfold lift at 1, open. destruct (fs !! filename) as [content|] eqn:Hf; [|done].
  cbv zeta. rewrite bind_run.
  destruct (for_enumerate _ _ _ _) as [s1 [e|[]]] eqn:Hloop; [done|].
  rewrite bind_run. destruct (csv_reader _ _ _).2 as [e|]; [done|].
  cbn [mret M_ret]. rewrite bind_run. unfold getattr.
  destruct (mentions s1) as [l|] eqn:Hl; [|done].
  cbn [assign]. intros [= <-]. by exists content, s1, l.
Qed.

(** X15: when loadMentions returns, [mentions] holds, in the order of the
    file, one mention for every row that is not empty once its comment is
    cut: the one [Mention] makes of the id the first field reads as, the
    second field as tag, the span ids the other fields read as, and
    [_span_dict]. *)
Theorem loadMentions_rows filename content s s' l :
  loadMentions fs filename s = (s', inr tt) →
  fs !! filename = Some content →
  mentions s' = Some l →
  Forall2 (λ row m, ∃ d, _span_dict s = Some d ∧ mention_of_row d row m)
    (mention_rows content) l.
Proof.
  intros (content' & s1 & l' & Hf & Hloop & Hl' & ->)%loadMentions_success Hf' Hl.
  rewrite Hf in Hf'. injection Hf' as ->. simpl in Hl. rewrite Hl' in Hl.
  injection Hl as ->.
  destruct (mention_rows_appended filename _ 0%nat (set_mentions [] s) s1 []
              eq_refl Hloop) as (new & Hnew & _ & Hall).
  rewrite Hl' in Hnew. by injection Hnew as ->.
Qed.

(** X16: after loadMentions, [_mention_dict] holds under every key a
    mention of [mentions] with that id, and has a key for the id of every
    mention; under the id of a mention it holds that mention when no mention
    after it has the same id. *)
Theorem loadMentions_dict filename s s' l d :
  loadMentions fs filename s = (s', inr tt) →
  mentions s' = Some l →
  _mention_dict s' = Some d →
  (∀ k m, d !! k = Some m → m ∈ l ∧ Mention.id m = k) ∧
  (∀ m, m ∈ l → is_Some (d !! Mention.id m)) ∧
  (∀ l1 m l2, l = l1 ++ m :: l2 →
     Forall (λ y, Mention.id y ≠ Mention.id m) l2 → d !! Mention.id m = Some m).
Proof.
  intros (content & s1 & l' & _ & _ & Hl' & ->)%loadMentions_success Hl Hd.
  simpl in Hl, Hd. rewrite Hl' in Hl. injection Hl as ->. injection Hd as <-.
  split_and!.
  - intros k m [Hin|Hempty]%dict_foldl_elem; done.
  - intros m Hm. apply dict_foldl_is_Some. right. by exists m.
  - intros l1 m l2 -> Hl2. by apply (dict_foldl_last Mention.id).
Qed.

(** ** What a loader that raises leaves *)

Lemma token_rows_partial filename d0 index rows :
  inv (λ s', is_Some (tokens s') ∧ _token_dict s' = d0)
    (for_enumerate (token_row filename) index rows).
Proof.
  apply inv_for_enumerate. intros. unfold token_row, tokens_append. inv_steps.
  by intros ? [? ?]; split; simpl; eauto.
Qed.

Lemma span_lines_partial filename d0 index lines :
  inv (λ s', is_Some (spans s') ∧ _span_dict s' = d0)
    (for_enumerate (span_line filename) index lines).
Proof.
  apply inv_for_enumerate. intros. unfold span_line, spans_append, lookup_token.
  inv_steps. by intros ? [? ?]; split; simpl; eauto.
Qed.

Lemma mention_rows_partial filename d0 index rows :
  inv (λ s', is_Some (mentions s') ∧ _mention_dict s' = d0)
    (for_enumerate (mention_row filename) index rows).
Proof.
  apply inv_for_enumerate. intros. unfold mention_row, mentions_append.
  inv_steps. all: by intros ? [? ?]; split; simpl; eauto.
Qed.

Lemma loadTokens_partial filename s :
  is_Some (tokens (loadTokens fs filename s).1) ∧
  (∀ e, (loadTokens fs filename s).2 = inl e →
        _token_dict (loadTokens fs filename s).1 = _token_dict s).
Proof.
  destruct (loadTokens fs filename s) as [s' r] eqn:Hrun. simpl.
  revert Hrun. unfold loadTokens. rewrite bind_run. cbn [assign]. rewrite bind_run.
  unfold lift at 1.
  destruct (open fs filename) as [e|content]; [intros [= <- <-]; by split; eauto|].
  cbv zeta. rewrite bind_run.
  destruct (for_enumerate _ _ _ _) as [s1 [e|[]]] eqn:Hloop.
  all: pose proof (token_rows_partial filename (_token_dict s) 0
                     (csv_reader DEFAULT_DELIMITER QUOTECHAR content).1
                     (set_tokens [] s) (conj (mk_is_Some _ _ eq_refl) eq_refl)) as Hres;
       rewrite Hloop in Hres; destruct Hres as [Ht Hd].
  - intros [= <- <-]. by split.
  - rewrite bind_run.
    destruct (csv_reader DEFAULT_DELIMITER QUOTECHAR content).2 as [e|];
      [intros [= <- <-]; by split|].
    cbn [mret M_ret]. rewrite bind_run. unfold getattr at 1.
    destruct Ht as [toks1 Ht]. simpl in Ht. rewrite Ht.
    rewrite bind_run. cbn [assign]. rewrite bind_run. cbn [assign].
    rewrite bind_run. unfold getattr. cbn [tokens set_tokens set__token_dict heap].
    cbn [assign]. intros [= <- <-]. split; [by eexists|done].
Qed.

Lemma loadSpans_partial filename s :
  is_Some (spans (loadSpans fs filename s).1) ∧
  (∀ e, (loadSpans fs filename s).2 = inl e →
        _span_dict (loadSpans fs filename s).1 = _span_dict s).
Proof.
  destruct (loadSpans fs filename s) as [s' r] eqn:Hrun. simpl.
  revert Hrun. unfold loadSpans. rewrite bind_run. cbn [assign]. rewrite bind_run.
  unfold lift at 1.
  destruct (open fs filename) as [e|content]; [intros [= <- <-]; by split; eauto|].
  rewrite bind_run.
  destruct (for_enumerate _ _ _ _) as [s1 [e|[]]] eqn:Hloop.
  all: pose proof (span_lines_partial filename (_span_dict s) 0 (Py.lines content)
                     (set_spans [] s) (conj (mk_is_Some _ _ eq_refl) eq_refl)) as Hres;
       rewrite Hloop in Hres; destruct Hres as [Ht Hd].
  - intros [= <- <-]. by split.
  - rewrite bind_run. unfold getattr. destruct Ht as [l Ht]. simpl in Ht. rewrite Ht.
    cbn [assign]. intros [= <- <-]. split; [|done]. simpl. rewrite Ht. by eexists.
Qed.

Lemma loadMentions_partial filename s :
  is_Some (mentions (loadMentions fs filename s).1) ∧
  (∀ e, (loadMentions fs filename s).2 = inl e →
        _mention_dict (loadMentions fs filename s).1 = _mention_dict s).
Proof.
  destruct (loadMentions fs filename s) as [s' r] eqn:Hrun. simpl.
  revert Hrun. unfold loadMentions. rewrite bind_run. cbn [assign]. rewrite bind_run.
  unfold lift at 1.
  destruct (open fs filename) as [e|content]; [intros [= <- <-]; by split; eauto|].
  cbv zeta. rewrite bind_run.
  destruct (for_enumerate _ _ _ _) as [s1 [e|[]]] eqn:Hloop.
  all: pose proof (mention_rows_partial filename (_mention_dict s) 0
                     (csv_reader " " QUOTECHAR content).1
                     (set_mentions [] s) (conj (mk_is_Some _ _ eq_refl) eq_refl)) as Hres;
       rewrite Hloop in Hres; destruct Hres as [Ht Hd].
  - intros [= <- <-]. by split.
  - rewrite bind_run. destruct (csv_reader _ _ _).2 as [e|];
      [intros [= <- <-]; by split|].
    cbn [mret M_ret]. rewrite bind_run. unfold getattr.
    destruct Ht as [l Ht]. simpl in Ht. rewrite Ht.
    cbn [assign]. intros [= <- <-]. split; [|done]. simpl. rewrite Ht. by eexists.
Qed.

(** X17: each of loadTokens, loadSpans and loadMentions assigns its list
    whatever happens, so the list is there (with what was read before the
    failure) also when the loader raises; the dictionary of ids it assigns
    only at its end, so a loader that raises leaves the dictionary as it
    was. *)
Theorem loaders_partial filename s :
  (is_Some (tokens (loadTokens fs filename s).1) ∧
   (∀ e, (loadTokens fs filename s).2 = inl e →
         _token_dict (loadTokens fs filename s).1 = _token_dict s)) ∧
  (is_Some (spans (loadSpans fs filename s).1) ∧
   (∀ e, (loadSpans fs filename s).2 = inl e →
         _span_dict (loadSpans fs filename s).1 = _span_dict s)) ∧
  (is_Some (mentions (loadMentions fs filename s).1) ∧
   (∀ e, (loadMentions fs filename s).2 = inl e →
         _mention_dict (loadMentions fs filename s).1 = _mention_dict s)).
Proof.
  split_and!.
  - apply loadTokens_partial.
  - apply loadTokens_partial.
  - apply loadSpans_partial.
  - apply loadSpans_partial.
  - apply loadMentions_partial.
  - apply loadMentions_partial.
Qed.

(** ** What a loader leaves alone *)

(** X18: each load method assigns the fields of its own stage only: the
    name and the fields of the other stages are after the call, whether it
    returns or raises, what they were before; the methods other than
    loadTokens leave the token objects as they were too. *)
Theorem loaders_frame filename s :
  keeps 0 s (loadTokens fs filename s).1 ∧
  keeps 1 s (loadSpans fs filename s).1 ∧
  keeps 2 s (loadMentions fs filename s).1 ∧
  keeps 3 s (loadCoreference fs filename s).1 ∧
  keeps 4 s (loadText fs filename s).1.
Proof.
  split_and!; (split; [|intros j Hj]).
  - by apply (loadTokens_inv (λ s', name s' = name s)).
  - apply (loadTokens_inv (agree j s)); try apply agree_refl;
      by destruct j as [|[|[|[|[|j]]]]].
  - by apply (loadSpans_inv (λ s', name s' = name s)).
  - apply (loadSpans_inv (agree j s)); try apply agree_refl;
      by destruct j as [|[|[|[|[|j]]]]].
  - by apply (loadMentions_inv (λ s', name s' = name s)).
  - apply (loadMentions_inv (agree j s)); try apply agree_refl;
      by destruct j as [|[|[|[|[|j]]]]].
  - by apply (loadCoreference_inv (λ s', name s' = name s)).
  - apply (loadCoreference_inv (agree j s)); try apply agree_refl;
      by destruct j as [|[|[|[|[|j]]]]].
  - by apply (loadText_inv (λ s', name s' = name s)).
  - apply (loadText_inv (agree j s)); try apply agree_refl;
      by destruct j as [|[|[|[|[|j]]]]].
Qed.

(** ** The constructor on documents with files missing *)

Lemma makeTokenSets_mentions flag s s' :
  mentions s' = mentions s → makeTokenSets flag s' = makeTokenSets flag s.
Proof.
  intros Hm. unfold makeTokenSets, getattr. rewrite Hm. by destruct (mentions s).
Qed.

(** X19: a document without a coreference file loads completely: when the
    tokens, spans and objects files load and the text file is there, the
    constructor prints nothing and leaves the object of the three loads with
    no entities, the text of the file and the name. *)
Theorem init_without_coref nm path s1 s2 s3 content :
  loadTokens fs (Py.path_join path nm +:+ ".tokens") new_object = (s1, inr tt) →
  loadSpans fs (Py.path_join path nm +:+ ".spans") s1 = (s2, inr tt) →
  loadMentions fs (Py.path_join path nm +:+ ".objects") s2 = (s3, inr tt) →
  fs !! (Py.path_join path nm +:+ ".coref") = None →
  fs !! (Py.path_join path nm +:+ ".txt") = Some content →
  __init__ fs nm path
  = mkOutcome (set_name nm (set_text content (set_entities [] s3))) [] None.
Proof.
  intros H1 H2 H3 Hcoref Htxt.
  unfold __init__, try_except_Exception, load, stages. cbv zeta. cbn [block].
  rewrite bind_run, bind_run, H1. cbv beta iota.
  rewrite bind_run, H2. cbv beta iota.
  rewrite bind_run, H3. cbv beta iota.
  assert (loadCoreference fs (Py.path_join path nm +:+ ".coref") s3
          = (set_entities [] s3, inr tt)) as Hc.
  { unfold loadCoreference. rewrite bind_run. cbn [assign].
    unfold open. by rewrite Hcoref. }
  assert (∀ s, loadText fs (Py.path_join path nm +:+ ".txt") s
               = (set_text content s, inr tt)) as Ht.
  { intros s. unfold loadText, open. rewrite Htxt, bind_run. cbn [lift assign].
    unfold Py.lines. by rewrite join_lines_go. }
  rewrite bind_run, Hc. cbv beta iota. rewrite bind_run, Ht. done.
Qed.

(** X20: the object of a load that failed can make token sets exactly when
    the objects file had loaded.  When the load of the tokens or of the
    spans raised, makeTokenSets on the object the constructor left raises
    the AttributeError for [mentions]; when the first three stages
    completed, makeTokenSets gives what it gives on the object they left,
    whatever became of the coreference and the text. *)
Theorem init_then_makeTokenSets nm path flag :
  (∀ s e, block (take 2 (stages fs (Py.path_join path nm))) new_object = (s, inl e) →
     printed (__init__ fs nm path) = [failed_to_load nm; exn_msg e] ∧
     makeTokenSets flag (self (__init__ fs nm path))
     = inl (Raise AttributeError (no_attribute "mentions"))) ∧
  (∀ s3, block (take 3 (stages fs (Py.path_join path nm))) new_object = (s3, inr tt) →
     makeTokenSets flag (self (__init__ fs nm path)) = makeTokenSets flag s3).
Proof.
  set (l := stages fs (Py.path_join path nm)).
  split.
  - intros s e Hpre.
    assert (block l new_object = (s, inl e)) as Hall.
    { rewrite <- (take_drop 2 l), block_app. by rewrite Hpre. }
    assert (mentions s = None) as Hm.
    { assert (inv (λ s', mentions s' = None) (block (take 2 l))) as Hinv.
      { apply inv_block. repeat constructor.
        - by apply loadTokens_inv.
        - by apply loadSpans_inv. }
      specialize (Hinv new_object eq_refl). by rewrite Hpre in Hinv. }
    unfold __init__, try_except_Exception, load. fold l.
    rewrite bind_run, Hall, issubclass_Exception. cbn [printed self].
    split; [done|]. unfold makeTokenSets, getattr. by rewrite Hm.
  - intros s3 Hpre. apply makeTokenSets_mentions.
    destruct (block l new_object) as [s r] eqn:Hall.
    destruct (completed_stage_kept (Py.path_join path nm) 2 s3 s r Hpre Hall)
      as [_ [Hm _]].
    assert (self (__init__ fs nm path) = set_name nm s ∨ self (__init__ fs nm path) = s)
      as [-> | ->]; [|done..].
    unfold __init__, try_except_Exception, load. fold l. rewrite bind_run, Hall.
    destruct r as [e|[]]; [right|left; done].
    by rewrite issubclass_Exception.
Qed.

(** ** The token sets of the mentions *)

(** *** The order of the token sets under a key *)

Lemma add_mentions_order flag ms : ∀ st st' key l,
  add_mentions flag st ms = inr st' →
  st.1 !! key = Some l →
  st'.1 !! key = Some (l ++ filed_under flag key (length st.2) ms).
Proof.
  induction ms as [|m ms IH]; intros st st' key l; simpl.
  - intros [= <-] ->. by rewrite app_nil_r.
  - destruct (add_mention flag st m) as [e|st1] eqn:H1; [done|]. simpl.
    intros Hrun Hl. revert H1. unfold add_mention. case_decide as Hkey; [|done].
    destruct (mark_spans _ _) as [e|ts]; [done|]. simpl.
    destruct (st.1 !! mention_key flag m) as [l0|] eqn:Hl0; [|done].
    intros [= <-].
    rewrite (IH _ _ key
               (l ++ if decide (mention_key flag m = key) then [length st.2] else [])
               Hrun).
    + simpl. rewrite length_app. simpl. rewrite Nat.add_1_r. by rewrite <- app_assoc.
    + simpl. case_decide as Hk.
      * subst key. rewrite lookup_insert_eq. congruence.
      * rewrite lookup_insert_ne by done. by rewrite app_nil_r.
Qed.

(** X21: the dictionary that makeTokenSets returns has the allowed tags as
    its keys and no other, and under each of them the token sets of the
    mentions filed under it, one per mention, in the order of the
    mentions. *)
Theorem makeTokenSets_order flag s res store ms key :
  makeTokenSets flag s = inr (res, store) →
  mentions s = Some ms →
  res !! key = if decide (key ∈ allowed_tags flag)
               then Some (filed_under flag key 0 ms) else None.
Proof.
  intros (ms' & store0 & orgs & Hms & Hadd & _ & _)%makeTokenSets_ok Hms'.
  rewrite Hms in Hms'. injection Hms' as ->.
  case_decide as Hkey.
  - apply (add_mentions_order flag ms (empty_res flag, []) _ key [] Hadd).
    simpl. unfold empty_res. by apply lookup_gset_to_gmap_Some.
  - pose proof (add_mentions_filed flag ms [] _ _ (filed_empty flag) Hadd)
      as (Hdom & _). simpl in Hdom.
    apply not_elem_of_dom. by rewrite Hdom.
Qed.

(** *** The exceptions of makeTokenSets *)

Lemma mark_tokens_fail span_tag toks : ∀ ts e,
  mark_tokens span_tag toks ts = inl e →
  toks ≠ [] ∧ getMark (TokenSet.tag ts) span_tag = inl e.
Proof.
  induction toks as [|token toks IH]; intros ts e; simpl; [done|].
  destruct (getMark (TokenSet.tag ts) span_tag) as [e'|mark] eqn:Hg; simpl.
  - by intros [= <-].
  - intros Hrun. apply IH in Hrun as [_ Hrun]. simpl in Hrun. congruence.
Qed.

Lemma mark_spans_fail l : ∀ ts e,
  mark_spans l ts = inl e →
  ∃ sp, sp ∈ l ∧ Span.tokens sp ≠ [] ∧
        getMark (TokenSet.tag ts) (Span.tag sp) = inl e.
Proof.
  induction l as [|span l IH]; intros ts e; simpl; [done|].
  destruct (mark_tokens _ _ _) as [e'|ts1] eqn:H1; simpl.
  - intros [= <-]. apply mark_tokens_fail in H1 as [Hne Hg].
    exists span. split_and!; [by left|done..].
  - intros Hrun. apply IH in Hrun as (sp & Hin & Hne & Hg).
    apply mark_tokens_shape in H1 as (_ & Htag & _). rewrite Htag in Hg.
    exists sp. split_and!; [by right|done..].
Qed.

Lemma add_mentions_fail flag l : ∀ ms st e,
  filed flag ms st →
  add_mentions flag st l = inl e →
  ∃ m, m ∈ l ∧
    (((mention_key flag m ∉ allowed_tags flag) ∧ e = Raise AssertionError EmptyString) ∨
     (∃ sp, sp ∈ Mention.spans m ∧ Span.tokens sp ≠ [] ∧
            getMark (mention_key flag m) (Span.tag sp) = inl e)).
Proof.
  induction l as [|m l IH]; intros ms st e Hst; simpl; [done|].
  destruct (add_mention flag st m) as [e'|st1] eqn:H1; simpl.
  - intros [= <-]. exists m. split; [by left|].
    revert H1. unfold add_mention. case_decide as Hkey; [|intros [= <-]; by left].
    destruct (mark_spans _ _) as [e2|ts] eqn:Hm; simpl.
    + intros [= <-]. right. by apply mark_spans_fail in Hm.
    + destruct Hst as (Hdom & _). rewrite <- Hdom in Hkey.
      apply elem_of_dom in Hkey as [l0 Hl0]. by rewrite Hl0.
  - intros Hrun.
    destruct (IH (ms ++ [m]) st1 e) as (m' & Hin & Hcase);
      [by eapply add_mention_filed|done|].
    exists m'. split; [by right|done].
Qed.

Lemma all_orgs_returns flag (res : gmap string (list addr)) :
  dom res = allowed_tags flag → ∃ orgs, all_orgs flag res = inr orgs.
Proof.
  intros Hdom.
  assert (∀ key, key ∈ allowed_tags flag → ∃ l, res !! key = Some l) as Hkeys.
  { intros key Hkey. rewrite <- Hdom in Hkey. by apply elem_of_dom in Hkey. }
  unfold all_orgs, res_get.
  destruct (Hkeys "org") as [lo ->].
  { unfold allowed_tags. rewrite !elem_of_union, !elem_of_singleton. tauto. }
  simpl. destruct flag; simpl; [|by eexists].
  destruct (Hkeys "locorg") as [ll ->]; [|by eexists].
  unfold allowed_tags. rewrite !elem_of_union, !elem_of_singleton. tauto.
Qed.

(** X22: makeTokenSets raises in three cases and no other: the object has
    no [mentions] (AttributeError); a mention has a key that is not allowed
    (AssertionError); Tables.getMark raises for the key of a mention and the
    tag of one of its spans, a span that has a token.  The lookups in its
    own dictionary never fail. *)
Theorem makeTokenSets_failures flag s e :
  makeTokenSets flag s = inl e →
  (mentions s = None ∧ e = Raise AttributeError (no_attribute "mentions")) ∨
  (∃ ms m, mentions s = Some ms ∧ m ∈ ms ∧
     (((mention_key flag m ∉ allowed_tags flag) ∧ e = Raise AssertionError EmptyString) ∨
      (∃ sp, sp ∈ Mention.spans m ∧ Span.tokens sp ≠ [] ∧
             getMark (mention_key flag m) (Span.tag sp) = inl e))).
Proof.
  unfold makeTokenSets, getattr.
  destruct (mentions s) as [ms|]; simpl; [|intros [= <-]; by left].
  fold (empty_res flag).
  destruct (add_mentions flag (empty_res flag, []) ms) as [e'|st] eqn:Hadd; simpl.
  - intros [= <-]. right.
    destruct (add_mentions_fail flag ms [] _ _ (filed_empty flag) Hadd)
      as (m & Hin & Hcase).
    by exists ms, m.
  - pose proof (add_mentions_filed flag ms [] _ _ (filed_empty flag) Hadd)
      as (Hdom & _).
    destruct (all_orgs_returns flag st.1 Hdom) as [orgs ->]. done.
Qed.

(** *** The marks of a token set *)

Lemma marks_alter_parent p a (st : list (TokenSet.t Mark)) :
  TokenSet.marks <$> alter (TokenSet.set_parent p) a st = TokenSet.marks <$> st.
Proof.
  apply list_eq. intros i. rewrite !list_lookup_fmap, list_lookup_alter.
  case_decide; [|done]. subst. by destruct (st !! i).
Qed.

Lemma findParents_marks self all : ∀ st : list (TokenSet.t Mark),
  TokenSet.marks <$> TokenSet.findParents self all st = TokenSet.marks <$> st.
Proof.
  unfold TokenSet.findParents.
  induction all as [|o all IH]; intros st; simpl; [done|].
  rewrite IH. case_decide; [apply marks_alter_parent|done].
Qed.

Lemma pass_marks all orgs : ∀ st : list (TokenSet.t Mark),
  TokenSet.marks <$> foldl (λ st org, TokenSet.findParents org all st) st orgs
  = TokenSet.marks <$> st.
Proof.
  induction orgs as [|o orgs IH]; intros st; simpl; [done|].
  by rewrite IH, findParents_marks.
Qed.

Lemma mark_tokens_marks span_tag toks : ∀ ts ts',
  mark_tokens span_tag toks ts = inr ts' →
  ∀ a,
    (a ∈ toks → ∃ mark, getMark (TokenSet.tag ts) span_tag = inr mark ∧
                        TokenSet.marks ts' !! a = Some mark) ∧
    (a ∉ toks → TokenSet.marks ts' !! a = TokenSet.marks ts !! a).
Proof.
  induction toks as [|token toks IH]; intros ts ts'; simpl.
  - intros [= <-] a. split; [by intros ?%elem_of_nil|done].
  - destruct (getMark (TokenSet.tag ts) span_tag) as [e|mark] eqn:Hg; [done|]. simpl.
    intros Hrun a. destruct (IH _ _ Hrun a) as [Hin Hout]. simpl in Hin, Hout.
    rewrite Hg in Hin.
    destruct (decide (a ∈ toks)) as [Ha|Ha].
    + split; [by intros _; apply Hin|].
      intros Hno. destruct Hno. by right.
    + split.
      * intros [->|?]%elem_of_cons; [|done]. exists mark. split; [done|].
        by rewrite Hout, lookup_insert_eq.
      * intros [Hne _]%not_elem_of_cons. by rewrite Hout, lookup_insert_ne.
Qed.

Lemma mark_spans_marks l : ∀ ts ts',
  mark_spans l ts = inr ts' →
  ∀ a,
    (∀ pre sp post, l = pre ++ sp :: post → a ∈ Span.tokens sp →
       Forall (λ q, a ∉ Span.tokens q) post →
       ∃ mark, getMark (TokenSet.tag ts) (Span.tag sp) = inr mark ∧
               TokenSet.marks ts' !! a = Some mark) ∧
    (Forall (λ q, a ∉ Span.tokens q) l →
       TokenSet.marks ts' !! a = TokenSet.marks ts !! a).
Proof.
  induction l as [|span l IH]; intros ts ts'; simpl.
  - intros [= <-] a. split; [|done]. by intros [|??] ???.
  - destruct (mark_tokens _ _ _) as [e|ts1] eqn:H1; [done|]. simpl.
    intros Hrun a. destruct (IH _ _ Hrun a) as [Hlast Hnone].
    destruct (mark_tokens_marks _ _ _ _ H1 a) as [Hin Hout].
    apply mark_tokens_shape in H1 as (_ & Htag & _).
    split.
    + intros [|p pre] sp post Hl Ha Hpost; simplify_eq/=.
      * destruct (Hin Ha) as (mark & Hg & Hm). exists mark. split; [done|].
        by rewrite Hnone.
      * rewrite <- Htag. by eapply Hlast.
    + intros [Hspan Hrest]%Forall_cons. by rewrite Hnone, Hout.
Qed.

Lemma add_mentions_store flag l : ∀ st st',
  add_mentions flag st l = inr st' →
  ∃ new, st'.2 = st.2 ++ new ∧
    Forall2 (λ m ts,
               mark_spans (Mention.spans m)
                 (TokenSet.init (mjoin (Span.tokens <$> Mention.spans m))
                    (mention_key flag m)) = inr ts) l new.
Proof.
  induction l as [|m l IH]; intros st st'; simpl.
  - intros [= <-]. exists []. by rewrite app_nil_r.
  - destruct (add_mention flag st m) as [e|st1] eqn:H1; [done|]. simpl.
    intros (new & Hnew & Hall)%IH. revert H1. unfold add_mention.
    case_decide as Hkey; [|done].
    destruct (mark_spans _ _) as [e|ts] eqn:Hm; [done|]. simpl.
    destruct (st.1 !! mention_key flag m) as [l0|]; [|done].
    intros [= <-]. simpl in Hnew. exists (ts :: new).
    split; [by rewrite Hnew, <- app_assoc|by constructor].
Qed.

Lemma last_such {A} (P : A → Prop) `{∀ x, Decision (P x)} (l : list A) :
  Exists P l →
  ∃ pre x post, l = pre ++ x :: post ∧ P x ∧ Forall (λ y, ¬ P y) post.
Proof.
  induction l as [|x l IH]; [by intros ?%Exists_nil|].
  intros Hex. destruct (decide (Exists P l)) as [Hl|Hl].
  - destruct (IH Hl) as (pre & y & post & -> & Hy & Hpost).
    by exists (x :: pre), y, post.
  - apply Exists_cons in Hex as [Hx|?]; [|done].
    exists [], x, l. split_and!; [done..|].
    apply Forall_forall. intros y Hy Hp. apply Hl, Exists_exists. eauto.
Qed.

(** X23: in a token set that makeTokenSets returns the marked tokens are the
    tokens of the set.  The mark of a token is the one Tables.getMark gives
    for the tag of the set and the tag of a span of the mention that holds
    the token: of the last such span, when several hold it. *)
Theorem makeTokenSets_marks flag s res store ms i m ts :
  makeTokenSets flag s = inr (res, store) →
  mentions s = Some ms →
  ms !! i = Some m →
  store !! i = Some ts →
  dom (TokenSet.marks ts) = TokenSet.tokens ts ∧
  (∀ a mark, TokenSet.marks ts !! a = Some mark →
     ∃ sp, sp ∈ Mention.spans m ∧ a ∈ Span.tokens sp ∧
           getMark (TokenSet.tag ts) (Span.tag sp) = inr mark) ∧
  (∀ pre sp post a, Mention.spans m = pre ++ sp :: post →
     a ∈ Span.tokens sp → Forall (λ q, a ∉ Span.tokens q) post →
     ∃ mark, getMark (TokenSet.tag ts) (Span.tag sp) = inr mark ∧
             TokenSet.marks ts !! a = Some mark).
Proof.
  intros (ms' & store0 & orgs & Hms & Hadd & _ & ->)%makeTokenSets_ok Hms' Hm Hts.
  rewrite Hms in Hms'. injection Hms' as ->.
  destruct (add_mentions_store flag ms _ _ Hadd) as (new & Hnew & Hall).
  simpl in Hnew. subst store0.
  destruct (Forall2_lookup_l _ _ _ _ _ Hall Hm) as (ts0 & Hts0 & Hmark).
  assert (TokenSet.marks ts = TokenSet.marks ts0 ∧
          TokenSet.tokens ts = TokenSet.tokens ts0 ∧
          TokenSet.tag ts = TokenSet.tag ts0) as (Hmarks & Htoks & Htag).
  { pose proof (pass_marks orgs orgs new) as Hpm.
    pose proof (pass_shape orgs orgs new) as Hps.
    fold (find_all_parents orgs new) in Hpm, Hps.
    destruct (shape_lookup _ _ _ _ (eq_sym Hps) Hts) as (ts1 & Hts1 & Ht & Hg).
    rewrite Hts0 in Hts1. injection Hts1 as <-.
    apply (f_equal (λ l, l !! i)) in Hpm. cbv beta in Hpm.
    rewrite !list_lookup_fmap, Hts, Hts0 in Hpm. simpl in Hpm.
    injection Hpm as Hpm. done. }
  destruct (mark_spans_shape _ _ _ Hmark) as (Htoks0 & Htag0 & _).
  simpl in Htoks0, Htag0. rewrite Hmarks, Htoks, Htag, Htag0, Htoks0.
  assert (∀ a, (∃ sp, sp ∈ Mention.spans m ∧ a ∈ Span.tokens sp) ∨
               Forall (λ q, a ∉ Span.tokens q) (Mention.spans m)) as Hcases.
  { intros a.
    destruct (decide (Exists (λ q, a ∈ Span.tokens q) (Mention.spans m))) as [Hex|Hno].
    - left. by apply Exists_exists in Hex.
    - right. apply Forall_forall. intros q Hq Ha. apply Hno, Exists_exists. eauto. }
  assert (∀ a, (∃ sp, sp ∈ Mention.spans m ∧ a ∈ Span.tokens sp) →
               ∃ sp mark, sp ∈ Mention.spans m ∧ a ∈ Span.tokens sp ∧
                 getMark (mention_key flag m) (Span.tag sp) = inr mark ∧
                 TokenSet.marks ts0 !! a = Some mark) as Hsome.
  { intros a Hex.
    destruct (last_such (λ q, a ∈ Span.tokens q) (Mention.spans m))
      as (pre & sp & post & Hl & Ha & Hpost); [by apply Exists_exists|].
    destruct (mark_spans_marks _ _ _ Hmark a) as [Hlast _].
    destruct (Hlast pre sp post Hl Ha Hpost) as (mark & Hg & Hmk).
    exists sp, mark. split_and!; [|done..].
    rewrite Hl, elem_of_app, elem_of_cons. auto. }
  assert (∀ a, Forall (λ q, a ∉ Span.tokens q) (Mention.spans m) →
               TokenSet.marks ts0 !! a = None) as Hnone.
  { intros a Hno. destruct (mark_spans_marks _ _ _ Hmark a) as [_ Hout].
    by rewrite Hout. }
  split_and!.
  - apply set_eq. intros a.
    rewrite elem_of_dom, elem_of_list_to_set, list_elem_of_join.
    split.
    + intros [mark Hmk]. destruct (Hcases a) as [(sp & Hin & Ha)|Hno].
      * exists (Span.tokens sp). split; [done|]. by apply list_elem_of_fmap_2.
      * rewrite Hnone in Hmk; done.
    + intros (toks & Ha & (sp & -> & Hin)%list_elem_of_fmap).
      destruct (Hsome a) as (sp' & mark & _ & _ & _ & Hmk); [eauto|]. by eexists.
  - intros a mark Hmk. destruct (Hcases a) as [Hex|Hno].
    + destruct (Hsome a Hex) as (sp & mark' & Hin & Ha & Hg & Hmk').
      exists sp. split_and!; [done..|]. congruence.
    + rewrite Hnone in Hmk; done.
  - intros pre sp post a Hl Ha Hpost.
    destruct (mark_spans_marks _ _ _ Hmark a) as [Hlast _].
    by apply (Hlast pre sp post).
Qed.

(** ** The loaders one after the other *)

(** X24: the spans refer to the tokens of the document: when loadSpans runs
    on the object that loadTokens left, every token of every span it leaves
    in [spans], whether it returns or raises, is one of [tokens], and it has
    left the tokens themselves as loadTokens made them. *)
Theorem loadSpans_after_loadTokens tokens_file spans_file s s1 toks l :
  loadTokens fs tokens_file s = (s1, inr tt) →
  tokens s1 = Some toks →
  spans (loadSpans fs spans_file s1).1 = Some l →
  heap (loadSpans fs spans_file s1).1 = heap s1 ∧
  tokens (loadSpans fs spans_file s1).1 = Some toks ∧
  ∀ sp a, sp ∈ l → a ∈ Span.tokens sp → a ∈ toks.
Proof.
  intros Hrun Htoks Hl.
  destruct (loadTokens_populates _ _ _ Hrun) as [_ [d Hd]].
  destruct (token_dict_contents _ _ _ _ _ Hrun Htoks Hd) as (Helem & _).
  pose proof (loadSpans_inv (agree 0 s1) spans_file) as Hframe.
  destruct (Hframe ltac:(done) ltac:(done) s1 (agree_refl 0 s1)) as (Hh & Ht & _).
  split_and!; [done|by rewrite Ht|].
  intros sp a Hsp Ha. destruct (loadSpans_sound spans_file s1) as [_ Hs].
  specialize (Hs l Hl). rewrite Forall_forall in Hs.
  destruct (Hs sp Hsp) as [_ Hreg]. destruct (Hreg a Ha) as (d' & z & Hd' & Hz).
  rewrite Hd in Hd'. injection Hd' as <-. by apply Helem in Hz as [? _].
Qed.

End Proofs.

(** * The properties on the sample documents *)

Section Samples.
#[local] Existing Instance Sample.config.
#[local] Existing Instance Sample.objects.

(** C7 on the sample document, which has no coreference file. *)
Lemma loadCoreference_absent_witness :
  Sample.bank !! "bank.coref" = None ∧
  loadCoreference Sample.bank "bank.coref" new_object
  = (set_entities [] new_object, inr tt).
Proof.
  split; [reflexivity|]. apply loadCoreference_absent. reflexivity.
Defined.

(** C9 on a spans file with a blank line after its first record. *)
Lemma loadSpans_blank_line_witness :
  SPAN_FILE_SEPARATOR ≠ EmptyString ∧ SPAN_FILE_SEPARATOR ≠ Py.nl ∧
  (loadSpans Sample.blank_line "bank.spans" (Sample.loaded Sample.bank)).2
  = inl (Raise Exception (missing_separator "bank.spans" 1)).
Proof.
  assert (SPAN_FILE_SEPARATOR ≠ EmptyString) as H1 by discriminate.
  assert (SPAN_FILE_SEPARATOR ≠ Py.nl) as H2 by discriminate.
  split_and!; [done..|].
  destruct (loadSpans_blank_line Sample.blank_line H1 H2) as (_ & _ & _ & Hfile).
  erewrite (Hfile "bank.spans" _ [_] [_]);
    [reflexivity|reflexivity|vm_compute; reflexivity|vm_compute; reflexivity].
Defined.

(** C3 on a span record that declares 3 tokens and lists 2. *)
Lemma loadSpans_validation_witness :
  SPAN_FILE_SEPARATOR ≠ EmptyString ∧ DEFAULT_DELIMITER ≠ EmptyString ∧
  (∃ msg, (loadSpans Sample.short_span "bank.spans" (Sample.loaded Sample.bank)).2
          = inl (Raise Exception msg) ∧
          names_line_and_file msg 0 "bank.spans") ∧
  (∀ l, spans (loadSpans Sample.bank "bank.spans" new_object).1 = Some l →
        Forall span_complete l).
Proof.
  assert (SPAN_FILE_SEPARATOR ≠ EmptyString) as H1 by discriminate.
  assert (DEFAULT_DELIMITER ≠ EmptyString) as H2 by discriminate.
  split_and!; [done..| |].
  - destruct (loadSpans_validation Sample.short_span H1 H2) as [Hfile _].
    destruct (Hfile "bank.spans"
                (Sample.line "10 org_name 0 15 1 3 # 1 2 Bank of Rossiya") []
                (Sample.line "10 org_name 0 15 1 3 # 1 2 Bank of Rossiya") []
                (Sample.loaded Sample.bank)
                (set_spans [] (Sample.loaded Sample.bank)))
      as (msg & Hrun & Hmsg); [reflexivity|reflexivity|reflexivity| |].
    + eapply right_mismatch;
        [reflexivity|vm_compute; reflexivity|vm_compute; discriminate].
    + exists msg. by rewrite Hrun.
  - destruct (loadSpans_validation Sample.bank H1 H2) as [_ Hall]. apply Hall.
Defined.

(** C2, as stated, on an empty tokens file: loadTokens returns, and no
    token is without [prev]. *)
Lemma loadTokens_empty_file :
  (loadTokens Sample.no_tokens "empty.tokens" new_object).2 = inr tt ∧
  tokens (loadTokens Sample.no_tokens "empty.tokens" new_object).1 = Some [] ∧
  ¬ chain_ends (heap (loadTokens Sample.no_tokens "empty.tokens" new_object).1) [].
Proof.
  split_and!; [reflexivity..|]. intros [Hp _]. discriminate Hp.
Defined.

(** C2 on the sample document. *)
Lemma loadTokens_chain_witness :
  loadTokens Sample.bank "bank.tokens" new_object
  = ((loadTokens Sample.bank "bank.tokens" new_object).1, inr tt) ∧
  chain_ends (heap (loadTokens Sample.bank "bank.tokens" new_object).1) [1; 0; 2]%nat ∧
  chained (heap (loadTokens Sample.bank "bank.tokens" new_object).1) [1; 0; 2]%nat.
Proof.
  assert (loadTokens Sample.bank "bank.tokens" new_object
          = ((loadTokens Sample.bank "bank.tokens" new_object).1, inr tt)) as Hrun
    by (vm_compute; reflexivity).
  split; [done|].
  destruct (loadTokens_chain Sample.bank "bank.tokens" new_object _ [1; 0; 2]%nat Hrun)
    as (_ & _ & Hc & He); [vm_compute; reflexivity|discriminate|]. by split.
Defined.

(** C6 on a file of two blocks, the second one ended by the end of the
    file: one entity in standard mode, then one in test mode. *)
Lemma loadCoreference_blocks_witness :
  Sample.chains !! "bank.coref" = Some (Sample.line "1 2" +:+ Sample.line "3" +:+ Py.nl +:+ Sample.line "4") ∧
  loadCoreference Sample.chains "bank.coref" Sample.no_mentions
  = (set_entities [(true, Sample.line "1 2" +:+ Sample.line "3");
                   (false, Sample.line "4")] Sample.no_mentions, inr tt).
Proof.
  split; [reflexivity|].
  destruct (loadCoreference_blocks Sample.chains "bank.coref"
              (Sample.line "1 2" +:+ Sample.line "3" +:+ Py.nl +:+ Sample.line "4")
              ∅ ∅ Sample.no_mentions) as [Hok _]; [reflexivity..|].
  destruct (Hok [(true, Sample.line "1 2" +:+ Sample.line "3");
                 (false, Sample.line "4")]) as [Hrun _]; [reflexivity|exact Hrun].
Defined.

(** C4 on a document with an organization and a location acting as one:
    the token set of the second mention is filed under 'loc'. *)
Lemma makeTokenSets_folds_locorg_witness :
  ∃ res store,
    makeTokenSets false (Sample.loaded Sample.acting) = inr (res, store) ∧
    res !! "locorg" = None ∧
    ∃ l ts, res !! "loc" = Some l ∧ 1%nat ∈ l ∧ store !! 1%nat = Some ts ∧
            TokenSet.tag ts = "loc".
Proof.
  destruct (makeTokenSets false (Sample.loaded Sample.acting)) as [e|[res store]] eqn:Hrun;
    [by vm_compute in Hrun|].
  exists res, store. split; [done|].
  destruct (makeTokenSets_folds_locorg _ _ _ Hrun) as (Hloc & Hnone & _ & _).
  split; [done|].
  destruct (Hloc (default [] (mentions (Sample.loaded Sample.acting))) 1%nat
              (Mention.mk 2 "locorg"
              [Span.mk 11 "org_name" 8 7 3 1 [2%nat] "Rossiya"]))
    as (l & ts & Hl & Hin & Hts & Htag & _);
    [vm_compute; reflexivity|reflexivity|reflexivity|].
  by exists l, ts.
Defined.

(** C8 on a document with a mention tagged 'other'. *)
Lemma makeTokenSets_asserts_witness :
  makeTokenSets true (Sample.loaded Sample.other)
  = inl (Raise AssertionError EmptyString).
Proof.
  destruct (makeTokenSets_asserts true (Sample.loaded Sample.other)
              [Mention.mk 1 "org"
                 [Span.mk 10 "org_name" 0 15 1 3 [1; 0; 2]%nat "Bank of Rossiya"]]
              (Mention.mk 2 "other"
                 [Span.mk 11 "org_name" 8 7 3 1 [2%nat] "Rossiya"]) [])
    as (_ & Hassert & _).
  - vm_compute. reflexivity.
  - unfold filed_tags. rewrite !elem_of_union, !elem_of_singleton.
    intros [[[?|?]|?]|?]; discriminate.
  - eapply Hassert. vm_compute. reflexivity.
Defined.

(** C5 on a document with the organization "Rossiya" within the
    organization "Bank of Rossiya", and the person "Bank". *)
Lemma makeTokenSets_nesting_witness :
  makeTokenSets true (Sample.loaded Sample.nested)
  = inr (Sample.token_sets_of true Sample.nested) ∧
  parent_of (Sample.token_sets_of true Sample.nested).2 1 = Some 0%nat ∧
  parent_of (Sample.token_sets_of true Sample.nested).2 2 = None.
Proof.
  assert (makeTokenSets true (Sample.loaded Sample.nested)
          = inr ((Sample.token_sets_of true Sample.nested).1,
                 (Sample.token_sets_of true Sample.nested).2)) as Hrun
    by (vm_compute; reflexivity).
  split; [vm_compute; reflexivity|].
  destruct (makeTokenSets_nesting _ _ _ _ Hrun)
    as (orgs & lo & ll & Hlo & Hll & -> & _ & Hout & _ & Hnest & _).
  vm_compute in Hlo. injection Hlo as <-.
  vm_compute in Hll. injection Hll as <-.
  assert (tokens_of (Sample.token_sets_of true Sample.nested).2 1 = {[ 2%nat ]}) as H1
    by (vm_compute; reflexivity).
  assert (tokens_of (Sample.token_sets_of true Sample.nested).2 0
          = {[ 0%nat; 1%nat; 2%nat ]}) as H0
    by (vm_compute; reflexivity).
  split.
  - destruct (Hnest 1%nat 0%nat) as (p & -> & Hp).
    + apply list_elem_of_In. simpl. tauto.
    + apply list_elem_of_In. simpl. tauto.
    + rewrite H1, H0. split.
      * intros x ->%elem_of_singleton. rewrite !elem_of_union, !elem_of_singleton. tauto.
      * intros Hsub. specialize (Hsub 0%nat).
        rewrite !elem_of_union, !elem_of_singleton in Hsub.
        assert (0 = 2)%nat by tauto. discriminate.
    + f_equal. apply Hp.
      intros c [[= ->]|[[= ->]|[]]]%list_elem_of_In Hc _; [reflexivity|done].
  - apply Hout. intros [[=]|[[=]|[]]]%list_elem_of_In.
Defined.

(** C5, as stated, on a document of five organizations, "Bank of Rossiya",
    "Bank of", "Bank", "Rossiya" and one without tokens, whose token sets
    are at the addresses 0 to 4.  "Bank" is strictly inside "Bank of
    Rossiya", which is not its parent ("Bank of" is); "Bank" and "Rossiya"
    are disjoint and both have a parent; the one without tokens and
    "Rossiya" are disjoint, and "Rossiya" is its parent. *)
Lemma makeTokenSets_nesting_fails :
  makeTokenSets true (Sample.loaded Sample.enclosed)
  = inr (Sample.token_sets_of true Sample.enclosed) ∧
  (Sample.token_sets_of true Sample.enclosed).1 !! "org" = Some [0; 1; 2; 3; 4]%nat ∧
  (tokens_of (Sample.token_sets_of true Sample.enclosed).2 2
   ⊂ tokens_of (Sample.token_sets_of true Sample.enclosed).2 0 ∧
   parent_of (Sample.token_sets_of true Sample.enclosed).2 2 ≠ Some 0%nat) ∧
  (tokens_of (Sample.token_sets_of true Sample.enclosed).2 2
   ## tokens_of (Sample.token_sets_of true Sample.enclosed).2 3 ∧
   tokens_of (Sample.token_sets_of true Sample.enclosed).2 2 ≠ ∅ ∧
   tokens_of (Sample.token_sets_of true Sample.enclosed).2 3 ≠ ∅ ∧
   parent_of (Sample.token_sets_of true Sample.enclosed).2 2 ≠ None ∧
   parent_of (Sample.token_sets_of true Sample.enclosed).2 3 ≠ None) ∧
  (tokens_of (Sample.token_sets_of true Sample.enclosed).2 4
   ## tokens_of (Sample.token_sets_of true Sample.enclosed).2 3 ∧
   parent_of (Sample.token_sets_of true Sample.enclosed).2 4 = Some 3%nat).
Proof.
  assert (tokens_of (Sample.token_sets_of true Sample.enclosed).2 0
          = {[ 0%nat; 1%nat; 2%nat ]}) as H0 by (vm_compute; reflexivity).
  assert (tokens_of (Sample.token_sets_of true Sample.enclosed).2 2 = {[ 1%nat ]})
    as H2 by (vm_compute; reflexivity).
  assert (tokens_of (Sample.token_sets_of true Sample.enclosed).2 3 = {[ 2%nat ]})
    as H3 by (vm_compute; reflexivity).
  assert (tokens_of (Sample.token_sets_of true Sample.enclosed).2 4 = ∅)
    as H4 by (vm_compute; reflexivity).
  assert (parent_of (Sample.token_sets_of true Sample.enclosed).2 2 = Some 1%nat)
    as P2 by (vm_compute; reflexivity).
  assert (parent_of (Sample.token_sets_of true Sample.enclosed).2 3 = Some 0%nat)
    as P3 by (vm_compute; reflexivity).
  rewrite H0, H2, H3, H4, P2, P3.
  split_and!.
  - vm_compute. reflexivity.
  - vm_compute. reflexivity.
  - split.
    + intros x ->%elem_of_singleton. rewrite !elem_of_union, !elem_of_singleton. tauto.
    + intros Hsub. specialize (Hsub 0%nat).
      rewrite !elem_of_union, !elem_of_singleton in Hsub.
      assert (0 = 1)%nat as Heq by tauto. discriminate Heq.
  - intros Heq. discriminate Heq.
  - apply elem_of_disjoint. intros x ->%elem_of_singleton Hx%elem_of_singleton.
    discriminate Hx.
  - apply non_empty_singleton_L.
  - apply non_empty_singleton_L.
  - intros Heq. discriminate Heq.
  - intros Heq. discriminate Heq.
  - apply elem_of_disjoint. by intros x ?%elem_of_empty.
  - vm_compute. reflexivity.
Defined.

(** C1 on the sample document without its spans file: the second stage
    raises, the constructor prints the failure, and the tokens stay. *)
Lemma init_catches_witness :
  printed (__init__ Sample.no_spans "bank" EmptyString)
  = [failed_to_load "bank"; "[Errno 2] No such file or directory: 'bank.spans'"] ∧
  propagated (__init__ Sample.no_spans "bank" EmptyString) = None ∧
  populated 0 (self (__init__ Sample.no_spans "bank" EmptyString)).
Proof.
  destruct (init_catches Sample.no_spans "bank" EmptyString) as [Hprop Hstage].
  destruct (Hstage 1%nat (loadSpans Sample.no_spans "bank.spans")
              (loadTokens Sample.no_spans "bank.tokens" new_object).1
              (loadSpans Sample.no_spans "bank.spans"
                 (loadTokens Sample.no_spans "bank.tokens" new_object).1).1
              (Raise OSError "[Errno 2] No such file or directory: 'bank.spans'"))
    as (Hself & Hprinted & Hkept);
    [reflexivity|vm_compute; reflexivity|vm_compute; reflexivity|].
  split_and!; [done..|].
  destruct (Hkept 0%nat) as (s0 & _ & Hpop & _); [lia|]. by rewrite Hself.
Defined.

(** C10 on the sample document, complete and without its spans file. *)
Lemma init_name_witness :
  name (self (__init__ Sample.bank "bank" EmptyString)) = Some "bank" ∧
  name (self (__init__ Sample.no_spans "bank" EmptyString)) = None.
Proof.
  split.
  - destruct (init_name Sample.bank "bank" EmptyString) as [Hok _].
    destruct (Hok (block (stages Sample.bank "bank") new_object).1) as [_ Hname];
      [vm_compute; reflexivity|exact Hname].
  - destruct (init_name Sample.no_spans "bank" EmptyString) as [_ Hfail].
    destruct (Hfail (block (stages Sample.no_spans "bank") new_object).1
                (Raise OSError "[Errno 2] No such file or directory: 'bank.spans'"))
      as (_ & Hname & _); [vm_compute; reflexivity|exact Hname].
Defined.

End Samples.

(** * The further properties on the sample documents *)

Section MoreSamples.
#[local] Existing Instance Sample.config.
#[local] Existing Instance Sample.objects.

(** X1 on the sample document: the text with its newline, and a file that
    is not there. *)
Lemma loadText_content_witness :
  loadText Sample.bank "bank.txt" new_object
  = (set_text (Sample.line "Bank of Rossiya") new_object, inr tt) ∧
  ∃ e, loadText Sample.bank "bank.text" new_object = (new_object, inl e) ∧
       exn_cls e = OSError.
Proof.
  split.
  - apply (loadText_content Sample.bank "bank.txt" new_object). reflexivity.
  - apply (loadText_content Sample.bank "bank.text" new_object). reflexivity.
Defined.

(** X2 on the sample document: three rows, three tokens. *)
Lemma loadTokens_one_per_row_witness :
  length [1; 0; 2]%nat
  = length (token_rows (Sample.line "2 5 2 of" +:+ Sample.line "1 0 4 Bank" +:+
                        Sample.line "3 8 7 Rossiya")).
Proof.
  eapply (loadTokens_one_per_row Sample.bank "bank.tokens" _ new_object
            (Cases.with_tokens Sample.bank));
    [vm_compute; reflexivity|reflexivity|vm_compute; reflexivity].
Defined.

(** X3 on a tokens file whose third row, after an empty one, has three
    fields. *)
Lemma loadTokens_wrong_length_witness :
  loadTokens Cases.short_row "bank.tokens" new_object
  = ((loadTokens Cases.short_row "bank.tokens" new_object).1,
     inl (Raise Exception "Wrong length in line 2 of file bank.tokens")) ∧
  _token_dict (loadTokens Cases.short_row "bank.tokens" new_object).1 = None ∧
  tokens (loadTokens Cases.short_row "bank.tokens" new_object).1 = Some [0%nat].
Proof.
  destruct (loadTokens_wrong_length Cases.short_row "bank.tokens"
              (Sample.line "1 0 4 Bank" +:+ Py.nl +:+ Sample.line "2 5 of")
              [["1"; "0"; "4"; "Bank"]; []] ["2"; "5"; "of"] [] new_object
              (loadTokens Cases.short_row "bank.tokens" new_object).1)
    as (Hrun & Hd & Ht);
    [reflexivity|vm_compute; reflexivity|vm_compute; reflexivity|discriminate|
     vm_compute; discriminate|].
  split_and!; [exact Hrun|exact Hd|exact Ht].
Defined.

(** X4 on the sample document: the dictionary holds the token "Bank", the
    second of the file, under its id 1. *)
Lemma loadTokens_dict_witness :
  ∃ d, _token_dict (Cases.with_tokens Sample.bank) = Some d ∧
       d !! tok_id (heap (Cases.with_tokens Sample.bank)) 1%nat = Some 1%nat ∧
       ∀ i a, d !! i = Some a → a ∈ [1; 0; 2]%nat.
Proof.
  destruct (_token_dict (Cases.with_tokens Sample.bank)) as [d|] eqn:Hd;
    [|by vm_compute in Hd].
  exists d. split; [done|].
  destruct (loadTokens_dict Sample.bank "bank.tokens" new_object
              (Cases.with_tokens Sample.bank) [1; 0; 2]%nat d)
    as (Helem & _ & Hlast); [vm_compute; reflexivity|vm_compute; reflexivity|done|].
  split.
  - apply Hlast.
    + apply list_elem_of_In. simpl. tauto.
    + intros b [<-|[<-|[<-|[]]]]%list_elem_of_In; vm_compute; intros; try lia;
        discriminate.
  - intros i a Hi. by apply Helem in Hi as [? _].
Defined.

(** X5 on two tokens that start at the same offset: the first of the file
    stays first. *)
Lemma loadTokens_stable_witness :
  tokens (Cases.with_tokens Cases.ties) = Some [0; 1]%nat ∧ (0 < 1)%nat.
Proof.
  split; [vm_compute; reflexivity|].
  assert (loadTokens Cases.ties "bank.tokens" new_object
          = (Cases.with_tokens Cases.ties, inr tt)) as Hrun
    by (vm_compute; reflexivity).
  assert (tokens (Cases.with_tokens Cases.ties) = Some [0; 1]%nat) as Htoks
    by (vm_compute; reflexivity).
  apply (loadTokens_stable Cases.ties "bank.tokens" new_object
           (Cases.with_tokens Cases.ties) [0; 1]%nat Hrun Htoks
           0%nat 1%nat 0%nat 1%nat);
    [lia|reflexivity|reflexivity|vm_compute; reflexivity].
Defined.

(** X6 on the sample document: "Bank" is followed by "of", and "of" comes
    after "Bank". *)
Lemma loadTokens_links_inverse_witness :
  next_of (heap (Cases.with_tokens Sample.bank)) 1 = Some 0%nat ∧
  prev_of (heap (Cases.with_tokens Sample.bank)) 0 = Some 1%nat.
Proof.
  assert (loadTokens Sample.bank "bank.tokens" new_object
          = (Cases.with_tokens Sample.bank, inr tt)) as Hrun
    by (vm_compute; reflexivity).
  assert (tokens (Cases.with_tokens Sample.bank) = Some [1; 0; 2]%nat) as Htoks
    by (vm_compute; reflexivity).
  destruct (loadTokens_links_inverse Sample.bank "bank.tokens" new_object
              (Cases.with_tokens Sample.bank) [1; 0; 2]%nat Hrun Htoks
              1%nat 0%nat) as [Hiff _].
  - apply list_elem_of_In. simpl. tauto.
  - apply list_elem_of_In. simpl. tauto.
  - assert (next_of (heap (Cases.with_tokens Sample.bank)) 1 = Some 0%nat) as Hn
      by (vm_compute; reflexivity).
    split; [exact Hn|]. by apply Hiff.
Defined.

(** X7 on the sample document: the text of its span is one line. *)
Lemma loadSpans_text_one_line_witness :
  Forall (λ sp, Py.occurs Py.nl (Span.text sp) = false)
    [Span.mk 10 "org_name" 0 15 1 3 [1; 0; 2]%nat "Bank of Rossiya"].
Proof.
  apply (loadSpans_text_one_line Sample.bank "bank.spans"
           (Cases.with_tokens Sample.bank)).
  vm_compute. reflexivity.
Defined.

(** X8 on the sample document: the tokens of its span are in the
    dictionary. *)
Lemma loadSpans_tokens_registered_witness :
  ∃ d z, _token_dict (Cases.with_tokens Sample.bank) = Some d ∧ d !! z = Some 2%nat.
Proof.
  eapply (loadSpans_tokens_registered Sample.bank "bank.spans"
            (Cases.with_tokens Sample.bank)
            [Span.mk 10 "org_name" 0 15 1 3 [1; 0; 2]%nat "Bank of Rossiya"]).
  - vm_compute. reflexivity.
  - by left.
  - simpl. apply list_elem_of_In. simpl. tauto.
Defined.

(** X9 on a spans file of three records. *)
Lemma loadSpans_one_per_line_witness :
  ∃ l, spans (Cases.with_spans Sample.nested) = Some l ∧
       length l = length (Py.lines Sample.three_spans).
Proof.
  destruct (spans (Cases.with_spans Sample.nested)) as [l|] eqn:Hl;
    [|by vm_compute in Hl].
  exists l. split; [done|].
  apply (loadSpans_one_per_line Sample.nested "bank.spans" Sample.three_spans
           (Cases.with_tokens Sample.nested) (Cases.with_spans Sample.nested));
    [vm_compute; reflexivity|reflexivity|done].
Defined.

(** X10 on the same file: every span is in the dictionary under its id. *)
Lemma loadSpans_dict_witness :
  ∃ l d, spans (Cases.with_spans Sample.nested) = Some l ∧
         _span_dict (Cases.with_spans Sample.nested) = Some d ∧
         ∀ sp, sp ∈ l → is_Some (d !! Span.id sp).
Proof.
  destruct (spans (Cases.with_spans Sample.nested)) as [l|] eqn:Hl;
    [|by vm_compute in Hl].
  destruct (_span_dict (Cases.with_spans Sample.nested)) as [d|] eqn:Hd;
    [|by vm_compute in Hd].
  exists l, d. split_and!; [done..|].
  apply (loadSpans_dict Sample.nested "bank.spans"
           (Cases.with_tokens Sample.nested) (Cases.with_spans Sample.nested) l d);
    [vm_compute; reflexivity|done|done].
Defined.

(** X11 on a span record that lists the token id 9. *)
Lemma loadSpans_unknown_token_witness :
  (loadSpans Cases.unknown_token "bank.spans" (Cases.with_tokens Sample.bank)).2
  = inl (Raise KeyError "9").
Proof.
  destruct (_token_dict (Cases.with_tokens Sample.bank)) as [d|] eqn:Hd;
    [|by vm_compute in Hd].
  rewrite (loadSpans_unknown_token Cases.unknown_token "bank.spans"
             (Sample.line "10 org_name 0 15 1 3 # 1 9 3 Bank of Rossiya")
             [] (Sample.line "10 org_name 0 15 1 3 # 1 9 3 Bank of Rossiya") []
             (Cases.with_tokens Sample.bank)
             (set_spans [] (Cases.with_tokens Sample.bank))
             "10 org_name 0 15 1 3 " (Sample.line " 1 9 3 Bank of Rossiya")
             ["10"; "org_name"; "0"; "15"; "1"; "3"]
             (Span.mk 10 "org_name" 0 15 1 3 [] EmptyString)
             ["1"; "9"; "3"; "Bank"; "of"; Sample.line "Rossiya"]
             d [1] 9 [3]).
  - reflexivity.
  - reflexivity.
  - reflexivity.
  - reflexivity.
  - vm_compute. reflexivity.
  - vm_compute. reflexivity.
  - simpl. lia.
  - vm_compute. reflexivity.
  - vm_compute. reflexivity.
  - reflexivity.
  - vm_compute. reflexivity.
  - exact Hd.
  - constructor; [|constructor]. vm_compute in Hd. injection Hd as <-.
    vm_compute. by eexists.
  - vm_compute in Hd. injection Hd as <-. vm_compute. reflexivity.
Defined.

(** X12 on an objects row with a comment. *)
Lemma mention_row_comment_witness :
  mention_row "bank.objects" 0 ["1"; "org"; "10"; "#"; "Bank"; "of"; "Rossiya"]
    (Cases.with_spans Sample.bank)
  = mention_row "bank.objects" 0 ["1"; "org"; "10"] (Cases.with_spans Sample.bank).
Proof.
  assert (COMMENT_SEPARATOR ∉ ["1"; "org"; "10"]) as Hrow.
  { intros Hin. apply list_elem_of_In in Hin. simpl in Hin.
    destruct Hin as [Heq|[Heq|[Heq|[]]]]; discriminate Heq. }
  exact (mention_row_comment "bank.objects" 0%nat ["1"; "org"; "10"]
           ["Bank"; "of"; "Rossiya"] (Cases.with_spans Sample.bank) Hrow).
Defined.

(** X13 on an objects file whose second row has an id, a tag and a
    comment. *)
Lemma loadMentions_missing_spans_witness :
  (loadMentions Cases.no_span_ids "bank.objects" (Cases.with_spans Sample.bank)).2
  = inl (Raise Exception
           "Missing spans in object description: line 1 of file bank.objects") ∧
  ∃ l, mentions (loadMentions Cases.no_span_ids "bank.objects"
                   (Cases.with_spans Sample.bank)).1 = Some l ∧ length l = 1%nat.
Proof.
  destruct (loadMentions_missing_spans Cases.no_span_ids "bank.objects"
              (Sample.line "1 org 10" +:+ Sample.line "2 org # Rossiya")
              [["1"; "org"; "10"]] ["2"; "org"; "#"; "Rossiya"] []
              (Cases.with_spans Sample.bank)
              (loadMentions Cases.no_span_ids "bank.objects"
                 (Cases.with_spans Sample.bank)).1) as [Hrun _];
    [reflexivity|vm_compute; reflexivity|vm_compute; reflexivity|
     vm_compute; discriminate|vm_compute; lia|].
  split; [by rewrite Hrun|]. eexists. split; [vm_compute; reflexivity|reflexivity].
Defined.


(** X15 on the sample document: its one row gives its one mention. *)
Lemma loadMentions_rows_witness :
  ∃ l, mentions (Sample.loaded Sample.bank) = Some l ∧
       Forall2 (λ row m, ∃ d, _span_dict (Cases.with_spans Sample.bank) = Some d ∧
                              mention_of_row d row m)
         (mention_rows (Sample.line "1 org 10 # Bank of Rossiya")) l.
Proof.
  destruct (mentions (Sample.loaded Sample.bank)) as [l|] eqn:Hl;
    [|by vm_compute in Hl].
  exists l. split; [done|].
  apply (loadMentions_rows Sample.bank "bank.objects"
           (Sample.line "1 org 10 # Bank of Rossiya")
           (Cases.with_spans Sample.bank)
           (loadMentions Sample.bank "bank.objects" (Cases.with_spans Sample.bank)).1);
    [vm_compute; reflexivity|reflexivity|].
  rewrite <- Hl. vm_compute. reflexivity.
Defined.

(** X16 on a document of three mentions: each is in the dictionary under
    its id. *)
Lemma loadMentions_dict_witness :
  ∃ l d, mentions (Sample.loaded Sample.nested) = Some l ∧
         _mention_dict (Sample.loaded Sample.nested) = Some d ∧
         length l = 3%nat ∧
         ∀ m, m ∈ l → is_Some (d !! Mention.id m).
Proof.
  destruct (mentions (Sample.loaded Sample.nested)) as [l|] eqn:Hl;
    [|by vm_compute in Hl].
  destruct (_mention_dict (Sample.loaded Sample.nested)) as [d|] eqn:Hd;
    [|by vm_compute in Hd].
  exists l, d. split_and!; [done..| |].
  - vm_compute in Hl. by injection Hl as <-.
  - apply (loadMentions_dict Sample.nested "bank.objects"
             (Cases.with_spans Sample.nested)
             (loadMentions Sample.nested "bank.objects"
                (Cases.with_spans Sample.nested)).1 l d);
      [vm_compute; reflexivity| |].
    + rewrite <- Hl. vm_compute. reflexivity.
    + rewrite <- Hd. vm_compute. reflexivity.
Defined.

(** X17 on a tokens file with a row of three fields: the token of the row
    before is in [tokens], and there is no dictionary. *)
Lemma loaders_partial_witness :
  is_Some (tokens (loadTokens Cases.short_row "bank.tokens" new_object).1) ∧
  _token_dict (loadTokens Cases.short_row "bank.tokens" new_object).1 = None.
Proof.
  destruct (loaders_partial Cases.short_row "bank.tokens" new_object)
    as [[Ht Hd] _].
  split; [exact Ht|]. eapply Hd. vm_compute. reflexivity.
Defined.

(** X19 on the sample document, which has no coreference file. *)
Lemma init_without_coref_witness :
  printed (__init__ Sample.bank "bank" EmptyString) = [] ∧
  entities (self (__init__ Sample.bank "bank" EmptyString)) = Some [] ∧
  text (self (__init__ Sample.bank "bank" EmptyString))
  = Some (Sample.line "Bank of Rossiya") ∧
  name (self (__init__ Sample.bank "bank" EmptyString)) = Some "bank".
Proof.
  rewrite (init_without_coref Sample.bank "bank" EmptyString
             (Cases.with_tokens Sample.bank) (Cases.with_spans Sample.bank)
             (loadMentions Sample.bank "bank.objects" (Cases.with_spans Sample.bank)).1
             (Sample.line "Bank of Rossiya"));
    [|vm_compute; reflexivity..].
  split_and!; reflexivity.
Defined.

(** X20 on the sample document without its spans file: the constructor
    prints the failure and makeTokenSets raises. *)
Lemma init_then_makeTokenSets_witness :
  printed (__init__ Sample.no_spans "bank" EmptyString)
  = [failed_to_load "bank"; "[Errno 2] No such file or directory: 'bank.spans'"] ∧
  makeTokenSets true (self (__init__ Sample.no_spans "bank" EmptyString))
  = inl (Raise AttributeError "'Standard' object has no attribute 'mentions'").
Proof.
  destruct (init_then_makeTokenSets Sample.no_spans "bank" EmptyString true)
    as [Hfail _].
  apply (Hfail (block (take 2 (stages Sample.no_spans "bank")) new_object).1
           (Raise OSError "[Errno 2] No such file or directory: 'bank.spans'")).
  vm_compute. reflexivity.
Defined.

(** X21 on a document with two organizations and a person: the
    organizations under 'org' in the order of the file, nothing under
    'loc', and no key 'other'. *)
Lemma makeTokenSets_order_witness :
  (Sample.token_sets_of true Sample.nested).1 !! "org" = Some [0; 1]%nat ∧
  (Sample.token_sets_of true Sample.nested).1 !! "per" = Some [2%nat] ∧
  (Sample.token_sets_of true Sample.nested).1 !! "loc" = Some [] ∧
  (Sample.token_sets_of true Sample.nested).1 !! "other" = None.
Proof.
  assert (makeTokenSets true (Sample.loaded Sample.nested)
          = inr ((Sample.token_sets_of true Sample.nested).1,
                 (Sample.token_sets_of true Sample.nested).2)) as Hrun
    by (vm_compute; reflexivity).
  assert (∃ ms, mentions (Sample.loaded Sample.nested) = Some ms ∧
                Mention.tag <$> ms = ["org"; "org"; "per"]) as (ms & Hms & Htags).
  { eexists. split; vm_compute; reflexivity. }
  split_and!.
  - rewrite (makeTokenSets_order true _ _ _ ms "org" Hrun Hms).
    destruct ms as [|m1 [|m2 [|m3 [|]]]]; try discriminate Htags.
    injection Htags as H1 H2 H3. unfold filed_under, mention_key.
    rewrite H1, H2, H3. vm_compute. reflexivity.
  - rewrite (makeTokenSets_order true _ _ _ ms "per" Hrun Hms).
    destruct ms as [|m1 [|m2 [|m3 [|]]]]; try discriminate Htags.
    injection Htags as H1 H2 H3. unfold filed_under, mention_key.
    rewrite H1, H2, H3. vm_compute. reflexivity.
  - rewrite (makeTokenSets_order true _ _ _ ms "loc" Hrun Hms).
    destruct ms as [|m1 [|m2 [|m3 [|]]]]; try discriminate Htags.
    injection Htags as H1 H2 H3. unfold filed_under, mention_key.
    rewrite H1, H2, H3. vm_compute. reflexivity.
  - rewrite (makeTokenSets_order true _ _ _ ms "other" Hrun Hms).
    vm_compute. reflexivity.
Defined.

(** X22 on a document with a mention tagged 'other': of the three cases it
    is the assertion. *)
Lemma makeTokenSets_failures_witness :
  ∃ ms m, mentions (Sample.loaded Sample.other) = Some ms ∧ m ∈ ms ∧
          (mention_key true m ∉ allowed_tags true).
Proof.
  destruct (makeTokenSets_failures true (Sample.loaded Sample.other)
              (Raise AssertionError EmptyString))
    as [[Hnone _]|(ms & m & Hms & Hin & [[Hkey _]|(sp & _ & _ & Hmark)])].
  - vm_compute. reflexivity.
  - vm_compute in Hnone. discriminate Hnone.
  - by exists ms, m.
  - vm_compute in Hmark. discriminate Hmark.
Defined.

(** X23 on a mention with a span over "Bank of Rossiya" and then a span
    over "Bank": the three tokens are marked, "Bank" from the second
    span. *)
Lemma makeTokenSets_marks_witness :
  ∃ ts, (Sample.token_sets_of true Cases.two_spans).2 !! 0%nat = Some ts ∧
        dom (TokenSet.marks ts) = TokenSet.tokens ts ∧
        TokenSet.marks ts !! 1%nat = Some "org/name" ∧
        TokenSet.marks ts !! 0%nat = Some "org/org_name".
Proof.
  assert (makeTokenSets true (Sample.loaded Cases.two_spans)
          = inr ((Sample.token_sets_of true Cases.two_spans).1,
                 (Sample.token_sets_of true Cases.two_spans).2)) as Hrun
    by (vm_compute; reflexivity).
  destruct ((Sample.token_sets_of true Cases.two_spans).2 !! 0%nat) as [ts|] eqn:Hts;
    [|by vm_compute in Hts].
  exists ts. split; [done|].
  assert (TokenSet.tag ts = "org") as Htag.
  { vm_compute in Hts. by injection Hts as <-. }
  destruct (makeTokenSets_marks true (Sample.loaded Cases.two_spans) _ _
              [Mention.mk 1 "org"
                 [Span.mk 10 "org_name" 0 15 1 3 [1; 0; 2]%nat "Bank of Rossiya";
                  Span.mk 12 "name" 0 4 1 1 [1%nat] "Bank"]]
              0%nat
              (Mention.mk 1 "org"
                 [Span.mk 10 "org_name" 0 15 1 3 [1; 0; 2]%nat "Bank of Rossiya";
                  Span.mk 12 "name" 0 4 1 1 [1%nat] "Bank"])
              ts Hrun) as (Hdom & _ & Hlast);
    [vm_compute; reflexivity|reflexivity|exact Hts|].
  split_and!; [exact Hdom| |].
  - destruct (Hlast [Span.mk 10 "org_name" 0 15 1 3 [1; 0; 2]%nat "Bank of Rossiya"]
                (Span.mk 12 "name" 0 4 1 1 [1%nat] "Bank") [] 1%nat)
      as (mark & Hg & Hm); [reflexivity|by left|constructor|].
    rewrite Htag in Hg. vm_compute in Hg. injection Hg as <-. exact Hm.
  - destruct (Hlast []
                (Span.mk 10 "org_name" 0 15 1 3 [1; 0; 2]%nat "Bank of Rossiya")
                [Span.mk 12 "name" 0 4 1 1 [1%nat] "Bank"] 0%nat)
      as (mark & Hg & Hm); [reflexivity|simpl; by right; left| |].
    + constructor; [|constructor]. simpl. intros Hin.
      apply list_elem_of_In in Hin. simpl in Hin. by destruct Hin as [?|[]].
    + rewrite Htag in Hg. vm_compute in Hg. injection Hg as <-. exact Hm.
Defined.

(** X24 on the sample document: the tokens of its span are tokens of the
    document. *)
Lemma loadSpans_after_loadTokens_witness :
  2%nat ∈ default [] (tokens (Cases.with_tokens Sample.bank)).
Proof.
  destruct (loadSpans_after_loadTokens Sample.bank "bank.tokens" "bank.spans"
              new_object (Cases.with_tokens Sample.bank) [1; 0; 2]%nat
              [Span.mk 10 "org_name" 0 15 1 3 [1; 0; 2]%nat "Bank of Rossiya"])
    as (_ & _ & Hin); [vm_compute; reflexivity..|].
  apply (Hin (Span.mk 10 "org_name" 0 15 1 3 [1; 0; 2]%nat "Bank of Rossiya") 2%nat);
    [by left|]. simpl. apply list_elem_of_In. simpl. tauto.
Defined.

End MoreSamples.
